(** * DFRot: a shallow embedding of [utils/model_utils.py] and
      [utils/rotation_utils.py]

    The development follows the two source files.  Python values are
    modelled the way the code uses them:

    - a raised exception is the [Raise] branch of [Result], an ordinary
      return the [Ok] branch;
    - an object's class is known through its method-resolution order, so
      that [isinstance] is membership in that list;
    - the attribute dictionaries of a module ([_parameters], [_buffers],
      [__dict__]) are finite maps keyed by strings; dictionaries whose
      order the code relies on are association lists;
    - an object the code reaches by two routes is one object where a
      function writes to it: a module registered under several names of
      its parent, which [named_children()] yields once, and the weight
      that tied word embeddings share between the embedding and the head;
    - tensors carry a shape, a dtype/device tag and their entries in
      row-major order; the entry type and its arithmetic are parameters
      (the class [Scalar], with no law assumed), so every statement holds
      for rounded floating-point arithmetic as well as for an exact ring;
      a statement made "in exact arithmetic" takes the laws of a
      commutative semiring and the exactness of rounding as hypotheses;
    - what the two files call but do not define (the quantizer kernels,
      the Hadamard kernel and utilities, the monkeypatch helper, the
      Hugging Face loaders, the QR factorisation and the Householder
      helpers, the random generators, [int], [misc.DEV]) is a class
      parameter as well.

    The definitions come first, file by file; the properties follow. *)

From Stdlib Require Import ZArith String Ascii List Lia DecimalString DecimalN Ring.
From stdpp Require Import base option gmap strings list.

Set Default Proof Using "Type".
Set Warnings "-register-all".

(* ================================================================== *)
(** * Python preliminaries *)
(* ================================================================== *)

Module Py.

(** The exception classes the two files can raise or let through. *)
Inductive PyError : Type :=
  | ValueError
  | NotImplementedError
  | AssertionError
  | AttributeError
  | IndexError
  | TypeError
  | RuntimeError
  | KeyError
  | ZeroDivisionError.

#[global] Instance PyError_eq_dec : EqDecision PyError.
Proof. solve_decision. Defined.

Inductive Result (A : Type) : Type :=
  | Ok (a : A)
  | Raise (e : PyError).

Arguments Ok {A} a.
Arguments Raise {A} e.

Definition bind {A B : Type} (r : Result A) (k : A -> Result B) : Result B :=
  match r with
  | Ok a => k a
  | Raise e => Raise e
  end.

(** [assert c] *)
Definition py_assert (c : bool) : Result unit :=
  if c then Ok tt else Raise AssertionError.

Definition is_ok {A : Type} (r : Result A) : bool :=
  match r with Ok _ => true | Raise _ => false end.

(** Objects expose their class through the list of classes they are an
    instance of (the class itself and its bases). *)
Class HasMro (A : Type) := mro : A -> list string.

Definition isinstance {A : Type} `{HasMro A} (obj : A) (cls : string) : bool :=
  bool_decide (cls ∈ mro obj).

End Py.

Import Py.

(** Sequencing of fallible statements uses the [x ← c; k] notation. *)
#[global] Instance Result_ret : MRet Result := fun _ a => Ok a.
#[global] Instance Result_bind : MBind Result := fun _ _ k r => bind r k.

(** A loop whose body may raise. *)
Fixpoint for_each {A S : Type} (body : A -> S -> Result S) (l : list A) (s : S)
  : Result S :=
  match l with
  | [] => Ok s
  | a :: l' => s' ← body a s; for_each body l' s'
  end.

(** A comprehension whose body may raise. *)
Fixpoint map_result {A B : Type} (f : A -> Result B) (l : list A) : Result (list B) :=
  match l with
  | [] => Ok []
  | a :: l' => b ← f a; bs ← map_result f l'; Ok (b :: bs)
  end.

(* ================================================================== *)
(** * The tensor library, as far as the two files use it *)
(* ================================================================== *)

Module Torch.

Inductive DType : Type := float16 | bfloat16 | float32 | float64.
Inductive Device : Type := cpu | cuda.

#[global] Instance DType_eq_dec : EqDecision DType.
Proof. solve_decision. Defined.
#[global] Instance Device_eq_dec : EqDecision Device.
Proof. solve_decision. Defined.

(** Entries and their arithmetic.  No law is assumed: [s_add] and [s_mul]
    may round, and [s_round dt] is the conversion of an entry to [dt]. *)
Class Scalar (R : Type) := {
  s_zero : R;
  s_one : R;
  s_add : R -> R -> R;
  s_mul : R -> R -> R;
  s_round : DType -> R -> R
}.

(** The elementwise operations the matrix generators use besides the
    arithmetic of [Scalar]: [torch.sign], the test [> 0] and the entry
    [-1]. *)
Class Elementwise (R : Type) := {
  s_sign : R -> R;
  s_positive : R -> bool;
  s_minus_one : R
}.

(** A tensor: its shape, dtype and device, and its entries in row-major
    order. *)
Record Tensor (R : Type) : Type := mkTensor {
  shape : list nat;
  dtype : DType;
  device : Device;
  data : list R
}.

Arguments mkTensor {R} shape dtype device data.
Arguments shape {R} t.
Arguments dtype {R} t.
Arguments device {R} t.
Arguments data {R} t.

(** Number of entries of a shape. *)
Definition numel (s : list nat) : nat := foldr Nat.mul 1 s.

(** The entries fill the shape. *)
Definition wf {R : Type} (t : Tensor R) : Prop :=
  length (data t) = numel (shape t).

(** [shape[:-1]] and [shape[-1]]. *)
Fixpoint split_last (s : list nat) : option (list nat * nat) :=
  match s with
  | [] => None
  | [k] => Some ([], k)
  | d :: s' =>
      match split_last s' with
      | Some (b, k) => Some (d :: b, k)
      | None => None
      end
  end.

(** [t.shape[-1]] *)
Definition last_dim {R : Type} (t : Tensor R) : Result nat :=
  match split_last (shape t) with
  | Some (_, k) => Ok k
  | None => Raise IndexError
  end.

(** [t.shape[0]] *)
Definition first_dim {R : Type} (t : Tensor R) : Result nat :=
  match shape t with
  | n :: _ => Ok n
  | [] => Raise IndexError
  end.

Section Ops.
Context {R : Type} `{Scalar R}.

(** [t.to(dtype=dt, device=dev)]: a tensor already of that dtype keeps its
    entries. *)
Definition to_ (dt : DType) (dev : Device) (t : Tensor R) : Tensor R :=
  mkTensor (shape t) dt dev
    (if decide (dtype t = dt) then data t else map (s_round dt) (data t)).

Definition double (t : Tensor R) : Tensor R := to_ float64 (device t) t.
Definition float (t : Tensor R) : Tensor R := to_ float32 (device t) t.
Definition to_dtype (dt : DType) (t : Tensor R) : Tensor R := to_ dt (device t) t.
Definition to_device (dev : Device) (t : Tensor R) : Tensor R := to_ (dtype t) dev t.

(** [t.to(other)]: the dtype and device of [other]. *)
Definition to_like (other t : Tensor R) : Tensor R :=
  to_ (dtype other) (device other) t.

(** [torch.ones_like(t)] *)
Definition ones_like (t : Tensor R) : Tensor R :=
  mkTensor (shape t) (dtype t) (device t) (replicate (numel (shape t)) s_one).

(** [torch.zeros(n, dtype=dt)] *)
Definition zeros (n : nat) (dt : DType) : Tensor R :=
  mkTensor [n] dt cpu (replicate n s_zero).

(** Inner product, accumulated from the left. *)
Definition dot (xs ys : list R) : R :=
  foldl (fun acc p => s_add acc (s_mul p.1 p.2)) s_zero (zip xs ys).

(** The [n] rows of a row-major matrix with [k] columns. *)
Fixpoint rows_of (k n : nat) (l : list R) : list (list R) :=
  match n with
  | O => []
  | S n' => take k l :: rows_of k n' (drop k l)
  end.

(** Column [j] of a row-major [k]×[o] matrix, and all [o] columns. *)
Definition col (k o : nat) (l : list R) (j : nat) : list R :=
  map (fun i => nth (i * o + j) l s_zero) (seq 0 k).

Definition cols_of (k o : nat) (l : list R) : list (list R) :=
  map (col k o l) (seq 0 o).

(** [t.T] of a matrix.  Only matrices are transposed in the two files. *)
Definition T (t : Tensor R) : Result (Tensor R) :=
  match shape t with
  | [n; m] => Ok (mkTensor [m; n] (dtype t) (device t) (concat (cols_of n m (data t))))
  | _ => Raise RuntimeError
  end.

(** Every row of [x] against every vector of [ws]. *)
Definition apply_rows (dt : DType) (xrows ws : list (list R)) : list R :=
  flat_map (fun r => map (fun w => s_round dt (dot r w)) ws) xrows.

(** [torch.nn.functional.linear(x, W)] without bias: [x @ W.T], for [x] of
    shape [(..., k)] and [W] of shape [(o, k)]. *)
Definition linear (x W : Tensor R) : Result (Tensor R) :=
  match shape W, split_last (shape x) with
  | [o; k], Some (batch, k') =>
      if bool_decide (k = k' ∧ dtype x = dtype W ∧ device x = device W)
      then Ok (mkTensor (batch ++ [o]) (dtype x) (device x)
                 (apply_rows (dtype x) (rows_of k (numel batch) (data x))
                    (rows_of k o (data W))))
      else Raise RuntimeError
  | _, _ => Raise RuntimeError
  end.

(** [torch.matmul(x, B)] for [x] of shape [(..., k)] and a matrix [B] of
    shape [(k, o)]. *)
Definition matmul (x B : Tensor R) : Result (Tensor R) :=
  match shape B, split_last (shape x) with
  | [k; o], Some (batch, k') =>
      if bool_decide (k = k' ∧ dtype x = dtype B ∧ device x = device B)
      then Ok (mkTensor (batch ++ [o]) (dtype x) (device x)
                 (apply_rows (dtype x) (rows_of k (numel batch) (data x))
                    (cols_of k o (data B))))
      else Raise RuntimeError
  | _, _ => Raise RuntimeError
  end.

(** [torch.matmul(W, b)] for a matrix [W] of shape [(o, i)] and a vector
    [b] of shape [(i,)]. *)
Definition matvec (W b : Tensor R) : Result (Tensor R) :=
  match shape W, shape b with
  | [o; i], [n] =>
      if bool_decide (i = n ∧ dtype W = dtype b ∧ device W = device b)
      then Ok (mkTensor [o] (dtype W) (device W)
                 (map (fun r => s_round (dtype W) (dot r (data b)))
                    (rows_of i o (data W))))
      else Raise RuntimeError
  | _, _ => Raise RuntimeError
  end.

(** [W * v] for a matrix [W] of shape [(o, i)] and a vector [v] of shape
    [(n,)], with broadcasting of a dimension of size one. *)
Definition mul_bcast (W v : Tensor R) : Result (Tensor R) :=
  match shape W, shape v with
  | [o; i], [n] =>
      if bool_decide ((i = n ∨ i = 1 ∨ n = 1) ∧ device W = device v)
      then Ok (mkTensor [o; i `max` n] (dtype W) (device W)
                 (flat_map (fun r =>
                    map (fun c =>
                      s_round (dtype W)
                        (s_mul (nth (r * i + (if bool_decide (i = 1) then 0 else c)) (data W) s_zero)
                               (nth (if bool_decide (n = 1) then 0 else c) (data v) s_zero)))
                        (seq 0 (i `max` n)))
                    (seq 0 o)))
      else Raise RuntimeError
  | _, _ => Raise RuntimeError
  end.

(** [a + b] for two vectors of the same length. *)
Definition add_vec (a b : Tensor R) : Result (Tensor R) :=
  match shape a, shape b with
  | [n], [m] =>
      if bool_decide (n = m ∧ device a = device b)
      then Ok (mkTensor [n] (dtype a) (device a)
                 (map (fun p => s_round (dtype a) (s_add p.1 p.2)) (zip (data a) (data b))))
      else Raise RuntimeError
  | _, _ => Raise RuntimeError
  end.

(** [t.reshape(s)] for an explicit shape. *)
Definition reshape (s : list nat) (t : Tensor R) : Result (Tensor R) :=
  if bool_decide (numel s = numel (shape t))
  then Ok (mkTensor s (dtype t) (device t) (data t))
  else Raise RuntimeError.

(** [t.reshape(-1, c)]: the first dimension is inferred. *)
Definition reshape_rows (c : nat) (t : Tensor R) : Result (Tensor R) :=
  let n := numel (shape t) in
  if bool_decide (c ≠ 0 ∧ n `mod` c = 0)
  then Ok (mkTensor [n `div` c; c] (dtype t) (device t) (data t))
  else Raise RuntimeError.

(** [t.transpose(1, 2)] of a four-dimensional tensor. *)
Definition transpose12 (t : Tensor R) : Result (Tensor R) :=
  match shape t with
  | [a; b; c; d] =>
      Ok (mkTensor [a; c; b; d] (dtype t) (device t)
            (flat_map (fun i =>
               flat_map (fun k =>
                 flat_map (fun j => take d (drop (((i * b + j) * c + k) * d) (data t)))
                   (seq 0 b))
                 (seq 0 c))
               (seq 0 a)))
  | _ => Raise IndexError
  end.

(** [t[i:i+1]] *)
Definition slice0 (i : nat) (t : Tensor R) : Result (Tensor R) :=
  match shape t with
  | n :: rest =>
      Ok (mkTensor ((if bool_decide (i < n) then 1 else 0) :: rest) (dtype t) (device t)
            (take (numel rest) (drop (i * numel rest) (data t))))
  | [] => Raise IndexError
  end.

(** [torch.cat(ts, dim=0)].  An empty list is refused with
    [ValueError]; tensors that do not fit together with [RuntimeError]. *)
Definition cat0 (ts : list (Tensor R)) : Result (Tensor R) :=
  match ts with
  | [] => Raise ValueError
  | t :: _ =>
      match shape t with
      | [] => Raise RuntimeError
      | _ :: tl =>
          if forallb (fun u => bool_decide (tail (shape u) = tl ∧ shape u ≠ []
                                            ∧ device u = device t)) ts
          then Ok (mkTensor (sum_list (map (fun u => default 0 (head (shape u))) ts) :: tl)
                     (dtype t) (device t) (concat (map data ts)))
          else Raise RuntimeError
      end
  end.

(** [torch.diag(r)] of a matrix: its main diagonal. *)
Definition diag (r : Tensor R) : Result (Tensor R) :=
  match shape r with
  | [n; m] =>
      Ok (mkTensor [n `min` m] (dtype r) (device r)
            (map (fun i => nth (i * m + i) (data r) s_zero) (seq 0 (n `min` m))))
  | _ => Raise RuntimeError
  end.

(** [t.unsqueeze(0)] *)
Definition unsqueeze0 (t : Tensor R) : Tensor R :=
  mkTensor (1 :: shape t) (dtype t) (device t) (data t).

(** [q *= v] for a matrix [q] of shape [(a, b)] and a row [v] of shape
    [(1, n)]: in place, so [v] is broadcast to the shape of [q]. *)
Definition imul (q v : Tensor R) : Result (Tensor R) :=
  match shape q, shape v with
  | [a; b], [1; n] =>
      if bool_decide ((n = b ∨ n = 1) ∧ device q = device v)
      then Ok (mkTensor [a; b] (dtype q) (device q)
                 (flat_map (fun r =>
                    map (fun c =>
                      s_round (dtype q)
                        (s_mul (nth (r * b + c) (data q) s_zero)
                               (nth (if bool_decide (n = 1) then 0 else c) (data v) s_zero)))
                        (seq 0 b))
                    (seq 0 a)))
      else Raise RuntimeError
  | _, _ => Raise RuntimeError
  end.

(** [torch.eye(size)]: single precision, on the CPU. *)
Definition eye (size : nat) : Tensor R :=
  mkTensor [size; size] float32 cpu
    (flat_map (fun r => map (fun c => if bool_decide (r = c) then s_one else s_zero)
                          (seq 0 size))
       (seq 0 size)).

(** [a * b] for two vectors, with broadcasting of a length of one. *)
Definition mul_vec (a b : Tensor R) : Result (Tensor R) :=
  match shape a, shape b with
  | [n], [m] =>
      if bool_decide ((n = m ∨ n = 1 ∨ m = 1) ∧ device a = device b)
      then Ok (mkTensor [n `max` m] (dtype a) (device a)
                 (map (fun c =>
                    s_round (dtype a)
                      (s_mul (nth (if bool_decide (n = 1) then 0 else c) (data a) s_zero)
                             (nth (if bool_decide (m = 1) then 0 else c) (data b) s_zero)))
                    (seq 0 (n `max` m))))
      else Raise RuntimeError
  | _, _ => Raise RuntimeError
  end.

(** ** Vocabulary of the properties in exact arithmetic *)

(** The sum of [f 0], ..., [f (n - 1)]. *)
Fixpoint bigsum (n : nat) (f : nat -> R) : R :=
  match n with
  | O => s_zero
  | S n' => s_add (f 0) (bigsum n' (fun i => f (S i)))
  end.

(** Row [a] of a row-major matrix with [k] columns. *)
Definition row (k : nat) (l : list R) (a : nat) : list R := take k (drop (a * k) l).

(** [Q @ Q.T = I] for a square matrix: its rows are orthonormal. *)
Definition rows_orthonormal (Q : Tensor R) : Prop :=
  exists n, shape Q = [n; n] /\ wf Q
    /\ forall a b, a < n -> b < n ->
         dot (row n (data Q) a) (row n (data Q) b)
         = if bool_decide (a = b) then s_one else s_zero.

(** The row vector [v] times a row-major [k]×[o] matrix. *)
Definition vecmat (k o : nat) (B : list R) (v : list R) : list R :=
  map (dot v) (cols_of k o B).

(** Two tensors with the same shape and the same entries. *)
Definition same_values (t u : Tensor R) : Prop :=
  shape t = shape u /\ data t = data u.

Context `{Elementwise R}.

(** [torch.sign(t)] *)
Definition sign (t : Tensor R) : Tensor R :=
  mkTensor (shape t) (dtype t) (device t) (map s_sign (data t)).

End Ops.

End Torch.

Import Torch.

(* ================================================================== *)
(** * The pretrained-model structure the engine walks *)
(* ================================================================== *)

Module Transformers.

Section Structure.
Context {R : Type}.

(** [torch.nn.Linear]: [bias] is [None] for a layer built without one. *)
Record Linear : Type := mkLinear {
  weight : Tensor R;
  bias : option (Tensor R);
  out_features : nat
}.

(** A normalization module: its scale, and its bias when the class has
    one ([hasattr(layernorm, 'bias')]). *)
Record Norm : Type := mkNorm {
  norm_weight : Tensor R;
  norm_bias : option (Tensor R)
}.

Record Attention : Type := mkAttention {
  q_proj : Linear;
  k_proj : Linear;
  v_proj : Linear;
  o_proj : Linear
}.

Record MLP : Type := mkMLP {
  gate_proj : Linear;
  up_proj : Linear;
  down_proj : Linear
}.

Record DecoderLayer : Type := mkDecoderLayer {
  self_attn : Attention;
  mlp : MLP;
  input_layernorm : Norm;
  post_attention_layernorm : Norm
}.

(** [model.model] *)
Record Decoder : Type := mkDecoder {
  embed_tokens : Tensor R;
  layers : list DecoderLayer;
  norm : Norm
}.

(** A model for causal language modelling.  [tied_embeddings] tells
    whether [model.lm_head.weight] and [model.model.embed_tokens.weight]
    are one [Parameter] (tied word embeddings): what is assigned to the
    [data] of one is then the [data] of the other. *)
Record CausalLM : Type := mkCausalLM {
  lm_mro : list string;
  model : Decoder;
  lm_head : Linear;
  tied_embeddings : bool
}.

(** The model after [model.model.embed_tokens.weight.data = W]: with tied
    embeddings the head shows the new weight. *)
Definition with_embed_tokens (lm : CausalLM) (W : Tensor R) : CausalLM :=
  mkCausalLM (lm_mro lm)
    (mkDecoder W (layers (model lm)) (norm (model lm)))
    (if tied_embeddings lm
     then mkLinear W (bias (lm_head lm)) (out_features (lm_head lm))
     else lm_head lm)
    (tied_embeddings lm).

(** The model after the assignments to [model.lm_head.weight.data] and to
    the bias of the head that make the head [head]: with tied embeddings
    the embedding shows the new weight. *)
Definition with_lm_head (lm : CausalLM) (head : Linear) : CausalLM :=
  mkCausalLM (lm_mro lm)
    (mkDecoder (if tied_embeddings lm then weight head else embed_tokens (model lm))
       (layers (model lm)) (norm (model lm)))
    head
    (tied_embeddings lm).

End Structure.

Arguments Linear R : clear implicits.
Arguments Norm R : clear implicits.
Arguments Attention R : clear implicits.
Arguments MLP R : clear implicits.
Arguments DecoderLayer R : clear implicits.
Arguments Decoder R : clear implicits.
Arguments CausalLM R : clear implicits.

#[global] Instance CausalLM_mro {R : Type} : HasMro (CausalLM R) := lm_mro.

End Transformers.

Import Transformers.

(* ================================================================== *)
(** * utils/model_utils.py: classification and the capture path *)
(* ================================================================== *)

Module ModelUtils.

(** The module-level class constants. *)
Definition LLAMA_MODEL : string := "LlamaForCausalLM".
Definition LLAMA_LAYER : string := "LlamaDecoderLayer".
Definition MISTRAL_MODEL : string := "MistralForCausalLM".
Definition MISTRAL_LAYER : string := "MistralDecoderLayer".
Definition QW_MODEL : string := "Qwen2ForCausalLM".
Definition QW_LAYER : string := "Qwen2DecoderLayer".

Section Classify.
Context {A : Type} `{HasMro A}.

Definition model_type_extractor (model : A) : Result string :=
  if isinstance model LLAMA_MODEL then Ok LLAMA_MODEL
  else if isinstance model MISTRAL_MODEL then Ok MISTRAL_MODEL
  else if isinstance model QW_MODEL then Ok QW_MODEL
  else Raise ValueError.

Definition get_model_type (model : A) : Result string :=
  model_type ←
    (if isinstance model LLAMA_MODEL then Ok LLAMA_MODEL
     else if isinstance model MISTRAL_MODEL then Ok MISTRAL_MODEL
     else if isinstance model QW_MODEL then Ok QW_MODEL
     else Raise ValueError);
  Ok model_type.

Definition get_rope_function_name (model : A) : Result string :=
  if isinstance model LLAMA_MODEL then Ok "apply_rotary_pos_emb"%string
  else if isinstance model MISTRAL_MODEL then Ok "apply_rotary_pos_emb"%string
  else if isinstance model QW_MODEL then Ok "apply_rotary_pos_emb"%string
  else Raise NotImplementedError.

(** An instance of one of the three supported classes. *)
Definition supported (model : A) : bool :=
  isinstance model LLAMA_MODEL || isinstance model MISTRAL_MODEL
  || isinstance model QW_MODEL.

End Classify.

(** ** Accessors over the model structure *)

Definition get_transformer_layers {R : Type} (model : CausalLM R) (model_type : string)
  : Result (list (DecoderLayer R)) :=
  if bool_decide (model_type = LLAMA_MODEL) then Ok (layers (Transformers.model model))
  else if bool_decide (model_type = MISTRAL_MODEL) then Ok (layers (Transformers.model model))
  else if bool_decide (model_type = QW_MODEL) then Ok (layers (Transformers.model model))
  else Raise ValueError.

Definition get_lm_head {R : Type} (model : CausalLM R) (model_type : string)
  : Result (Linear R) :=
  if bool_decide (model_type = LLAMA_MODEL) then Ok (lm_head model)
  else if bool_decide (model_type = MISTRAL_MODEL) then Ok (lm_head model)
  else if bool_decide (model_type = QW_MODEL) then Ok (lm_head model)
  else Raise ValueError.

Definition get_embeddings {R : Type} (model : CausalLM R) (model_type : string)
  : Result (list (Tensor R)) :=
  if bool_decide (model_type = LLAMA_MODEL) then Ok [embed_tokens (Transformers.model model)]
  else if bool_decide (model_type = MISTRAL_MODEL) then Ok [embed_tokens (Transformers.model model)]
  else if bool_decide (model_type = QW_MODEL) then Ok [embed_tokens (Transformers.model model)]
  else Raise ValueError.

(** [get_layers] tests the class of the model itself. *)
Definition get_layers {R : Type} (model : CausalLM R) : Result (list (DecoderLayer R)) :=
  if isinstance model LLAMA_MODEL then Ok (layers (Transformers.model model))
  else if isinstance model MISTRAL_MODEL then Ok (layers (Transformers.model model))
  else if isinstance model QW_MODEL then Ok (layers (Transformers.model model))
  else Raise NotImplementedError.

(** ** [get_layer_io_save_path] *)

(** [str.startswith] and [str.endswith] for a one-character separator. *)
Definition startswith_sep (s : string) : bool :=
  match s with
  | String c _ => bool_decide (c = "/"%char)
  | EmptyString => false
  end.

Fixpoint endswith_sep (s : string) : bool :=
  match s with
  | EmptyString => false
  | String c EmptyString => bool_decide (c = "/"%char)
  | String _ rest => endswith_sep rest
  end.

(** [posixpath.join(a, *p)]: the loop body, then the loop. *)
Definition join_step (path b : string) : string :=
  if startswith_sep b then b
  else if bool_decide (path = ""%string) || endswith_sep path then path +:+ b
  else path +:+ "/" +:+ b.

Definition os_path_join (a : string) (p : list string) : string :=
  foldl join_step a p.

(** [str(n)] for a natural number. *)
Definition str_of_N (n : N) : string :=
  NilEmpty.string_of_uint (N.to_uint n).

Fixpoint zero_fill (k : nat) : string :=
  match k with
  | O => ""%string
  | S k' => String "0"%char (zero_fill k')
  end.

(** [f'{n:03d}']: sign-aware zero padding to a minimum width of three. *)
Definition format_03d (n : Z) : string :=
  let sign := if (n <? 0)%Z then "-"%string else ""%string in
  let digits := str_of_N (Z.abs_N n) in
  sign +:+ zero_fill (3 - String.length sign - String.length digits) +:+ digits.

Record Args := { save_path : string; layer_idx : Z }.

Definition get_layer_io_save_path (args : Args) : string :=
  os_path_join (save_path args)
    ["layer_io"%string; format_03d (layer_idx args) +:+ ".pt"].

(** The directory prefix [os.path.join] builds from its first argument. *)
Definition dir_prefix (p : string) : string :=
  if bool_decide (p = ""%string) || endswith_sep p then p else p +:+ "/".

(** The character of a decimal digit. *)
Definition digit (d : Z) : ascii := ascii_of_nat (48 + Z.to_nat d).

Definition three_digits (n : Z) : string :=
  String (digit (n / 100)) (String (digit (n / 10 mod 10))
    (String (digit (n mod 10)) EmptyString)).

(** The integer a formatted index reads back as: an optional minus sign,
    then decimal digits. *)
Definition read_index (s : string) : option Z :=
  match s with
  | String "-" rest =>
      d ← NilEmpty.uint_of_string rest; Some (- Z.of_N (N.of_uint d))%Z
  | _ => d ← NilEmpty.uint_of_string s; Some (Z.of_N (N.of_uint d))
  end.

(** ** [replace_modules] *)

(** A module hierarchy: a module has the classes it is an instance of, a
    tag telling apart module objects that are otherwise alike, and the
    entries of its [_modules] dictionary that hold a module, by attribute
    name and in registration order (an entry holding [None] is no module
    and [named_children()] passes over it).  A module object registered
    under several names of one module appears as equal subtrees under
    these names: two entries of one module are one object exactly when
    they are equal.  Apart from that the hierarchy is a tree: a module
    object has one parent. *)
Inductive ModuleTree : Type :=
  MNode (node_mro : list string) (node_tag : nat)
        (node_children : list (string * ModuleTree)).

#[global] Instance ModuleTree_eq_dec : EqDecision ModuleTree.
Proof.
  refine (fix go (a b : ModuleTree) {struct a} : Decision (a = b) :=
    match a, b with
    | MNode c1 t1 cs1, MNode c2 t2 cs2 =>
        cast_if_and3 (decide (c1 = c2)) (decide (t1 = t2))
          ((fix go_list (l k : list (string * ModuleTree)) {struct l} : Decision (l = k) :=
              match l, k with
              | [], [] => left _
              | (n1, m1) :: l', (n2, m2) :: k' =>
                  cast_if_and3 (decide (n1 = n2)) (go m1 m2) (go_list l' k')
              | _, _ => right _
              end) cs1 cs2)
    end); clear go; try clear go_list; congruence.
Defined.

#[global] Instance ModuleTree_mro : HasMro ModuleTree :=
  fun m => match m with MNode c _ _ => c end.

Definition children (m : ModuleTree) : list (string * ModuleTree) :=
  match m with MNode _ _ cs => cs end.

(** The built-in [int(name)]: [None] stands for its [ValueError]. *)
Class Builtins := { py_int : string -> option Z }.

(** One call of the factory: the module it was given and, when it was
    called with two arguments, the index.  The list of calls is kept
    beside the hierarchy to state how often the factory runs. *)
Record FactoryCall : Type := mkCall {
  call_module : ModuleTree;
  call_index : option Z
}.

(** The memo of [named_children()]: the module objects the generator has
    yielded, each with the state the loop body left it in.
    [memo_get memo m] is that state when [m] was yielded before. *)
Fixpoint memo_get (memo : list (ModuleTree * ModuleTree)) (m : ModuleTree)
  : option ModuleTree :=
  match memo with
  | [] => None
  | (k, v) :: memo' => if decide (k = m) then Some v else memo_get memo' m
  end.

Section Replace.
Context `{Builtins}.

(** The factory is a function of the module, and of the index when it is
    given one; the module it returns is taken as a value, new or built
    from the module it was given. *)
Variable type_to_replace : string.
Variable new_module_factory : ModuleTree -> option Z -> ModuleTree.
Variable replace_layers : bool.

(** The loop over [root.named_children()].  The generator yields every
    module object once: an entry whose object was yielded under an
    earlier name is passed over, and shows the object as the earlier
    visit left it (the recursive call works on the object in place).  For
    a yielded child the loop stores the replacement under the child's own
    name; the replaced object itself is not changed, so a later name of
    it still shows it. *)
Fixpoint replace_modules (root : ModuleTree) (calls : list FactoryCall)
  : Result (ModuleTree * list FactoryCall) :=
  match root with
  | MNode c tag named_children =>
      r ← (fix loop (cs : list (string * ModuleTree))
               (memo : list (ModuleTree * ModuleTree)) (calls : list FactoryCall)
             : Result (list (string * ModuleTree) * list FactoryCall) :=
             match cs with
             | [] => Ok ([], calls)
             | (name, module) :: rest =>
                 match memo_get memo module with
                 | Some module' =>
                     r2 ← loop rest memo calls;
                     Ok ((name, module') :: r2.1, r2.2)
                 | None =>
                     r1 ← (if isinstance module type_to_replace then
                             if replace_layers then
                               match py_int name with
                               | Some i =>
                                   Ok (new_module_factory module (Some i), module,
                                       calls ++ [mkCall module (Some i)])
                               | None => Raise ValueError
                               end
                             else
                               Ok (new_module_factory module None, module,
                                   calls ++ [mkCall module None])
                           else if bool_decide (0 < length (children module)) then
                             r ← replace_modules module calls;
                             Ok (r.1, r.1, r.2)
                           else Ok (module, module, calls));
                     r2 ← loop rest ((module, r1.1.2) :: memo) r1.2;
                     Ok ((name, r1.1.1) :: r2.1, r2.2)
                 end
             end) named_children [] calls;
      Ok (MNode c tag r.1, r.2)
  end.

(** The loop of [replace_modules] over the children, by itself. *)
Fixpoint replace_children (cs : list (string * ModuleTree))
    (memo : list (ModuleTree * ModuleTree)) (calls : list FactoryCall)
  : Result (list (string * ModuleTree) * list FactoryCall) :=
  match cs with
  | [] => Ok ([], calls)
  | (name, module) :: rest =>
      match memo_get memo module with
      | Some module' =>
          r2 ← replace_children rest memo calls;
          Ok ((name, module') :: r2.1, r2.2)
      | None =>
          r1 ← (if isinstance module type_to_replace then
                  if replace_layers then
                    match py_int name with
                    | Some i => Ok (new_module_factory module (Some i), module,
                                    calls ++ [mkCall module (Some i)])
                    | None => Raise ValueError
                    end
                  else Ok (new_module_factory module None, module,
                           calls ++ [mkCall module None])
                else if bool_decide (0 < length (children module)) then
                  r ← replace_modules module calls;
                  Ok (r.1, r.1, r.2)
                else Ok (module, module, calls));
          r2 ← replace_children rest ((module, r1.1.2) :: memo) r1.2;
          Ok ((name, r1.1.1) :: r2.1, r2.2)
      end
  end.

(** *** Vocabulary of the replacement properties *)

(** The second argument the factory is called with for a child [name]. *)
Definition index_arg (name : string) : option Z :=
  if replace_layers then py_int name else None.

(** [reached root path m]: [m] sits below [root] along the attribute
    names [path], and no module strictly between [root] and [m] is an
    instance of [type_to_replace]. *)
Inductive reached : ModuleTree -> list string -> ModuleTree -> Prop :=
| reached_child (root : ModuleTree) (name : string) (m : ModuleTree) :
    (name, m) ∈ children root ->
    reached root [name] m
| reached_below (root : ModuleTree) (name : string) (m : ModuleTree)
    (path : list string) (x : ModuleTree) :
    (name, m) ∈ children root ->
    isinstance m type_to_replace = false ->
    reached m path x ->
    reached root (name :: path) x.

(** The matching modules that are not below another matching module,
    with their paths, in depth-first order. *)
Fixpoint matches (root : ModuleTree) : list (list string * ModuleTree) :=
  match root with
  | MNode _ _ cs =>
      flat_map (fun nm : string * ModuleTree =>
                  let '(name, m) := nm in
                  if isinstance m type_to_replace then [([name], m)]
                  else map (fun pm : list string * ModuleTree => (name :: pm.1, pm.2))
                         (matches m))
        cs
  end.

(** The call the factory receives for a match: the module, and the index
    parsed from the attribute name it is registered under. *)
Definition call_of (pm : list string * ModuleTree) : FactoryCall :=
  mkCall pm.2 (last pm.1 ≫= index_arg).

(** The hierarchy with every such match replaced by what the factory
    makes of it. *)
Fixpoint replaced (root : ModuleTree) : ModuleTree :=
  match root with
  | MNode c tag cs =>
      MNode c tag
        (map (fun nm : string * ModuleTree =>
                let '(name, m) := nm in
                (name, if isinstance m type_to_replace
                       then new_module_factory m (index_arg name)
                       else replaced m))
           cs)
  end.

(** [matches] and [replaced] over the children [cs] of a module. *)
Definition matches_children (cs : list (string * ModuleTree))
  : list (list string * ModuleTree) :=
  flat_map (fun nm : string * ModuleTree =>
              let '(name, m) := nm in
              if isinstance m type_to_replace then [([name], m)]
              else map (fun pm : list string * ModuleTree => (name :: pm.1, pm.2))
                     (matches m)) cs.

Definition replaced_children (cs : list (string * ModuleTree))
  : list (string * ModuleTree) :=
  map (fun nm : string * ModuleTree =>
         let '(name, m) := nm in
         (name, if isinstance m type_to_replace
                then new_module_factory m (index_arg name)
                else replaced m)) cs.

(** [getattr(root, name)] among the children, and along a path. *)
Fixpoint child (name : string) (cs : list (string * ModuleTree)) : option ModuleTree :=
  match cs with
  | [] => None
  | (n, m) :: rest => if bool_decide (n = name) then Some m else child name rest
  end.

Fixpoint lookup_path (root : ModuleTree) (path : list string) : option ModuleTree :=
  match path with
  | [] => Some root
  | name :: path' =>
      match child name (children root) with
      | Some m => lookup_path m path'
      | None => None
      end
  end.

(** When layers are replaced, every match is registered under a name
    [int] accepts. *)
Definition names_parse (root : ModuleTree) : Prop :=
  replace_layers = true ->
  forall (path : list string) (m : ModuleTree),
    (path, m) ∈ matches root -> is_Some (last path ≫= py_int).

(** No module object is registered under two names of one module, at
    every level. *)
Inductive unshared : ModuleTree -> Prop :=
| unshared_node (c : list string) (tag : nat) (cs : list (string * ModuleTree)) :
    NoDup cs.*2 ->
    Forall (fun nm => unshared nm.2) cs ->
    unshared (MNode c tag cs).

(** No two children of a module share a name, at every level: the
    children of a module are a dictionary. *)
Inductive unique_names : ModuleTree -> Prop :=
| unique_names_node (c : list string) (tag : nat) (cs : list (string * ModuleTree)) :
    NoDup cs.*1 ->
    Forall (fun nm => unique_names nm.2) cs ->
    unique_names (MNode c tag cs).

End Replace.

(** ** [capture_layer_io] *)

(** The process-wide compute device [misc.DEV]. *)
Class Misc := { DEV : Device }.

Section Capture.
Context {R : Type} `{Scalar R} `{Misc}.

(** One call of a sublayer during a forward pass of the layer: the
    sublayer (by identity), its positional inputs and its output. *)
Record SubCall : Type := mkSubCall {
  sub_module : nat;
  sub_input : list (Tensor R);
  sub_output : Tensor R
}.

(** A transformer layer as [capture_layer_io] sees it: the attributes of
    [layer.self_attn] and [layer.mlp] that are modules, and the sublayer
    calls a forward pass makes. *)
Record HookedLayer : Type := mkHookedLayer {
  hl_self_attn : gmap string nat;
  hl_mlp : gmap string nat;
  hl_forward : Tensor R -> Result (list SubCall)
}.

(** The closure [hook_factory(module_name, captured_vals, is_input)]
    returns; [captured_vals] is one of the two dictionaries. *)
Inductive WhichDict : Type := CapturedInputs | CapturedOutputs.

#[global] Instance WhichDict_eq_dec : EqDecision WhichDict.
Proof. solve_decision. Defined.

Record Hook : Type := mkHook {
  hook_module_name : string;
  hook_captured_vals : WhichDict;
  hook_is_input : bool
}.

(** The two dictionaries while the layer runs. *)
Record Captured : Type := mkCaptured {
  captured_inputs : list (string * list (Tensor R));
  captured_outputs : list (string * list (Tensor R))
}.

(** The returned record. *)
Record LayerIO : Type := mkLayerIO {
  io_input : list (string * Tensor R);
  io_output : list (string * Tensor R)
}.

(** [d[name].append(x)] on an insertion-ordered dictionary. *)
Fixpoint dict_append (name : string) (x : Tensor R)
    (d : list (string * list (Tensor R))) : Result (list (string * list (Tensor R))) :=
  match d with
  | [] => Raise KeyError
  | (k, v) :: d' =>
      if bool_decide (k = name) then Ok ((k, v ++ [x]) :: d')
      else d'' ← dict_append name x d'; Ok ((k, v) :: d'')
  end.

(** The hook body. *)
Definition hook (h : Hook) (call : SubCall) (st : Captured) : Result Captured :=
  x ← (if hook_is_input h then
         match sub_input call with
         | x :: _ => Ok (to_device cpu x)
         | [] => Raise IndexError
         end
       else Ok (to_device cpu (sub_output call)));
  match hook_captured_vals h with
  | CapturedInputs =>
      d ← dict_append (hook_module_name h) x (captured_inputs st);
      Ok (mkCaptured d (captured_outputs st))
  | CapturedOutputs =>
      d ← dict_append (hook_module_name h) x (captured_outputs st);
      Ok (mkCaptured (captured_inputs st) d)
  end.

(** The forward hooks of the called sublayer run in registration order. *)
Definition run_hooks (handles : list (nat * Hook)) (call : SubCall) (st : Captured)
  : Result Captured :=
  for_each (fun h st => if bool_decide (h.1 = sub_module call) then hook h.2 call st else Ok st)
    handles st.

(** [layer(seq)] with the hooks in place. *)
Definition run_layer (layer : HookedLayer) (handles : list (nat * Hook))
    (seq : Tensor R) (st : Captured) : Result Captured :=
  calls ← hl_forward layer seq;
  for_each (run_hooks handles) calls st.

(** [getattr(layer.self_attn, name, None) or getattr(layer.mlp, name, None)],
    then [.register_forward_hook]. *)
Definition find_module (layer : HookedLayer) (name : string) : Result nat :=
  match hl_self_attn layer !! name with
  | Some m => Ok m
  | None =>
      match hl_mlp layer !! name with
      | Some m => Ok m
      | None => Raise AttributeError
      end
  end.

Definition register_hooks (layer : HookedLayer) (which : WhichDict) (is_input : bool)
    (names : list string) (handles : list (nat * Hook)) : Result (list (nat * Hook)) :=
  for_each (fun name handles =>
              module ← find_module layer name;
              Ok (handles ++ [(module, mkHook name which is_input)]))
    names handles.

(** [for name in d: d[name] = torch.cat(d[name], dim=0)] *)
Fixpoint cat_all (d : list (string * list (Tensor R))) : Result (list (string * Tensor R)) :=
  match d with
  | [] => Ok []
  | (k, v) :: d' => t ← cat0 v; d'' ← cat_all d'; Ok ((k, t) :: d'')
  end.

(** [capture_layer_io]: the handles are only removed at the end, so the
    model drops them once the layer has run. *)
Definition capture_layer_io (model_type : string) (layer : HookedLayer)
    (layer_input : Tensor R) : Result LayerIO :=
  if bool_decide (model_type = LLAMA_MODEL) then
    let captured_inputs0 : list (string * list (Tensor R)) :=
      [("k_proj"%string, []); ("o_proj"%string, []);
       ("gate_proj"%string, []); ("down_proj"%string, [])] in
    let captured_outputs0 : list (string * list (Tensor R)) :=
      [("v_proj"%string, [])] in
    handles ← register_hooks layer CapturedInputs true (captured_inputs0.*1) [];
    handles ← register_hooks layer CapturedOutputs false (captured_outputs0.*1) handles;
    n ← first_dim layer_input;
    st ← for_each (fun seq_idx st =>
                     seq ← slice0 seq_idx layer_input;
                     run_layer layer handles (to_device DEV seq) st)
           (seq 0 n) (mkCaptured captured_inputs0 captured_outputs0);
    ins ← cat_all (captured_inputs st);
    outs ← cat_all (captured_outputs st);
    Ok (mkLayerIO ins outs)
  else Raise ValueError.

(** *** Vocabulary of the capture properties *)

(** The names whose input is captured, the name whose output is, and
    whether a hooked name is captured on the input side. *)
Definition input_names : list string :=
  ["k_proj"%string; "o_proj"%string; "gate_proj"%string; "down_proj"%string].
Definition output_names : list string := ["v_proj"%string].
Definition captures_input (name : string) : bool :=
  bool_decide (name ∈ input_names).

(** The sublayer a hooked name resolves to. *)
Definition module_of (layer : HookedLayer) (name : string) : nat :=
  match find_module layer name with
  | Ok m => m
  | Raise _ => 0
  end.

(** What a hook captures from a call: the first positional input, or the
    output, moved to the CPU. *)
Definition captured_value (is_input : bool) (call : SubCall) : option (Tensor R) :=
  if is_input then to_device cpu <$> head (sub_input call)
  else Some (to_device cpu (sub_output call)).

(** Among [calls] exactly one is a call of sublayer [mid], and what is
    captured from it has one row of shape [tl]. *)
Definition called_once (mid : nat) (is_input : bool) (tl : list nat)
    (calls : list (SubCall)) : Prop :=
  exists (call : SubCall) (x : Tensor R),
    filter (fun c => sub_module c = mid) calls = [call]
    /\ captured_value is_input call = Some x
    /\ shape x = 1 :: tl.

(** [d.get(name)] on an insertion-ordered dictionary. *)
Fixpoint dict_get {V : Type} (name : string) (d : list (string * V)) : option V :=
  match d with
  | [] => None
  | (k, v) :: d' => if bool_decide (k = name) then Some v else dict_get name d'
  end.

(** The dictionary a hook writes to, and its entry for a name. *)
Definition which_dict (w : WhichDict) (st : Captured) : list (string * list (Tensor R)) :=
  match w with
  | CapturedInputs => captured_inputs st
  | CapturedOutputs => captured_outputs st
  end.

(** What the hooks in [handles] add under [(w, name)] during a call. *)
Definition adds (handles : list (nat * Hook)) (call : SubCall)
    (w : WhichDict) (name : string) : list (Tensor R) :=
  flat_map (fun h : nat * Hook =>
              if bool_decide (h.1 = sub_module call /\ hook_captured_vals h.2 = w
                              /\ hook_module_name h.2 = name)
              then option_list (captured_value (hook_is_input h.2) call)
              else [])
    handles.

(** The five hooked names, and the handle registered for each. *)
Definition hooked_names : list string := input_names ++ output_names.

Definition handle_of (layer : HookedLayer) (name : string) : nat * Hook :=
  (module_of layer name,
   mkHook name (if captures_input name then CapturedInputs else CapturedOutputs)
     (captures_input name)).

(** The state after a step has the same keys and, under every key, the
    old list followed by [more]. *)
Definition extends (more : WhichDict -> string -> list (Tensor R))
    (st st' : Captured) : Prop :=
  (forall w, (which_dict w st').*1 = (which_dict w st).*1)
  /\ forall w name L, dict_get name (which_dict w st) = Some L ->
                      dict_get name (which_dict w st') = Some (L ++ more w name).

(** The key a hook writes under. *)
Definition hook_key (h : nat * Hook) : WhichDict * string :=
  (hook_captured_vals h.2, hook_module_name h.2).

Definition keys_present (handles : list (nat * Hook)) (st : Captured) : Prop :=
  forall h, h ∈ handles ->
    is_Some (dict_get (hook_module_name h.2) (which_dict (hook_captured_vals h.2) st)).

(** The state of the dictionaries after [i] sequences: the keys are the
    hooked names and every list holds [i] tensors of one row. *)
Definition captured_rows (tails : string -> list nat) (i : nat) (st : Captured) : Prop :=
  (captured_inputs st).*1 = input_names
  /\ (captured_outputs st).*1 = output_names
  /\ forall name, name ∈ hooked_names ->
       exists L,
         dict_get name (which_dict (if captures_input name then CapturedInputs
                                    else CapturedOutputs) st) = Some L
         /\ length L = i
         /\ Forall (fun x => shape x = 1 :: tails name /\ device x = cpu) L.

(** Among [calls] exactly one is a call of sublayer [mid], and [x] is
    what a hook captures from it. *)
Definition captures (mid : nat) (is_input : bool) (calls : list SubCall)
    (x : Tensor R) : Prop :=
  exists call : SubCall,
    filter (fun c => sub_module c = mid) calls = [call]
    /\ captured_value is_input call = Some x.

(** The dictionary of the returned record a hooked name is stored in. *)
Definition io_dict (io : LayerIO) (name : string) : list (string * Tensor R) :=
  if captures_input name then io_input io else io_output io.

(** The state of the dictionaries after [i] sequences, when [cap j name]
    is what is captured under [name] from sequence [j]. *)
Definition captured_upto (cap : nat -> string -> Tensor R) (i : nat) (st : Captured)
  : Prop :=
  (captured_inputs st).*1 = input_names
  /\ (captured_outputs st).*1 = output_names
  /\ forall name, name ∈ hooked_names ->
       dict_get name (which_dict (if captures_input name then CapturedInputs
                                  else CapturedOutputs) st)
       = Some (map (fun j => cap j name) (seq 0 i)).

End Capture.

Arguments SubCall R : clear implicits.
Arguments HookedLayer R : clear implicits.
Arguments Captured R : clear implicits.
Arguments LayerIO R : clear implicits.

(** ** Loading a model *)

(** [str.lower()], on the ASCII letters. *)
Definition lower_char (c : ascii) : ascii :=
  let n := nat_of_ascii c in
  if (65 <=? n) && (n <=? 90) then ascii_of_nat (n + 32) else c.

Fixpoint lower (s : string) : string :=
  match s with
  | EmptyString => EmptyString
  | String c rest => String (lower_char c) (lower rest)
  end.

(** [pat in s] for two strings. *)
Fixpoint contains (pat s : string) : bool :=
  match s with
  | EmptyString => String.prefix pat EmptyString
  | String _ rest => String.prefix pat s || contains pat rest
  end.

(** A function of [torch.nn.init], or [skip] in its place. *)
Inductive Initializer : Type := TorchInitializer | Skip.

(** The three names of [torch.nn.init] the loaders assign to. *)
Record TorchInit : Type := mkTorchInit {
  kaiming_uniform_ : Initializer;
  uniform_ : Initializer;
  normal_ : Initializer
}.

(** A loaded model: the model, [model.config.tie_word_embeddings] and the
    attribute [seqlen] when it is set. *)
Record Pretrained (R : Type) : Type := mkPretrained {
  pt_model : CausalLM R;
  pt_tie_word_embeddings : bool;
  pt_seqlen : option Z
}.

Arguments mkPretrained {R} _ _ _.
Arguments pt_model {R} _.
Arguments pt_tie_word_embeddings {R} _.
Arguments pt_seqlen {R} _.

(** [cls.from_pretrained(model_name, torch_dtype=..., use_auth_token=...,
    low_cpu_mem_usage=True)] of the transformers library, given the state
    of [torch.nn.init] it runs in. *)
Class Hub (R : Type) := {
  from_pretrained : string -> string -> DType -> option string -> TorchInit
                    -> Result (Pretrained R)
}.

Section Loading.
Context {R : Type} `{Hub R}.

(** The three assignments every loader starts with. *)
Definition skip_init : TorchInit := mkTorchInit Skip Skip Skip.

Definition get_llama (model_name : string) (hf_token : option string) (init : TorchInit)
  : Result (Pretrained R) * TorchInit :=
  let init := skip_init in
  (model ← from_pretrained LLAMA_MODEL model_name float16 hf_token init;
   Ok (mkPretrained (pt_model model) (pt_tie_word_embeddings model) (Some 2048%Z)),
   init).

Definition get_mistral (model_name : string) (hf_token : option string) (init : TorchInit)
  : Result (Pretrained R) * TorchInit :=
  let init := skip_init in
  (model ← from_pretrained MISTRAL_MODEL model_name float16 hf_token init;
   Ok (mkPretrained (pt_model model) (pt_tie_word_embeddings model) (Some 2048%Z)),
   init).

(** When the configuration ties the word embeddings, [get_qwen] gives
    the head a [Parameter] of its own that holds a copy of the embedding:
    the two are no longer tied. *)
Definition get_qwen (model_name : string) (hf_token : option string) (init : TorchInit)
  : Result (Pretrained R) * TorchInit :=
  let init := skip_init in
  (model ← from_pretrained QW_MODEL model_name float16 hf_token init;
   let lm := pt_model model in
   let lm :=
     if pt_tie_word_embeddings model then
       mkCausalLM (lm_mro lm) (Transformers.model lm)
         (mkLinear (embed_tokens (Transformers.model lm)) (bias (lm_head lm))
            (out_features (lm_head lm)))
         false
     else lm in
   Ok (mkPretrained lm (pt_tie_word_embeddings model) (Some 2048%Z)),
   init).

Definition get_model (model_name : string) (hf_token : option string) (init : TorchInit)
  : Result (Pretrained R) * TorchInit :=
  if contains "llama" (lower model_name) then get_llama model_name hf_token init
  else if contains "mistral" (lower model_name) then get_mistral model_name hf_token init
  else if contains "qwen" (lower model_name) then get_qwen model_name hf_token init
  else (Raise ValueError, init).

(** [pat] occurs in [s]. *)
Definition occurs (pat s : string) : Prop :=
  exists pre post : string, s = pre +:+ pat +:+ post.

End Loading.

End ModelUtils.

(* ================================================================== *)
(** * utils/rotation_utils.py *)
(* ================================================================== *)

Module RotationUtils.

Import ModelUtils.

(** ** Layer-norm fusion *)

Section Fusion.
Context {R : Type} `{Scalar R}.

(** The body of the loop of [fuse_ln_linear] for one linear layer. *)
Definition fuse_ln_linear_step (layernorm : Norm R) (linear : Linear R)
  : Result (Linear R) :=
  let linear_dtype := dtype (weight linear) in
  let W_ := double (weight linear) in
  W' ← mul_bcast W_ (double (norm_weight layernorm));
  let linear := mkLinear (to_dtype linear_dtype W') (bias linear) (out_features linear) in
  match norm_bias layernorm with
  | Some ln_bias =>
      let b := match bias linear with
               | None => zeros (out_features linear) float64
               | Some b => b
               end in
      Wb ← matvec W_ (double ln_bias);
      b' ← add_vec (double b) Wb;
      Ok (mkLinear (weight linear) (Some (to_dtype linear_dtype b')) (out_features linear))
  | None => Ok linear
  end.

(** The linear layers are updated in place; the model returns them in the
    order they were given. *)
Definition fuse_ln_linear (layernorm : Norm R) (linear_layers : list (Linear R))
  : Result (list (Linear R)) :=
  map_result (fuse_ln_linear_step layernorm) linear_layers.

(** [norm.weight.data = torch.ones_like(norm.weight.data)] *)
Definition reset_scale (n : Norm R) : Norm R :=
  mkNorm (ones_like (norm_weight n)) (norm_bias n).

(** The body of the loop over the layers. *)
Definition fuse_layer (model_type : string) (layer : DecoderLayer R)
  : Result (DecoderLayer R) :=
  if bool_decide (model_type = LLAMA_MODEL) || bool_decide (model_type = MISTRAL_MODEL)
     || bool_decide (model_type = QW_MODEL)
  then
    mlp_in ← fuse_ln_linear (post_attention_layernorm layer)
               [up_proj (mlp layer); gate_proj (mlp layer)];
    attn_in ← fuse_ln_linear (input_layernorm layer)
                [q_proj (self_attn layer); k_proj (self_attn layer); v_proj (self_attn layer)];
    match mlp_in, attn_in with
    | [up; gate], [q; k; v] =>
        Ok (mkDecoderLayer
              (mkAttention q k v (o_proj (self_attn layer)))
              (mkMLP gate up (down_proj (mlp layer)))
              (reset_scale (input_layernorm layer))
              (reset_scale (post_attention_layernorm layer)))
    | _, _ => Raise RuntimeError
    end
  else Raise ValueError.

(** The head is the last layer fused: with tied embeddings the weight
    assigned to it is the weight of the embedding as well. *)
Definition fuse_layer_norms (model : CausalLM R) : Result (CausalLM R) :=
  model_type ← get_model_type model;
  layers ← get_transformer_layers model model_type;
  layers' ← map_result (fuse_layer model_type) layers;
  head ← fuse_ln_linear (norm (Transformers.model model)) [lm_head model];
  match head with
  | [lm_head'] =>
      Ok (mkCausalLM (lm_mro model)
            (mkDecoder
               (if tied_embeddings model then weight lm_head'
                else embed_tokens (Transformers.model model))
               layers'
               (reset_scale (norm (Transformers.model model))))
            lm_head'
            (tied_embeddings model))
  | _ => Raise RuntimeError
  end.

(** *** Vocabulary of the fusion properties *)

(** The scale of [ln] has been folded into [lin], giving [lin']: the new
    weight is the product of the old weight and the scale, entry by entry
    along the input dimension, computed in double precision and converted
    back to the dtype of the old weight. *)
Definition scale_folded (ln : Norm R) (lin lin' : Linear R) : Prop :=
  exists W' : Tensor R,
    mul_bcast (double (weight lin)) (double (norm_weight ln)) = Ok W'
    /\ weight lin' = to_dtype (dtype (weight lin)) W'.

(** A scale vector of ones, of the shape, dtype and device of [old]. *)
Definition all_ones_like (old t : Tensor R) : Prop :=
  shape t = shape old /\ dtype t = dtype old /\ device t = device old
  /\ wf t /\ Forall (fun e => e = s_one) (data t).

(** What [fuse_layer_norms] does to one layer: the post-attention scale
    is folded into [up_proj] and [gate_proj], the pre-attention scale into
    [q_proj], [k_proj] and [v_proj], and both scales are ones afterwards. *)
Definition layer_fused (layer layer' : DecoderLayer R) : Prop :=
  scale_folded (post_attention_layernorm layer) (up_proj (mlp layer)) (up_proj (mlp layer'))
  /\ scale_folded (post_attention_layernorm layer) (gate_proj (mlp layer)) (gate_proj (mlp layer'))
  /\ scale_folded (input_layernorm layer) (q_proj (self_attn layer)) (q_proj (self_attn layer'))
  /\ scale_folded (input_layernorm layer) (k_proj (self_attn layer)) (k_proj (self_attn layer'))
  /\ scale_folded (input_layernorm layer) (v_proj (self_attn layer)) (v_proj (self_attn layer'))
  /\ all_ones_like (norm_weight (post_attention_layernorm layer))
       (norm_weight (post_attention_layernorm layer'))
  /\ all_ones_like (norm_weight (input_layernorm layer))
       (norm_weight (input_layernorm layer')).

(** A bias-free norm whose scale has the width of the weight of [lin],
    on the same device. *)
Definition fusable (ln : Norm R) (lin : Linear R) : Prop :=
  norm_bias ln = None
  /\ device (norm_weight ln) = device (weight lin)
  /\ exists o i, shape (weight lin) = [o; i] /\ shape (norm_weight ln) = [i].

Definition layer_fusable (layer : DecoderLayer R) : Prop :=
  fusable (post_attention_layernorm layer) (up_proj (mlp layer))
  /\ fusable (post_attention_layernorm layer) (gate_proj (mlp layer))
  /\ fusable (input_layernorm layer) (q_proj (self_attn layer))
  /\ fusable (input_layernorm layer) (k_proj (self_attn layer))
  /\ fusable (input_layernorm layer) (v_proj (self_attn layer)).

(** The scale of [ln] is absorbed by [lin']: on an input that was not
    scaled, [lin'] computes what [lin] computes on the scaled input. *)
Definition scale_absorbed (ln : Norm R) (lin lin' : Linear R) : Prop :=
  forall x xs y : Tensor R,
    wf x -> last_dim x = last_dim (norm_weight ln) ->
    mul_bcast x (norm_weight ln) = Ok xs ->
    linear xs (weight lin) = Ok y ->
    linear x (weight lin') = Ok y.

(** The weights and scales [fuse_layer_norms] reads in a layer fill their
    shapes. *)
Definition layer_wf (layer : DecoderLayer R) : Prop :=
  wf (weight (up_proj (mlp layer))) /\ wf (weight (gate_proj (mlp layer)))
  /\ wf (weight (q_proj (self_attn layer))) /\ wf (weight (k_proj (self_attn layer)))
  /\ wf (weight (v_proj (self_attn layer)))
  /\ wf (norm_weight (post_attention_layernorm layer))
  /\ wf (norm_weight (input_layernorm layer)).

(** Every scale of a layer is absorbed by the projections it feeds. *)
Definition layer_absorbed (layer layer' : DecoderLayer R) : Prop :=
  scale_absorbed (post_attention_layernorm layer) (up_proj (mlp layer)) (up_proj (mlp layer'))
  /\ scale_absorbed (post_attention_layernorm layer) (gate_proj (mlp layer))
       (gate_proj (mlp layer'))
  /\ scale_absorbed (input_layernorm layer) (q_proj (self_attn layer))
       (q_proj (self_attn layer'))
  /\ scale_absorbed (input_layernorm layer) (k_proj (self_attn layer))
       (k_proj (self_attn layer'))
  /\ scale_absorbed (input_layernorm layer) (v_proj (self_attn layer))
       (v_proj (self_attn layer')).

End Fusion.

(** ** The query/key rotation and quantization wrapper *)

(** Modelled from the spec: [is_pow2] of [utils/hadamard_utils.py], the
    power-of-two check the wrapper asserts on [head_dim]. *)
Definition is_pow2 (n : Z) : bool :=
  (0 <? n)%Z && (Z.land n (n - 1) =? 0)%Z.

(** [model.config], as far as the wrapper reads it. *)
Record Config : Type := mkConfig {
  num_attention_heads : Z;
  hidden_size : Z
}.

Section Quantizer.
Context {R : Type}.

(** The keyword arguments of the wrapper; a missing key is [None]. *)
Record Kwargs : Type := mkKwargs {
  kw_disable_qk_rotation : option bool;
  kw_k_groupsize : option Z;
  kw_k_bits : option Z;
  kw_k_sym : option bool;
  kw_k_clip_ratio : option R
}.

(** [kwargs[key]] *)
Definition kwarg {A : Type} (v : option A) : Result A :=
  match v with
  | Some a => Ok a
  | None => Raise KeyError
  end.

(** Modelled from the spec: the configuration [ActQuantizer.configure]
    of [utils/quant_utils.py] stores: bit width, group size, symmetric
    flag and clip ratio. *)
Record QuantConfig : Type := mkQuantConfig {
  q_bits : Z;
  q_groupsize : Z;
  q_sym : bool;
  q_clip_ratio : R
}.

(** What was asked of a quantizer, in order. *)
Inductive QuantEvent : Type :=
| EvFindParams (x : Tensor R)
| EvQuantize (x : Tensor R)
| EvFree.

(** Modelled from the spec: the state of an [ActQuantizer] of
    [utils/quant_utils.py]: its configuration, the calibration parameters
    of the current call if any, and the requests it has served. *)
Record ActQuantizer (P : Type) : Type := mkActQuantizer {
  aq_config : option QuantConfig;
  aq_params : option P;
  aq_log : list QuantEvent
}.

Arguments mkActQuantizer {P} aq_config aq_params aq_log.
Arguments aq_config {P} a.
Arguments aq_params {P} a.
Arguments aq_log {P} a.

(** The numeric kernels of the quantizer: calibration of scale and zero
    point, and quantization with them.  Both are outside the repository's
    two files and may raise. *)
Class QuantKernels (P : Type) := {
  find_params_kernel : option QuantConfig -> Tensor R -> Result P;
  quantize_kernel : option QuantConfig -> option P -> Tensor R -> Result (Tensor R)
}.

Context {P : Type} `{QuantKernels P}.

(** Modelled from the spec: [ActQuantizer()], [configure], [find_params],
    the call that quantizes, and [free], which discards the calibration
    state. *)
Definition ActQuantizer_new : ActQuantizer P :=
  mkActQuantizer None None [].

Definition configure (a : ActQuantizer P) (bits groupsize : Z) (sym : bool)
    (clip_ratio : R) : ActQuantizer P :=
  mkActQuantizer (Some (mkQuantConfig bits groupsize sym clip_ratio))
    (aq_params a) (aq_log a).

Definition find_params (a : ActQuantizer P) (x : Tensor R) : Result (ActQuantizer P) :=
  p ← find_params_kernel (aq_config a) x;
  Ok (mkActQuantizer (aq_config a) (Some p) (aq_log a ++ [EvFindParams x])).

Definition quantize (a : ActQuantizer P) (x : Tensor R)
  : Result (Tensor R * ActQuantizer P) :=
  y ← quantize_kernel (aq_config a) (aq_params a) x;
  Ok (y, mkActQuantizer (aq_config a) (aq_params a) (aq_log a ++ [EvQuantize x])).

Definition free (a : ActQuantizer P) : ActQuantizer P :=
  mkActQuantizer (aq_config a) None (aq_log a ++ [EvFree]).

End Quantizer.

Arguments mkKwargs {R} _ _ _ _ _.
Arguments mkQuantConfig {R} _ _ _ _.
Arguments EvFindParams {R} x.
Arguments EvQuantize {R} x.
Arguments EvFree {R}.
Arguments mkActQuantizer {R P} aq_config aq_params aq_log.
Arguments aq_config {R P} a.
Arguments aq_params {R P} a.
Arguments aq_log {R P} a.
Arguments Kwargs R : clear implicits.
Arguments QuantConfig R : clear implicits.
Arguments QuantEvent R : clear implicits.
Arguments ActQuantizer R P : clear implicits.
Arguments QuantKernels R P : clear implicits.

(** The accelerated Hadamard kernel: [hadamard_transform x n] stands for
    [hadamard_transform(x, scale=1 / math.sqrt(n))]; the name is [None]
    when the import at the top of the file failed. *)
Class HadamardKernel (R : Type) := {
  hadamard_transform : option (Tensor R -> nat -> Result (Tensor R))
}.

Section Wrapper.
Context {R P A : Type} `{Scalar R} `{QuantKernels R P} `{HadamardKernel R}.

(** A [QKRotationWrapper] instance.  [A] is the type of the arguments of
    the wrapped function. *)
Record QKRotationWrapper : Type := mkQKRotationWrapper {
  w_config : Config;
  w_head_dim : Z;
  w_func : A -> Result (Tensor R * Tensor R);
  w_k_quantizer : ActQuantizer R P;
  w_k_bits : Z;
  w_disable_qk_rotation : bool;
  w_k_groupsize : Z;
  w_k_sym : bool;
  w_k_clip_ratio : R
}.

(** [model_dim // num_heads] *)
Definition floordiv (a b : Z) : Result Z :=
  if bool_decide (b = 0%Z) then Raise ZeroDivisionError else Ok (a / b)%Z.

(** [QKRotationWrapper.__init__(self, func, config, **kwargs)] *)
Definition QKRotationWrapper_init (func : A -> Result (Tensor R * Tensor R))
    (config : Config) (kwargs : Kwargs R) : Result QKRotationWrapper :=
  let num_heads := num_attention_heads config in
  let model_dim := hidden_size config in
  head_dim ← floordiv model_dim num_heads;
  _ ← py_assert (is_pow2 head_dim);
  let k_quantizer : ActQuantizer R P := ActQuantizer_new in
  disable_qk_rotation ← kwarg (kw_disable_qk_rotation kwargs);
  groupsize ← kwarg (kw_k_groupsize kwargs);
  _ ← py_assert (bool_decide (groupsize ∈ [(-1)%Z; head_dim]));
  k_bits ← kwarg (kw_k_bits kwargs);
  k_groupsize ← kwarg (kw_k_groupsize kwargs);
  k_sym ← kwarg (kw_k_sym kwargs);
  k_clip_ratio ← kwarg (kw_k_clip_ratio kwargs);
  let k_quantizer := configure k_quantizer k_bits (-1) k_sym k_clip_ratio in
  Ok (mkQKRotationWrapper config head_dim func k_quantizer k_bits
        disable_qk_rotation k_groupsize k_sym k_clip_ratio).

(** [hadamard_transform(x.float(), scale=1 / math.sqrt(x.shape[-1])).to(dtype)] *)
Definition rotate (dt : DType) (x : Tensor R) : Result (Tensor R) :=
  n ← last_dim x;
  _ ← (if bool_decide (n = 0) then Raise ZeroDivisionError else Ok tt);
  match hadamard_transform with
  | Some had => y ← had (float x) n; Ok (to_dtype dt y)
  | None => Raise TypeError
  end.

(** [(bsz, num_heads, seq_len, head_dim) = k.shape] *)
Definition unpack4 (s : list nat) : Result (nat * nat * nat * nat) :=
  match s with
  | [a; b; c; d] => Ok (a, b, c, d)
  | _ => Raise ValueError
  end.

(** [t.reshape(-1, n)] for a Python integer [n]. *)
Definition reshape_rows_int (n : Z) (t : Tensor R) : Result (Tensor R) :=
  if bool_decide (0 < n)%Z then reshape_rows (Z.to_nat n) t else Raise RuntimeError.

(** [self.k_quantizer.find_params(x)] followed by [self.k_quantizer(x)]:
    the quantized tensor, or the exception, and the quantizer after. *)
Definition find_params_then_quantize (qz : ActQuantizer R P) (x : Tensor R)
  : Result (Tensor R) * ActQuantizer R P :=
  match find_params qz x with
  | Raise e => (Raise e, qz)
  | Ok qz1 =>
      match quantize qz1 x with
      | Raise e => (Raise e, qz1)
      | Ok (y, qz2) => (Ok y, qz2)
      end
  end.

(** The statements of [forward] under [if self.k_bits < 16], for the key
    [k] and the (rotated) query [q]: the new key, or the exception, and
    the quantizer after. *)
Definition quantize_key (self : QKRotationWrapper) (q k : Tensor R)
    (dims : nat * nat * nat * nat) : Result (Tensor R) * ActQuantizer R P :=
  let '(bsz, num_heads, seq_len, head_dim) := dims in
  let qz := w_k_quantizer self in
  if bool_decide (w_k_bits self < 16)%Z then
    if bool_decide (w_k_groupsize self = (-1)%Z) then
      match (kt ← transpose12 k; reshape_rows_int (hidden_size (w_config self)) kt) with
      | Raise e => (Raise e, qz)
      | Ok token_wise_k =>
          let '(r, qz') := find_params_then_quantize qz token_wise_k in
          (y ← r;
           k1 ← reshape [bsz; seq_len; num_heads; head_dim] y;
           k2 ← transpose12 k1;
           Ok (to_like q k2), qz')
      end
    else
      match reshape_rows head_dim k with
      | Raise e => (Raise e, qz)
      | Ok per_head_k =>
          let '(r, qz') := find_params_then_quantize qz per_head_k in
          (y ← r;
           k1 ← reshape [bsz; num_heads; seq_len; head_dim] y;
           Ok (to_like q k1), qz')
      end
  else (Ok k, qz).

(** [self.k_quantizer = qz] *)
Definition with_quantizer (self : QKRotationWrapper) (qz : ActQuantizer R P)
  : QKRotationWrapper :=
  mkQKRotationWrapper (w_config self) (w_head_dim self) (w_func self) qz
    (w_k_bits self) (w_disable_qk_rotation self) (w_k_groupsize self)
    (w_k_sym self) (w_k_clip_ratio self).

(** The statements of [forward] before the quantizer is touched: the
    query and key after the optional rotation, and the unpacked shape of
    the key. *)
Definition rotate_qk (self : QKRotationWrapper) (args : A)
  : Result (Tensor R * Tensor R * (nat * nat * nat * nat)) :=
  qk ← w_func self args;
  let '(q, k) := qk in
  n ← last_dim q;
  _ ← py_assert (bool_decide (w_head_dim self = Z.of_nat n));
  let dt := dtype q in
  qk ← (if w_disable_qk_rotation self then Ok (q, k)
        else q' ← rotate dt q; k' ← rotate dt k; Ok (q', k'));
  let '(q, k) := qk in
  dims ← unpack4 (shape k);
  Ok (q, k, dims).

(** [QKRotationWrapper.forward]: the returned pair [(q, k)], or the
    exception, and the wrapper after the call. *)
Definition forward (self : QKRotationWrapper) (args : A)
  : Result (Tensor R * Tensor R) * QKRotationWrapper :=
  match rotate_qk self args with
  | Raise e => (Raise e, self)
  | Ok (q, k, dims) =>
      let '(r, qz) := quantize_key self q k dims in
      match r with
      | Raise e => (Raise e, with_quantizer self qz)
      | Ok k' => (Ok (q, k'), with_quantizer self (free qz))
      end
  end.

(** *** Vocabulary of the wrapper properties *)

(** The kernels of the quantizer succeed on [x] and give back as many
    entries as they were given. *)
Definition kernels_keep_size (qz : ActQuantizer R P) (x : Tensor R) : Prop :=
  exists (p : P) (y : Tensor R),
    find_params_kernel (aq_config qz) x = Ok p
    /\ quantize_kernel (aq_config qz) (Some p) x = Ok y
    /\ numel (shape y) = numel (shape x).

(** The quantizer [qz'] has served the requests of [qz] and then [evs],
    none of which is [free]. *)
Definition served_without_free (qz qz' : ActQuantizer R P) (evs : list (QuantEvent R))
  : Prop :=
  aq_log qz' = aq_log qz ++ evs /\ EvFree ∉ evs.

End Wrapper.

Arguments QKRotationWrapper R P A : clear implicits.

(** ** Modules with buffers, attributes and pre-forward hooks *)

Section Hooks.
Context {R P A : Type} `{Scalar R} `{QuantKernels R P} `{HadamardKernel R}.

(** A positional input of a module call. *)
Inductive Arg : Type :=
| ArgTensor (t : Tensor R)
| ArgOther (n : nat).

(** A registered pre-forward hook: [online_rotate], or a hook of another
    component. *)
Inductive PreHook : Type :=
| OnlineRotate
| ForeignPreHook (id : nat).

(** A plain attribute or a submodule: a hook handle, an installed
    query/key wrapper, or any other object. *)
Inductive Attr : Type :=
| AttrHandle (id : nat)
| AttrWrapper (w : QKRotationWrapper R P A)
| AttrObject (n : nat).

(** A [torch.nn.Module]: parameters, buffers with their persistence flag,
    the other attributes and submodules, and the pre-forward hooks in
    registration order. *)
Record NNModule : Type := mkNNModule {
  m_parameters : gmap string (Tensor R);
  m_buffers : gmap string (Tensor R * bool);
  m_attrs : gmap string Attr;
  m_forward_pre_hooks : list PreHook
}.

(** What [getattr(module, name)] may return. *)
Inductive PyVal : Type :=
| ValTensor (t : Tensor R)
| ValAttr (a : Attr).

Definition hasattr (module : NNModule) (name : string) : bool :=
  bool_decide (is_Some (m_attrs module !! name)
               ∨ is_Some (m_parameters module !! name)
               ∨ is_Some (m_buffers module !! name)).

Definition getattr (module : NNModule) (name : string) : Result PyVal :=
  match m_attrs module !! name with
  | Some a => Ok (ValAttr a)
  | None =>
      match m_parameters module !! name with
      | Some t => Ok (ValTensor t)
      | None =>
          match m_buffers module !! name with
          | Some (t, _) => Ok (ValTensor t)
          | None => Raise AttributeError
          end
      end
  end.

(** [v.data] *)
Definition tensor_data (v : PyVal) : Result (Tensor R) :=
  match v with
  | ValTensor t => Ok t
  | ValAttr _ => Raise AttributeError
  end.

(** [module.register_buffer(name, tensor)]: persistent by default; a name
    that is taken by something that is not a buffer is refused. *)
Definition register_buffer (module : NNModule) (name : string) (tensor : Tensor R)
  : Result NNModule :=
  if hasattr module name && negb (bool_decide (is_Some (m_buffers module !! name)))
  then Raise KeyError
  else Ok (mkNNModule (m_parameters module) (<[name := (tensor, true)]> (m_buffers module))
             (m_attrs module) (m_forward_pre_hooks module)).

(** [module.register_forward_pre_hook(hook)]: the module and the handle. *)
Definition register_forward_pre_hook (module : NNModule) (hook : PreHook)
  : NNModule * nat :=
  (mkNNModule (m_parameters module) (m_buffers module) (m_attrs module)
     (m_forward_pre_hooks module ++ [hook]),
   length (m_forward_pre_hooks module)).

(** [setattr(module, name, value)] for a value that is neither a tensor
    nor a module: refused when the name is a parameter or a buffer. *)
Definition setattr_object (module : NNModule) (name : string) (value : Attr)
  : Result NNModule :=
  if bool_decide (is_Some (m_parameters module !! name)
                  ∨ is_Some (m_buffers module !! name))
  then Raise TypeError
  else Ok (mkNNModule (m_parameters module) (m_buffers module)
             (<[name := value]> (m_attrs module)) (m_forward_pre_hooks module)).

(** [setattr(module, name, value)] for a module: the name is freed from
    the parameters and buffers and the module is registered under it. *)
Definition setattr_module (module : NNModule) (name : string) (value : QKRotationWrapper R P A)
  : NNModule :=
  mkNNModule (delete name (m_parameters module)) (delete name (m_buffers module))
    (<[name := AttrWrapper value]> (m_attrs module)) (m_forward_pre_hooks module).

(** ** Online rotation *)

Definition online_rotate (module : NNModule) (inp : list Arg) : Result (list Arg) :=
  inp0 ← match inp with
         | a :: _ => Ok a
         | [] => Raise IndexError
         end;
  Q ← getattr module "Q";
  x ← match inp0, Q with
      | ArgTensor x, ValTensor Q => linear x Q
      | _, _ => Raise TypeError
      end;
  Ok (ArgTensor x :: tail inp).

Definition register_online_rotation (module : NNModule) (Q : Tensor R)
  : Result NNModule :=
  _ ← py_assert (negb (hasattr module "Q"));
  Qt ← T Q;
  w ← getattr module "weight";
  w ← tensor_data w;
  module ← register_buffer module "Q" (to_like w Qt);
  let '(module, handle) := register_forward_pre_hook module OnlineRotate in
  setattr_object module "rotate_handle" (AttrHandle handle).

(** What a call of the module does with its positional inputs before
    [forward] runs: every pre-forward hook in turn; a hook that returns
    a value replaces the inputs. *)
Definition call_pre_hook (foreign : nat -> NNModule -> list Arg -> Result (option (list Arg)))
    (module : NNModule) (h : PreHook) (inp : list Arg) : Result (list Arg) :=
  match h with
  | OnlineRotate => online_rotate module inp
  | ForeignPreHook id =>
      r ← foreign id module inp;
      Ok (default inp r)
  end.

Definition call_pre_hooks (foreign : nat -> NNModule -> list Arg -> Result (option (list Arg)))
    (module : NNModule) (inp : list Arg) : Result (list Arg) :=
  for_each (call_pre_hook foreign module) (m_forward_pre_hooks module) inp.

(** ** Installing the query/key wrapper *)

(** [monkeypatch.add_wrapper_after_function_call_in_method(module,
    method_name, function_name, wrapper_fn)] of [utils/monkeypatch.py]: it
    builds the wrapper with [wrapper_fn], rewires the method of the module
    and returns the wrapper; it may raise. *)
Class Monkeypatch := {
  add_wrapper_after_function_call_in_method :
    NNModule -> string -> string ->
    ((A -> Result (Tensor R * Tensor R)) -> Result (QKRotationWrapper R P A)) ->
    Result (NNModule * QKRotationWrapper R P A)
}.

Context `{Monkeypatch}.

Definition add_qk_rotation_wrapper_after_function_call_in_forward
    (module : NNModule) (function_name : string) (config : Config) (kwargs : Kwargs R)
  : Result NNModule :=
  let attr_name := (function_name +:+ "_qk_rotation_wrapper")%string in
  _ ← py_assert (negb (hasattr module attr_name));
  r ← add_wrapper_after_function_call_in_method module "forward" function_name
        (fun func => QKRotationWrapper_init func config kwargs);
  Ok (setattr_module r.1 attr_name r.2).

End Hooks.

Arguments Arg R : clear implicits.
Arguments Attr R P A : clear implicits.
Arguments NNModule R P A : clear implicits.
Arguments PyVal R P A : clear implicits.
Arguments Monkeypatch R P A : clear implicits.

(** ** Rotation of the weights *)

(** [apply_exact_had_to_linear(module, had_dim, output)] of
    [utils/hadamard_utils.py]: it rewrites the module it is given and may
    raise. *)
Class HadamardUtils (R : Type) := {
  apply_exact_had_to_linear : Linear R -> Z -> bool -> Result (Linear R)
}.

Section Rotation.
Context {R : Type} `{Scalar R} `{Misc} `{HadamardUtils R}.

(** The three statements every input-side rotation runs on a weight:
    [dtype = W.weight.dtype], [W_ = W.weight.to(device=misc.DEV,
    dtype=torch.float64)] and
    [W.weight.data = torch.matmul(W_, Q).to(device=misc.DEV, dtype=dtype)]. *)
Definition rotate_weight (Q W : Tensor R) : Result (Tensor R) :=
  let dtype := dtype W in
  let W_ := to_ float64 DEV W in
  W' ← matmul W_ Q;
  Ok (to_ dtype DEV W').

Definition rotate_linear (Q : Tensor R) (W : Linear R) : Result (Linear R) :=
  w ← rotate_weight Q (weight W);
  Ok (mkLinear w (bias W) (out_features W)).

(** [rotate_embeddings] assigns to the [data] of the embedding weight:
    with tied embeddings the head is rotated with it. *)
Definition rotate_embeddings (model : CausalLM R) (Q : Tensor R) : Result (CausalLM R) :=
  model_type ← model_type_extractor model;
  embeddings ← get_embeddings model model_type;
  embeddings' ← map_result (rotate_weight Q) embeddings;
  match embeddings' with
  | [W] => Ok (with_embed_tokens model W)
  | _ => Raise RuntimeError
  end.

Definition rotate_attention_inputs (layer : DecoderLayer R) (Q : Tensor R)
    (model_type : string) : Result (DecoderLayer R) :=
  ws ← map_result (rotate_linear Q)
         [q_proj (self_attn layer); k_proj (self_attn layer); v_proj (self_attn layer)];
  match ws with
  | [q; k; v] =>
      Ok (mkDecoderLayer (mkAttention q k v (o_proj (self_attn layer))) (mlp layer)
            (input_layernorm layer) (post_attention_layernorm layer))
  | _ => Raise RuntimeError
  end.

(** The statements [rotate_attention_output] and [rotate_mlp_output] run
    on the weight: [W.weight.data = torch.matmul(Q.T, W_).to(...)]. *)
Definition rotate_weight_left (Q W : Tensor R) : Result (Tensor R) :=
  let dtype := dtype W in
  let W_ := to_ float64 DEV W in
  Qt ← T Q;
  W' ← matmul Qt W_;
  Ok (to_ dtype DEV W').

(** ... and on the bias: [if W.bias is not None: ...], in the dtype of the
    weight before the rotation. *)
Definition rotate_bias_left (Q : Tensor R) (dtype : DType) (bias : option (Tensor R))
  : Result (option (Tensor R)) :=
  match bias with
  | Some b =>
      let b := to_ float64 DEV b in
      Qt ← T Q;
      b' ← matvec Qt b;
      Ok (Some (to_ dtype DEV b'))
  | None => Ok None
  end.

Definition rotate_attention_output (layer : DecoderLayer R) (Q : Tensor R)
    (model_type : string) : Result (DecoderLayer R) :=
  W ← (if bool_decide (model_type = LLAMA_MODEL) || bool_decide (model_type = MISTRAL_MODEL)
          || bool_decide (model_type = QW_MODEL)
       then Ok (o_proj (self_attn layer))
       else Raise ValueError);
  let dtype := dtype (weight W) in
  w ← rotate_weight_left Q (weight W);
  b ← rotate_bias_left Q dtype (bias W);
  Ok (mkDecoderLayer
        (mkAttention (q_proj (self_attn layer)) (k_proj (self_attn layer))
           (v_proj (self_attn layer)) (mkLinear w b (out_features W)))
        (mlp layer) (input_layernorm layer) (post_attention_layernorm layer)).

Definition rotate_mlp_input (layer : DecoderLayer R) (Q : Tensor R)
    (model_type : string) : Result (DecoderLayer R) :=
  mlp_inputs ← (if bool_decide (model_type = LLAMA_MODEL)
                   || bool_decide (model_type = MISTRAL_MODEL)
                   || bool_decide (model_type = QW_MODEL)
                then Ok [up_proj (mlp layer); gate_proj (mlp layer)]
                else Raise ValueError);
  ws ← map_result (rotate_linear Q) mlp_inputs;
  match ws with
  | [up; gate] =>
      Ok (mkDecoderLayer (self_attn layer) (mkMLP gate up (down_proj (mlp layer)))
            (input_layernorm layer) (post_attention_layernorm layer))
  | _ => Raise RuntimeError
  end.

Definition rotate_mlp_output (layer : DecoderLayer R) (Q : Tensor R)
    (model_type : string) : Result (DecoderLayer R) :=
  W ← (if bool_decide (model_type = LLAMA_MODEL) || bool_decide (model_type = MISTRAL_MODEL)
          || bool_decide (model_type = QW_MODEL)
       then Ok (down_proj (mlp layer))
       else Raise ValueError);
  let dtype := dtype (weight W) in
  w ← rotate_weight_left Q (weight W);
  W ← apply_exact_had_to_linear (mkLinear w (bias W) (out_features W)) (-1) false;
  b ← rotate_bias_left Q dtype (bias W);
  Ok (mkDecoderLayer (self_attn layer)
        (mkMLP (gate_proj (mlp layer)) (up_proj (mlp layer))
           (mkLinear (weight W) b (out_features W)))
        (input_layernorm layer) (post_attention_layernorm layer)).

(** [rotate_head] assigns to the [data] of the head weight: with tied
    embeddings the embedding is rotated with it. *)
Definition rotate_head (model : CausalLM R) (Q : Tensor R) : Result (CausalLM R) :=
  model_type ← model_type_extractor model;
  W ← get_lm_head model model_type;
  W ← rotate_linear Q W;
  Ok (with_lm_head model W).

Definition rotate_ov_proj (layer : DecoderLayer R) (model_type : string)
    (head_num head_dim : Z) : Result (DecoderLayer R) :=
  let v_proj := v_proj (self_attn layer) in
  o_proj ← (if bool_decide (model_type = LLAMA_MODEL)
               || bool_decide (model_type = MISTRAL_MODEL)
               || bool_decide (model_type = QW_MODEL)
            then Ok (o_proj (self_attn layer))
            else Raise ValueError);
  v_proj ← apply_exact_had_to_linear v_proj head_dim true;
  o_proj ← apply_exact_had_to_linear o_proj head_dim false;
  Ok (mkDecoderLayer
        (mkAttention (q_proj (self_attn layer)) (k_proj (self_attn layer)) v_proj o_proj)
        (mlp layer) (input_layernorm layer) (post_attention_layernorm layer)).

(** The body of the loop of [rotate_model] over the layers. *)
Definition rotate_layer (Q : Tensor R) (model_type : string) (num_heads head_dim : Z)
    (layer : DecoderLayer R) : Result (DecoderLayer R) :=
  layer ← rotate_attention_inputs layer Q model_type;
  layer ← rotate_attention_output layer Q model_type;
  layer ← rotate_mlp_input layer Q model_type;
  layer ← rotate_mlp_output layer Q model_type;
  rotate_ov_proj layer model_type num_heads head_dim.

(** [rotate_model(model, Q)], with [model.config] beside the model. *)
Definition rotate_model (config : Config) (model : CausalLM R) (Q : Tensor R)
  : Result (CausalLM R) :=
  let num_heads := num_attention_heads config in
  let model_dim := hidden_size config in
  head_dim ← floordiv model_dim num_heads;
  model_type ← model_type_extractor model;
  model ← rotate_embeddings model Q;
  model ← rotate_head model Q;
  layers ← get_transformer_layers model model_type;
  layers' ← map_result (rotate_layer Q model_type num_heads head_dim) layers;
  Ok (mkCausalLM (lm_mro model)
        (mkDecoder (embed_tokens (Transformers.model model)) layers'
           (norm (Transformers.model model)))
        (lm_head model)
        (tied_embeddings model)).

(** *** Vocabulary of the rotation properties *)

(** The layer with weight [W'] maps a rotated input [x @ Q] to what the
    layer with weight [W] maps [x] to. *)
Definition absorbs_rotation (Q W W' : Tensor R) : Prop :=
  forall x y : Tensor R, wf x -> linear x W = Ok y ->
    exists xq y' : Tensor R,
      matmul (to_ float64 DEV x) Q = Ok xq
      /\ linear (to_like W' xq) W' = Ok y'
      /\ same_values y' y.

(** The layer with weight [W'] emits the rotated output [y @ Q] where the
    layer with weight [W] emits [y]. *)
Definition emits_rotation (Q W W' : Tensor R) : Prop :=
  forall x y : Tensor R, wf x -> linear x W = Ok y ->
    exists yq y' : Tensor R,
      matmul (to_ float64 DEV y) Q = Ok yq
      /\ linear (to_like W' x) W' = Ok y'
      /\ same_values y' yq.

(** The bias [b'] is the bias [b] times [Q], as a row vector. *)
Definition bias_rotated (Q : Tensor R) (b b' : option (Tensor R)) : Prop :=
  match b, b' with
  | Some b, Some b' =>
      exists bq : Tensor R, matmul (to_ float64 DEV b) Q = Ok bq /\ same_values b' bq
  | None, None => True
  | _, _ => False
  end.

(** What [rotate_model] leaves of a layer and what it multiplies by [Q]
    on the right: the two norms are untouched, and the query, key, up and
    gate projections are rotated exactly once. *)
Definition layer_rotated (Q : Tensor R) (layer layer' : DecoderLayer R) : Prop :=
  input_layernorm layer' = input_layernorm layer
  /\ post_attention_layernorm layer' = post_attention_layernorm layer
  /\ rotate_linear Q (q_proj (self_attn layer)) = Ok (q_proj (self_attn layer'))
  /\ rotate_linear Q (k_proj (self_attn layer)) = Ok (k_proj (self_attn layer'))
  /\ rotate_linear Q (up_proj (mlp layer)) = Ok (up_proj (mlp layer'))
  /\ rotate_linear Q (gate_proj (mlp layer)) = Ok (gate_proj (mlp layer')).

(** The weights of the projections that read the hidden state fill their
    shapes. *)
Definition inputs_wf (layer : DecoderLayer R) : Prop :=
  wf (weight (q_proj (self_attn layer))) /\ wf (weight (k_proj (self_attn layer)))
  /\ wf (weight (up_proj (mlp layer))) /\ wf (weight (gate_proj (mlp layer))).

(** The projections of [layer'] that read the hidden state map a rotated
    hidden state to what those of [layer] map the hidden state to. *)
Definition layer_absorbs_rotation (Q : Tensor R) (layer layer' : DecoderLayer R) : Prop :=
  absorbs_rotation Q (weight (q_proj (self_attn layer))) (weight (q_proj (self_attn layer')))
  /\ absorbs_rotation Q (weight (k_proj (self_attn layer)))
       (weight (k_proj (self_attn layer')))
  /\ absorbs_rotation Q (weight (up_proj (mlp layer))) (weight (up_proj (mlp layer')))
  /\ absorbs_rotation Q (weight (gate_proj (mlp layer))) (weight (gate_proj (mlp layer'))).

End Rotation.

(** ** Orthogonal matrices *)

(** The random number generators: [randn n] draws [n] entries for
    [torch.randn], [randint a b] is [random.randint(a, b)], which raises
    [ValueError] on an empty range.  [Rng] is the state of both. *)
Class Random (R Rng : Type) := {
  randn : nat -> Rng -> list R * Rng;
  randint : Z -> Z -> Rng -> Result Z * Rng
}.

(** What the generators call outside the two files: [torch.linalg.qr],
    [random_hadamard_matrix] of [utils/hadamard_utils.py], and [house_v2]
    and [householder] of [utils/householder_utils.py].  Modelled from the
    spec: [house_v2] constructs a reflection vector for an index and
    [householder] builds the matrix of the reflection. *)
Class Generators (R Rng : Type) := {
  linalg_qr : Tensor R -> Result (Tensor R * Tensor R);
  random_hadamard_matrix : nat -> Device -> Rng -> Result (Tensor R) * Rng;
  house_v2 : nat -> Z -> Result (Tensor R);
  householder : Tensor R -> Result (Tensor R)
}.

(** The keyword argument [indices]: a list of channel indices, a matrix,
    or another object. *)
Inductive Indices (R : Type) : Type :=
| IndexList (l : list Z)
| IndexTensor (t : Tensor R)
| IndexOther (n : nat).

Arguments IndexList {R} l.
Arguments IndexTensor {R} t.
Arguments IndexOther {R} n.

Section Orthogonal.
Context {R Rng : Type} `{Scalar R} `{Elementwise R} `{Random R Rng} `{Generators R Rng}.

Definition random_orthogonal_matrix (size : nat) (device : Device) (rng : Rng)
  : Result (Tensor R) * Rng :=
  let '(draw, rng) := randn (size * size) rng in
  let random_matrix := to_device device (mkTensor [size; size] float64 cpu draw) in
  (qr ← linalg_qr random_matrix;
   let '(q, r) := qr in
   d ← diag r;
   imul q (unsqueeze0 (sign d)),
   rng).

(** [torch.where(torch.randn(size) > 0, 1, -1)] on a draw. *)
Definition random_signs (size : nat) (draw : list R) : Tensor R :=
  mkTensor [size] float32 cpu
    (map (fun x => if s_positive x then s_one else s_minus_one) draw).

(** The body of the loop of [random_householder_matrix]. *)
Definition householder_step (size : nat) (idx : Z) (st : Tensor R * Rng)
  : Result (Tensor R) * Rng :=
  let '(matrix, rng) := st in
  match house_v2 size idx with
  | Raise e => (Raise e, rng)
  | Ok v =>
      let '(draw, rng) := randn size rng in
      (v ← mul_vec (to_like matrix v) (to_like matrix (random_signs size draw));
       h ← householder v;
       matmul matrix h,
       rng)
  end.

Fixpoint householder_loop (size : nat) (indices : list Z) (st : Tensor R * Rng)
  : Result (Tensor R) * Rng :=
  match indices with
  | [] => (Ok st.1, st.2)
  | idx :: rest =>
      match householder_step size idx st with
      | (Ok matrix, rng) => householder_loop size rest (matrix, rng)
      | (Raise e, rng) => (Raise e, rng)
      end
  end.

Definition random_householder_matrix (size : nat) (device : Device)
    (indices : option (Indices R)) (rng : Rng) : Result (Tensor R) * Rng :=
  match indices with
  | Some (IndexList indices) =>
      let matrix := to_device device (eye size) in
      match householder_loop size indices (matrix, rng) with
      | (Ok matrix, rng) => (Ok (to_dtype float64 matrix), rng)
      | (Raise e, rng) => (Raise e, rng)
      end
  | _ => (Raise AssertionError, rng)
  end.

(** [get_orthogonal_matrix(size, mode, device, **kwargs)]; [indices] is
    [kwargs.get('indices')].  The mode [orthogonal_procrustes] returns
    the object it was given. *)
Definition get_orthogonal_matrix (size : nat) (mode : string) (device : Device)
    (indices : option (Indices R)) (rng : Rng) : Result (Indices R) * Rng :=
  if bool_decide (mode = "random"%string) then
    let '(r, rng) := random_orthogonal_matrix size device rng in (t ← r; Ok (IndexTensor t), rng)
  else if bool_decide (mode = "hadamard"%string) then
    let '(r, rng) := random_hadamard_matrix size device rng in (t ← r; Ok (IndexTensor t), rng)
  else if bool_decide (mode = "householder"%string) then
    let '(r, rng) := random_householder_matrix size device indices rng in
    (t ← r; Ok (IndexTensor t), rng)
  else if bool_decide (mode = "hadamard_householder"%string) then
    match random_hadamard_matrix size device rng with
    | (Raise e, rng) => (Raise e, rng)
    | (Ok hadamard_matrix, rng) =>
        match randint 0 (Z.of_nat size - 1) rng with
        | (Raise e, rng) => (Raise e, rng)
        | (Ok idx, rng) =>
            (v ← house_v2 size idx;
             h ← householder v;
             m ← matmul hadamard_matrix (to_like hadamard_matrix h);
             Ok (IndexTensor m),
             rng)
        end
    end
  else if bool_decide (mode = "orthogonal_procrustes"%string) then
    match indices with
    | Some orthogonal_procrustes_matrix => (Ok orthogonal_procrustes_matrix, rng)
    | None => (Raise AssertionError, rng)
    end
  else (Raise ValueError, rng).

(** *** Vocabulary *)

(** The modes [get_orthogonal_matrix] knows. *)
Definition orthogonal_modes : list string :=
  ["random"; "hadamard"; "householder"; "hadamard_householder";
   "orthogonal_procrustes"]%string.

End Orthogonal.

Arguments Indices R : clear implicits.

End RotationUtils.

(* ================================================================== *)
(** * Concrete instances used in the examples *)
(* ================================================================== *)

Module Examples.

Import ModelUtils RotationUtils.

(** Exact integer entries: no rounding anywhere. *)
#[global] Instance Z_scalar : Scalar Z := {|
  s_zero := 0%Z;
  s_one := 1%Z;
  s_add := Z.add;
  s_mul := Z.mul;
  s_round := fun _ z => z
|}.

(** [int] on plain decimal names; any other name is refused. *)
Fixpoint digits_value (s : string) (acc : Z) : option Z :=
  match s with
  | EmptyString => Some acc
  | String c rest => d ← Ascii.is_nat c; digits_value rest (10 * acc + Z.of_nat d)%Z
  end.

Definition decimal_int (s : string) : option Z :=
  match s with
  | EmptyString => None
  | _ => digits_value s 0
  end.

#[global] Instance decimal_builtins : Builtins := {| py_int := decimal_int |}.

(** A three-level hierarchy: a model with a list of two decoder layers
    and a norm; the first layer holds an MLP and, nested in it, another
    decoder layer. *)
Definition inner_layer : ModuleTree := MNode ["LlamaDecoderLayer"%string] 4 [].
Definition layer_0 : ModuleTree :=
  MNode ["LlamaDecoderLayer"%string] 2
    [("mlp"%string, MNode ["LlamaMLP"%string] 3 []); ("inner"%string, inner_layer)].
Definition layer_1 : ModuleTree := MNode ["LlamaDecoderLayer"%string] 5 [].

Definition hierarchy : ModuleTree :=
  MNode ["LlamaModel"%string] 0
    [("layers"%string, MNode ["ModuleList"%string] 1
        [("0"%string, layer_0); ("1"%string, layer_1)]);
     ("norm"%string, MNode ["LlamaRMSNorm"%string] 6 [])].

(** A factory that wraps nothing: the new module records the index. *)
Definition indexed_factory (m : ModuleTree) (idx : option Z) : ModuleTree :=
  MNode ["Replacement"%string] (100 + Z.to_nat (default 0%Z idx)) [].

Definition hierarchy_replaced : ModuleTree :=
  MNode ["LlamaModel"%string] 0
    [("layers"%string, MNode ["ModuleList"%string] 1
        [("0"%string, MNode ["Replacement"%string] 100 []);
         ("1"%string, MNode ["Replacement"%string] 101 [])]);
     ("norm"%string, MNode ["LlamaRMSNorm"%string] 6 [])].

(** A model that holds one decoder layer under two names, and the model
    after [replace_modules] with [indexed_factory] and [replace_layers]
    false. *)
Definition shared_hierarchy : ModuleTree :=
  MNode ["LlamaModel"%string] 0
    [("first"%string, layer_1); ("second"%string, layer_1)].

Definition shared_hierarchy_replaced : ModuleTree :=
  MNode ["LlamaModel"%string] 0
    [("first"%string, MNode ["Replacement"%string] 100 []); ("second"%string, layer_1)].

(** The compute device, and a layer whose seven projections each run once
    per forward pass on the hidden states; [v_proj] doubles its input. *)
#[global] Instance example_misc : Misc := {| DEV := cuda |}.

Definition doubled (x : Tensor Z) : Tensor Z :=
  mkTensor (shape x) (dtype x) (device x) (map (Z.mul 2) (data x)).

Definition example_layer : HookedLayer Z :=
  mkHookedLayer
    {[ "q_proj"%string := 0; "k_proj"%string := 1; "v_proj"%string := 2;
       "o_proj"%string := 3 ]}
    {[ "gate_proj"%string := 4; "up_proj"%string := 5; "down_proj"%string := 6 ]}
    (fun hidden =>
       Ok [mkSubCall 0 [hidden] hidden; mkSubCall 1 [hidden] hidden;
           mkSubCall 2 [hidden] (doubled hidden); mkSubCall 3 [hidden] hidden;
           mkSubCall 4 [hidden] hidden; mkSubCall 5 [hidden] hidden;
           mkSubCall 6 [hidden] hidden]).

(** A batch of two sequences of one token of width two, what is captured
    from it, and a batch of no sequence. *)
Definition two_sequences : Tensor Z := mkTensor [2; 1; 2] float16 cpu [1; 2; 3; 4]%Z.
Definition no_sequence : Tensor Z := mkTensor [0; 1; 2] float16 cpu [].

Definition two_sequences_io : LayerIO Z :=
  mkLayerIO
    [("k_proj"%string, two_sequences); ("o_proj"%string, two_sequences);
     ("gate_proj"%string, two_sequences); ("down_proj"%string, two_sequences)]
    [("v_proj"%string, doubled two_sequences)].

(** A model object known only by its classes. *)
Record PyObject : Type := mkPyObject { obj_mro : list string }.

#[global] Instance PyObject_mro : HasMro PyObject := obj_mro.

(** A quantizer that keeps even entries and lowers odd ones to the even
    number below, with no calibration state. *)
#[global] Instance even_kernels : QuantKernels Z unit := {|
  find_params_kernel := fun _ _ => Ok tt;
  quantize_kernel := fun _ _ x =>
    Ok (mkTensor (shape x) (dtype x) (device x) (map (fun z => 2 * (z / 2))%Z (data x)))
|}.

(** The unnormalised Hadamard transform of pairs: [(a, b)] becomes
    [(a + b, a - b)]; other sizes are refused. *)
Fixpoint had_pairs (l : list Z) : list Z :=
  match l with
  | a :: b :: l' => (a + b)%Z :: (a - b)%Z :: had_pairs l'
  | _ => []
  end.

#[global] Instance pair_hadamard : HadamardKernel Z := {|
  hadamard_transform := Some (fun x n =>
    if bool_decide (n = 2)
    then Ok (mkTensor (shape x) (dtype x) (device x) (had_pairs (data x)))
    else Raise RuntimeError)
|}.

(** A wrapped function returning a fixed query and key (one sequence of
    one token, two heads of dimension two), and a monkeypatch helper that
    wraps it and leaves the attributes of the module as they are. *)
Definition fixed_q : Tensor Z := mkTensor [1; 2; 1; 2] float16 cpu [1; 2; 3; 4]%Z.
Definition fixed_k : Tensor Z := mkTensor [1; 2; 1; 2] float16 cpu [3; 5; 7; 9]%Z.

Definition fixed_qk : unit -> Result (Tensor Z * Tensor Z) :=
  fun _ => Ok (fixed_q, fixed_k).

#[global] Instance simple_monkeypatch : Monkeypatch Z unit unit := {|
  add_wrapper_after_function_call_in_method := fun module _ _ wrapper_fn =>
    w ← wrapper_fn fixed_qk; Ok (module, w)
|}.

(** A linear module with a 2×2 double-precision weight, and the rotation
    by a quarter turn. *)
Definition linear2 : NNModule Z unit unit :=
  mkNNModule {[ "weight"%string := mkTensor [2; 2] float64 cpu [1; 0; 0; 1]%Z ]} ∅ ∅ [].

Definition quarter_turn : Tensor Z :=
  mkTensor [2; 2] float64 cpu [0; 1; -1; 0]%Z.

Definition unit_row : Tensor Z := mkTensor [1; 2] float64 cpu [1; 0]%Z.

(** [linear2] after [register_online_rotation(linear2, quarter_turn)]. *)
Definition linear2_rotated : NNModule Z unit unit :=
  mkNNModule (m_parameters linear2)
    {[ "Q"%string := (mkTensor [2; 2] float64 cpu [0; -1; 1; 0]%Z, true) ]}
    {[ "rotate_handle"%string := AttrHandle 0 ]}
    [OnlineRotate].

(** A one-layer Llama model with 2×2 half-precision projections and
    bias-free norms, and the same model after fusion. *)
Definition lin (d : list Z) : Linear Z := mkLinear (mkTensor [2; 2] float16 cpu d) None 2.
Definition rms (d : list Z) : Norm Z := mkNorm (mkTensor [2] float16 cpu d) None.

Definition tiny_llama : CausalLM Z :=
  mkCausalLM ["LlamaForCausalLM"%string; "LlamaPreTrainedModel"%string]
    (mkDecoder (mkTensor [3; 2] float16 cpu [1; 0; 0; 1; 1; 1]%Z)
       [mkDecoderLayer
          (mkAttention (lin [1; 2; 3; 4]%Z) (lin [0; 1; 1; 0]%Z) (lin [2; 2; 2; 2]%Z)
             (lin [1; 0; 0; 1]%Z))
          (mkMLP (lin [1; 1; 0; 1]%Z) (lin [1; 2; 3; 4]%Z) (lin [1; 0; 0; 1]%Z))
          (rms [2; 3]%Z) (rms [5; 7]%Z)]
       (rms [4; 9]%Z))
    (lin [1; 2; 3; 4]%Z)
    false.

Definition tiny_llama_fused : CausalLM Z :=
  mkCausalLM ["LlamaForCausalLM"%string; "LlamaPreTrainedModel"%string]
    (mkDecoder (mkTensor [3; 2] float16 cpu [1; 0; 0; 1; 1; 1]%Z)
       [mkDecoderLayer
          (mkAttention (lin [2; 6; 6; 12]%Z) (lin [0; 3; 2; 0]%Z) (lin [4; 6; 4; 6]%Z)
             (lin [1; 0; 0; 1]%Z))
          (mkMLP (lin [5; 7; 0; 7]%Z) (lin [5; 14; 15; 28]%Z) (lin [1; 0; 0; 1]%Z))
          (rms [1; 1]%Z) (rms [1; 1]%Z)]
       (rms [1; 1]%Z))
    (lin [4; 18; 12; 36]%Z)
    false.

(** A two-head configuration with [head_dim = 2], the keyword arguments
    of a wrapper with the given rotation switch, bit width and group size,
    and the wrapper [QKRotationWrapper(fixed_qk, example_config, **kwargs)]
    builds from them. *)
Definition example_config : Config := mkConfig 2 4.

Definition example_kwargs (disable : bool) (bits groupsize : Z) : Kwargs Z :=
  mkKwargs (Some disable) (Some groupsize) (Some bits) (Some true) (Some 1%Z).

Definition example_wrapper (disable : bool) (bits groupsize : Z)
  : QKRotationWrapper Z unit unit :=
  mkQKRotationWrapper example_config 2 fixed_qk
    (mkActQuantizer (Some (mkQuantConfig bits (-1) true 1%Z)) None [])
    bits disable groupsize true 1%Z.

(** A wrapped function of a grouped-query model: two query heads, one
    key head, two tokens; and a token-wise 4-bit wrapper around it. *)
Definition gqa_q : Tensor Z := mkTensor [1; 2; 2; 2] float16 cpu [1; 2; 3; 4; 5; 6; 7; 8]%Z.
Definition gqa_k : Tensor Z := mkTensor [1; 1; 2; 2] float16 cpu [3; 5; 7; 9]%Z.

Definition gqa_qk : unit -> Result (Tensor Z * Tensor Z) :=
  fun _ => Ok (gqa_q, gqa_k).

Definition gqa_wrapper : QKRotationWrapper Z unit unit :=
  mkQKRotationWrapper example_config 2 gqa_qk
    (mkActQuantizer (Some (mkQuantConfig 4 (-1) true 1%Z)) None [])
    4 true (-1) true 1%Z.

(** The tensor the quantizer of [gqa_wrapper] is given. *)
Definition gqa_token_wise_k : Tensor Z := mkTensor [1; 4] float16 cpu [3; 5; 7; 9]%Z.

(** The head-wise 4-bit wrapper around the same function, and the tensor
    its quantizer is given. *)
Definition gqa_head_wise_wrapper : QKRotationWrapper Z unit unit :=
  mkQKRotationWrapper example_config 2 gqa_qk
    (mkActQuantizer (Some (mkQuantConfig 4 (-1) true 1%Z)) None [])
    4 true 2 true 1%Z.

Definition gqa_per_head_k : Tensor Z := mkTensor [2; 2] float16 cpu [3; 5; 7; 9]%Z.

(** The same grouped-query model on one token, and the 4-bit wrapper
    around it for a group size. *)
Definition one_token_q : Tensor Z := mkTensor [1; 2; 1; 2] float16 cpu [1; 2; 3; 4]%Z.
Definition one_token_k : Tensor Z := mkTensor [1; 1; 1; 2] float16 cpu [3; 5]%Z.

Definition one_token_qk : unit -> Result (Tensor Z * Tensor Z) :=
  fun _ => Ok (one_token_q, one_token_k).

Definition one_token_wrapper (k_groupsize : Z) : QKRotationWrapper Z unit unit :=
  mkQKRotationWrapper example_config 2 one_token_qk
    (mkActQuantizer (Some (mkQuantConfig 4 (-1) true 1%Z)) None [])
    4 true k_groupsize true 1%Z.

(** [linear2] after the wrapper was installed for [apply_rotary_pos_emb]. *)
Definition linear2_wrapped : NNModule Z unit unit :=
  mkNNModule (m_parameters linear2) ∅
    {[ "apply_rotary_pos_emb_qk_rotation_wrapper"%string := AttrWrapper (example_wrapper false 4 (-1)) ]}
    [].

(** Hadamard utilities that leave a layer as it is, the quarter turn on
    [misc.DEV], a configuration with one head, and [tiny_llama] after
    [rotate_model(tiny_llama, quarter_turn_dev)]. *)
#[global] Instance identity_hadamard_utils : HadamardUtils Z := {|
  apply_exact_had_to_linear := fun W _ _ => Ok W
|}.

Definition quarter_turn_dev : Tensor Z := mkTensor [2; 2] float64 cuda [0; 1; -1; 0]%Z.

Definition tiny_config : Config := mkConfig 1 2.

Definition lin_dev (d : list Z) : Linear Z :=
  mkLinear (mkTensor [2; 2] float16 cuda d) None 2.

Definition tiny_llama_rotated : CausalLM Z :=
  mkCausalLM ["LlamaForCausalLM"%string; "LlamaPreTrainedModel"%string]
    (mkDecoder (mkTensor [3; 2] float16 cuda [0; 1; -1; 0; -1; 1]%Z)
       [mkDecoderLayer
          (mkAttention (lin_dev [-2; 1; -4; 3]%Z) (lin_dev [-1; 0; 0; 1]%Z)
             (lin_dev [-2; 2; -2; 2]%Z) (lin_dev [0; -1; 1; 0]%Z))
          (mkMLP (lin_dev [-1; 1; -1; 0]%Z) (lin_dev [-2; 1; -4; 3]%Z)
             (lin_dev [0; -1; 1; 0]%Z))
          (rms [2; 3]%Z) (rms [5; 7]%Z)]
       (rms [4; 9]%Z))
    (lin_dev [-2; 1; -4; 3]%Z)
    false.

(** [tiny_llama] with a head tied to the embedding, and the weight the two
    share after [rotate_model(model, quarter_turn_dev)]: the quarter turn
    applied twice, which is the negative of the weight. *)
Definition tiny_llama_tied : CausalLM Z :=
  mkCausalLM (lm_mro tiny_llama)
    (Transformers.model tiny_llama)
    (mkLinear (embed_tokens (Transformers.model tiny_llama)) None 3)
    true.

Definition tied_weight_rotated : Tensor Z :=
  mkTensor [3; 2] float16 cuda [-1; 0; 0; -1; -1; -1]%Z.

(** A layer whose output projection has a bias, and the layer after
    [rotate_attention_output(layer, quarter_turn_dev, LLAMA_MODEL)]. *)
Definition biased_layer : DecoderLayer Z :=
  mkDecoderLayer
    (mkAttention (lin [1; 2; 3; 4]%Z) (lin [0; 1; 1; 0]%Z) (lin [2; 2; 2; 2]%Z)
       (mkLinear (mkTensor [2; 2] float16 cpu [1; 2; 3; 4]%Z)
          (Some (mkTensor [2] float16 cpu [5; 6]%Z)) 2))
    (mkMLP (lin [1; 1; 0; 1]%Z) (lin [1; 2; 3; 4]%Z) (lin [1; 0; 0; 1]%Z))
    (rms [2; 3]%Z) (rms [5; 7]%Z).

Definition biased_layer_rotated : DecoderLayer Z :=
  mkDecoderLayer
    (mkAttention (lin [1; 2; 3; 4]%Z) (lin [0; 1; 1; 0]%Z) (lin [2; 2; 2; 2]%Z)
       (mkLinear (mkTensor [2; 2] float16 cuda [-3; -4; 1; 2]%Z)
          (Some (mkTensor [2] float16 cuda [-6; 5]%Z)) 2))
    (mkMLP (lin [1; 1; 0; 1]%Z) (lin [1; 2; 3; 4]%Z) (lin [1; 0; 0; 1]%Z))
    (rms [2; 3]%Z) (rms [5; 7]%Z).

(** A double-precision weight on [misc.DEV], the weight the input-side
    rotation by [quarter_turn_dev] makes of it, a module holding the
    rotated weight, the module after
    [register_online_rotation(module, quarter_turn_dev)], and an input. *)
Definition plain_weight : Tensor Z := mkTensor [2; 2] float64 cuda [1; 2; 3; 4]%Z.

Definition rotated_weight : Tensor Z := mkTensor [2; 2] float64 cuda [-2; 1; -4; 3]%Z.

Definition rotated_module : NNModule Z unit unit :=
  mkNNModule {[ "weight"%string := rotated_weight ]} ∅ ∅ [].

Definition rotated_module_registered : NNModule Z unit unit :=
  mkNNModule (m_parameters rotated_module)
    {[ "Q"%string := (mkTensor [2; 2] float64 cuda [0; -1; 1; 0]%Z, true) ]}
    {[ "rotate_handle"%string := AttrHandle 0 ]}
    [OnlineRotate].

Definition unit_row_dev : Tensor Z := mkTensor [1; 2] float64 cuda [1; 0]%Z.

(** What the hooks of [example_layer] capture under a name from sequence
    [i] of [two_sequences], and a layer without a value projection. *)
Definition example_capture (i : nat) (name : string) : Tensor Z :=
  let seq := mkTensor [1; 1; 2] float16 cpu (take 2 (drop (i * 2) (data two_sequences))) in
  if bool_decide (name = "v_proj"%string) then doubled seq else seq.

Definition headless_layer : HookedLayer Z :=
  mkHookedLayer
    {[ "q_proj"%string := 0; "k_proj"%string := 1; "o_proj"%string := 3 ]}
    {[ "gate_proj"%string := 4; "up_proj"%string := 5; "down_proj"%string := 6 ]}
    (hl_forward example_layer).

(** The sign, the test [> 0] and [-1] of the integers; a generator that
    draws the entries 0, 2, 3, -1 in turn, the state being the number of
    entries drawn; and kernels that factor the matrix of these entries
    as the quarter turn times an upper triangular matrix with diagonal
    (-3, 2). *)
Definition upper_factor : Tensor Z := mkTensor [2; 2] float64 cuda [-3; 1; 0; 2]%Z.

#[global] Instance Z_elementwise : Elementwise Z := {|
  s_sign := Z.sgn;
  s_positive := fun x => (0 <? x)%Z;
  s_minus_one := (-1)%Z
|}.

#[global] Instance fixed_draws : Random Z nat := {|
  randn := fun n rng =>
    (map (fun i => nth ((rng + i) `mod` 4) [0; 2; 3; -1]%Z 0%Z) (seq 0 n), rng + n);
  randint := fun a b rng =>
    (if bool_decide (a <= b)%Z then Ok a else Raise ValueError, rng)
|}.

#[global] Instance fixed_generators : Generators Z nat := {|
  linalg_qr := fun t =>
    if bool_decide (data t = [0; 2; 3; -1]%Z)
    then Ok (mkTensor [2; 2] (dtype t) (device t) [0; 1; -1; 0]%Z,
             mkTensor [2; 2] (dtype t) (device t) [-3; 1; 0; 2]%Z)
    else Raise RuntimeError;
  random_hadamard_matrix := fun size device rng => (Raise RuntimeError, rng);
  house_v2 := fun _ _ => Raise RuntimeError;
  householder := fun _ => Raise RuntimeError
|}.

End Examples.

(* ================================================================== *)
(** * Properties of the tensor operations *)
(* ================================================================== *)

Module TorchSpec.

Section OpsSpec.
Context {R : Type} `{Scalar R}.

Lemma rows_of_concat (k : nat) (ls : list (list R)) :
  Forall (fun l => length l = k) ls ->
  rows_of k (length ls) (concat ls) = ls.
Proof.
  induction 1 as [| l ls Hl _ IH]; [reflexivity |].
  cbn [length concat rows_of].
  rewrite take_app_length' by done.
  rewrite drop_app_length' by done.
  by rewrite IH.
Qed.

Lemma rows_of_length (k n : nat) (l : list R) : length (rows_of k n l) = n.
Proof. revert l; induction n as [| n IH]; intros l; cbn; [done | by rewrite IH]. Qed.

Lemma col_length (k o : nat) (l : list R) (j : nat) : length (col k o l j) = k.
Proof. unfold col. by rewrite length_map, length_seq. Qed.

Lemma cols_of_length (k o : nat) (l : list R) : length (cols_of k o l) = o.
Proof. unfold cols_of. by rewrite length_map, length_seq. Qed.

Lemma cols_of_Forall (k o : nat) (l : list R) :
  Forall (fun c => length c = k) (cols_of k o l).
Proof.
  unfold cols_of. apply Forall_forall. intros c Hc.
  apply list_elem_of_fmap in Hc as (j & -> & _). apply col_length.
Qed.

(** Rounding the entries of a full matrix commutes with taking columns. *)
Lemma cols_of_map (f : R -> R) (k o : nat) (l : list R) :
  length l = k * o ->
  cols_of k o (map f l) = map (map f) (cols_of k o l).
Proof.
  intros Hlen. unfold cols_of. rewrite map_map.
  apply map_ext_in. intros j Hj. apply in_seq in Hj.
  unfold col. rewrite map_map.
  apply map_ext_in. intros i Hi. apply in_seq in Hi.
  rewrite (nth_indep _ s_zero (f s_zero)) by (rewrite length_map; nia).
  apply map_nth.
Qed.

Lemma concat_map_map (f : R -> R) (ls : list (list R)) :
  map f (concat ls) = concat (map (map f) ls).
Proof. induction ls as [| l ls IH]; cbn; [done |]. by rewrite map_app, IH. Qed.

Lemma T_shape (Q Qt : Tensor R) :
  T Q = Ok Qt ->
  exists n m, shape Q = [n; m] /\ shape Qt = [m; n]
              /\ dtype Qt = dtype Q /\ device Qt = device Q
              /\ data Qt = concat (cols_of n m (data Q)).
Proof.
  unfold T. destruct (shape Q) as [| n [| m [| ? ?]]]; try discriminate.
  intros [= <-]. by exists n, m.
Qed.

(** [linear] against a transposed and converted matrix is [matmul]
    against the converted matrix: [F.linear(x, B.T) = x @ B]. *)
Lemma linear_T_matmul (w Q Qt x : Tensor R) :
  wf Q -> T Q = Ok Qt ->
  linear x (to_like w Qt) = matmul x (to_like w Q).
Proof.
  intros Hwf HT. apply T_shape in HT as (n & m & HsQ & HsQt & Hdt & Hdev & Hdata).
  unfold wf in Hwf. rewrite HsQ in Hwf. cbn in Hwf. rewrite Nat.mul_1_r in Hwf.
  unfold linear, matmul, to_like, to_. cbn [shape dtype device data].
  rewrite HsQt, HsQ. destruct (split_last (shape x)) as [[batch k'] |]; [| done].
  case_bool_decide; [| done]. do 2 f_equal.
  rewrite Hdt, Hdata.
  destruct (decide (dtype Q = dtype w)).
  - rewrite <- (cols_of_length n m (data Q)) at 1.
    by rewrite rows_of_concat by apply cols_of_Forall.
  - rewrite concat_map_map, cols_of_map by done.
    rewrite <- (cols_of_length n m (data Q)) at 1.
    rewrite <- (length_map (map (s_round (dtype w)))).
    rewrite rows_of_concat; [done |].
    apply Forall_forall. intros c Hc.
    apply list_elem_of_fmap in Hc as (c' & -> & Hc').
    rewrite length_map.
    by eapply (proj1 (Forall_forall _ _) (cols_of_Forall n m (data Q))).
Qed.

End OpsSpec.

End TorchSpec.

(* ================================================================== *)
(** * Properties of utils/model_utils.py *)
(* ================================================================== *)

Module ModelUtilsSpec.

Import ModelUtils Examples.

(** ** Classification *)

Section ClassifySpec.
Context {A : Type} `{HasMro A}.

Lemma get_model_type_unfold (model : A) :
  get_model_type model =
    if isinstance model LLAMA_MODEL then Ok LLAMA_MODEL
    else if isinstance model MISTRAL_MODEL then Ok MISTRAL_MODEL
    else if isinstance model QW_MODEL then Ok QW_MODEL
    else Raise ValueError.
Proof.
  unfold get_model_type.
  destruct (isinstance model LLAMA_MODEL); [reflexivity |].
  destruct (isinstance model MISTRAL_MODEL); [reflexivity |].
  destruct (isinstance model QW_MODEL); reflexivity.
Qed.

(** C10: [model_type_extractor] and [get_model_type] agree on every
    object: they return the same supported class, of which the object is
    an instance, exactly when the object is an instance of one of the
    three supported classes, and otherwise both raise [ValueError] (the
    UnsupportedModel failure). *)
Theorem model_type_extractor_get_model_type_equiv (model : A) :
  model_type_extractor model = get_model_type model
  ∧ match model_type_extractor model, get_model_type model with
    | Ok c1, Ok c2 =>
        c1 = c2 ∧ supported model = true ∧ isinstance model c1 = true
        ∧ c1 ∈ [LLAMA_MODEL; MISTRAL_MODEL; QW_MODEL]
    | Raise e1, Raise e2 =>
        e1 = ValueError ∧ e2 = ValueError ∧ supported model = false
    | _, _ => False
    end.
Proof.
  rewrite get_model_type_unfold. unfold model_type_extractor, supported.
  split; [reflexivity |].
  destruct (isinstance model LLAMA_MODEL) eqn:Hl.
  { repeat split; auto. set_solver. }
  destruct (isinstance model MISTRAL_MODEL) eqn:Hm.
  { repeat split; auto. set_solver. }
  destruct (isinstance model QW_MODEL) eqn:Hq.
  { repeat split; auto. set_solver. }
  repeat split; auto.
Qed.

End ClassifySpec.

Example classify_mistral :
  get_model_type (mkPyObject ["MistralForCausalLM"%string; "PreTrainedModel"%string])
  = Ok MISTRAL_MODEL.
Proof. reflexivity. Qed.

Example classify_other :
  model_type_extractor (mkPyObject ["GPT2LMHeadModel"%string; "PreTrainedModel"%string])
  = Raise ValueError.
Proof. reflexivity. Qed.

(** ** Replacement *)

Section ReplaceSpec.
Context `{Builtins}.
Variable type_to_replace : string.
Variable new_module_factory : ModuleTree -> option Z -> ModuleTree.
Variable replace_layers : bool.

#[local] Abbreviation replace_modules := (replace_modules type_to_replace new_module_factory replace_layers).
#[local] Abbreviation matches := (matches type_to_replace).
#[local] Abbreviation replaced := (replaced type_to_replace new_module_factory replace_layers).
#[local] Abbreviation reached := (reached type_to_replace).
#[local] Abbreviation call_of := (call_of replace_layers).
#[local] Abbreviation index_arg := (index_arg replace_layers).
#[local] Abbreviation names_parse := (names_parse type_to_replace replace_layers).
#[local] Abbreviation replace_children :=
  (replace_children type_to_replace new_module_factory replace_layers).
#[local] Abbreviation matches_children := (matches_children type_to_replace).
#[local] Abbreviation replaced_children :=
  (replaced_children type_to_replace new_module_factory replace_layers).

(** Induction over a hierarchy, with the property known of every child. *)
Lemma ModuleTree_ind' (Q : ModuleTree -> Prop) :
  (forall c tag cs, Forall (fun nm => Q nm.2) cs -> Q (MNode c tag cs)) ->
  forall m, Q m.
Proof.
  intros Hstep. fix IH 1. intros [c tag cs]. apply Hstep.
  induction cs as [| [name m] cs IHcs]; constructor; [apply IH | apply IHcs].
Qed.

Lemma replace_modules_unfold (c : list string) (tag : nat)
    (cs : list (string * ModuleTree)) (calls : list FactoryCall) :
  replace_modules (MNode c tag cs) calls =
    (r ← replace_children cs [] calls; Ok (MNode c tag r.1, r.2)).
Proof. reflexivity. Qed.

Lemma unshared_inv (root : ModuleTree) :
  unshared root ->
  NoDup (children root).*2 /\ Forall (fun nm => unshared nm.2) (children root).
Proof. by destruct 1. Qed.

(** An object that was not yielded is not in the memo after another
    object was. *)
Lemma memo_get_fresh (memo : list (ModuleTree * ModuleTree)) (m v : ModuleTree)
    (cs : list (string * ModuleTree)) :
  m ∉ cs.*2 ->
  (forall nm, nm ∈ (cs : list (string * ModuleTree)) -> memo_get memo nm.2 = None) ->
  forall nm, nm ∈ cs -> memo_get ((m, v) :: memo) nm.2 = None.
Proof.
  intros Hfresh Hmemo nm Hin. cbn [memo_get].
  rewrite decide_False; [by apply Hmemo |].
  intros ->. apply Hfresh. apply list_elem_of_fmap. by exists nm.
Qed.

Lemma matches_path_nonempty (root : ModuleTree) (path : list string) (m : ModuleTree) :
  (path, m) ∈ matches root -> path ≠ [].
Proof.
  destruct root as [c tag cs]. cbn [ModelUtils.matches].
  intros Hin. apply list_elem_of_In, in_flat_map in Hin as ([name x] & _ & Hin).
  destruct (isinstance x type_to_replace).
  - apply list_elem_of_In, list_elem_of_singleton in Hin. by injection Hin as -> _.
  - apply list_elem_of_In, list_elem_of_fmap in Hin as (pm & Heq & _).
    by injection Heq as -> _.
Qed.

Lemma last_cons_nonempty {X : Type} (x : X) (l : list X) :
  l ≠ [] -> last (x :: l) = last l.
Proof. destruct l; [done | reflexivity]. Qed.

Lemma call_of_prefix (name : string) (root : ModuleTree) :
  map call_of (map (fun pm : list string * ModuleTree => (name :: pm.1, pm.2)) (matches root))
  = map call_of (matches root).
Proof.
  rewrite map_map. apply map_ext_in. intros [path m] Hin.
  apply list_elem_of_In, matches_path_nonempty in Hin.
  unfold ModelUtils.call_of. cbn [fst snd]. by rewrite last_cons_nonempty.
Qed.

Lemma replaced_leaf (m : ModuleTree) : children m = [] -> replaced m = m.
Proof. destruct m as [c tag cs]. cbn. by intros ->. Qed.

Lemma matches_leaf (m : ModuleTree) : children m = [] -> matches m = [].
Proof. destruct m as [c tag cs]. cbn. by intros ->. Qed.

Lemma replace_children_spec (cs : list (string * ModuleTree)) :
  Forall (fun nm : string * ModuleTree =>
            forall calls, names_parse nm.2 ->
              replace_modules nm.2 calls
              = Ok (replaced nm.2, calls ++ map call_of (matches nm.2))) cs ->
  NoDup cs.*2 ->
  forall memo calls,
    (forall nm, nm ∈ cs -> memo_get memo nm.2 = None) ->
    (replace_layers = true ->
     forall path m, (path, m) ∈ matches_children cs -> is_Some (last path ≫= py_int)) ->
    replace_children cs memo calls
    = Ok (replaced_children cs, calls ++ map call_of (matches_children cs)).
Proof.
  induction 1 as [| [name m] cs Hm _ IH]; intros Hnd memo calls Hmemo Hparse.
  { cbn. by rewrite app_nil_r. }
  cbn [fmap list_fmap snd] in Hnd. apply NoDup_cons in Hnd as [Hfresh Hnd].
  cbn [replace_children matches_children replaced_children flat_map map] in *.
  assert (Hnew : memo_get memo m = None) by (apply (Hmemo (name, m)); by left).
  rewrite Hnew.
  assert (Hmemo' : forall v nm, nm ∈ cs -> memo_get ((m, v) :: memo) nm.2 = None).
  { intros v. apply memo_get_fresh; [done |]. intros nm Hin. apply Hmemo. by right. }
  assert (Hrest : replace_layers = true ->
            forall path x, (path, x) ∈ matches_children cs -> is_Some (last path ≫= py_int)).
  { intros Hl path x Hin. apply (Hparse Hl path x). apply elem_of_app. by right. }
  destruct (isinstance m type_to_replace) eqn:Hinst.
  - assert (Hcall : (if replace_layers then
                      match py_int name with
                      | Some i => Ok (new_module_factory m (Some i), m,
                                      calls ++ [mkCall m (Some i)])
                      | None => Raise ValueError
                      end
                    else Ok (new_module_factory m None, m, calls ++ [mkCall m None]))
                    = Ok (new_module_factory m (index_arg name), m,
                          calls ++ [mkCall m (index_arg name)])).
    { unfold ModelUtils.index_arg. destruct replace_layers eqn:Hl; [| done].
      destruct (Hparse eq_refl [name] m) as [i Hi]; [apply elem_of_app; left; by left |].
      cbn in Hi. by rewrite Hi. }
    rewrite Hcall. cbn [mbind Result_bind bind fst snd].
    rewrite (IH Hnd _ _ (Hmemo' _) Hrest). cbn.
    rewrite <- app_assoc. reflexivity.
  - assert (Hsub : (if bool_decide (0 < length (children m)) then
                      r ← replace_modules m calls; Ok (r.1, r.1, r.2)
                    else Ok (m, m, calls))
                   = Ok (replaced m, replaced m, calls ++ map call_of (matches m))).
    { case_bool_decide as Hlen.
      - rewrite Hm; [done |]. intros Hl path x Hin.
        pose proof (matches_path_nonempty _ _ _ Hin) as Hne.
        rewrite <- (last_cons_nonempty name) by done.
        apply (Hparse Hl (name :: path) x). apply elem_of_app. left.
        apply list_elem_of_fmap. by exists (path, x).
      - assert (children m = []) as Hnil by (destruct (children m); [done | cbn in Hlen; lia]).
        by rewrite replaced_leaf, matches_leaf, app_nil_r. }
    rewrite Hsub. cbn [mbind Result_bind bind fst snd].
    rewrite (IH Hnd _ _ (Hmemo' _) Hrest). cbn.
    by rewrite map_app, call_of_prefix, app_assoc.
Qed.

Lemma replace_modules_total (root : ModuleTree) :
  unshared root ->
  forall calls, names_parse root ->
    replace_modules root calls = Ok (replaced root, calls ++ map call_of (matches root)).
Proof.
  induction root as [c tag cs IH] using ModuleTree_ind'. intros Hu calls Hparse.
  apply unshared_inv in Hu as [Hnd Hall]. cbn [children] in Hnd, Hall.
  rewrite replace_modules_unfold.
  rewrite (replace_children_spec cs); [done | | done | by intros | exact Hparse].
  rewrite Forall_forall in IH, Hall. apply Forall_forall.
  intros nm Hin calls' Hp. by apply IH; [| apply Hall |].
Qed.

(** The matches are the reached instances. *)
Lemma matches_reached (root : ModuleTree) :
  forall path x,
    (path, x) ∈ matches root <-> reached root path x /\ isinstance x type_to_replace = true.
Proof.
  induction root as [c tag cs IH] using ModuleTree_ind'. intros path x.
  cbn [ModelUtils.matches]. split.
  - intros Hin. apply list_elem_of_In, in_flat_map in Hin as ([name m] & Hnm & Hin).
    apply list_elem_of_In in Hnm.
    destruct (isinstance m type_to_replace) eqn:Hinst.
    + apply list_elem_of_In, list_elem_of_singleton in Hin. injection Hin as -> ->.
      split; [by constructor | done].
    + apply list_elem_of_In, list_elem_of_fmap in Hin as ([p y] & Heq & Hin).
      injection Heq as -> ->. cbn [fst snd].
      rewrite Forall_forall in IH. apply (IH _ Hnm) in Hin as [Hr Hi].
      split; [by eapply reached_below | done].
  - intros [Hr Hi]. apply list_elem_of_In, in_flat_map.
    inversion Hr as [r name m Hnm | r name m p y Hnm Hinst Hr']; subst.
    + exists (name, x). split; [by apply list_elem_of_In |]. rewrite Hi. by left.
    + exists (name, m). split; [by apply list_elem_of_In |]. rewrite Hinst.
      apply list_elem_of_In, list_elem_of_fmap. exists (p, x). split; [done |].
      rewrite Forall_forall in IH. by apply (IH _ Hnm).
Qed.

Lemma child_unique (name : string) (m : ModuleTree) (cs : list (string * ModuleTree)) :
  NoDup cs.*1 -> (name, m) ∈ cs -> child name cs = Some m.
Proof.
  induction cs as [| [n x] cs IH]; intros Hnd Hin; [by apply elem_of_nil in Hin |].
  cbn in Hnd. apply NoDup_cons in Hnd as [Hn Hnd]. cbn [child].
  apply elem_of_cons in Hin as [[= <- <-] | Hin].
  - by rewrite bool_decide_eq_true_2.
  - rewrite bool_decide_eq_false_2; [by apply IH |].
    intros ->. apply Hn. apply list_elem_of_fmap. by exists (name, m).
Qed.

Lemma replaced_children_names (cs : list (string * ModuleTree)) :
  (replaced_children cs).*1 = cs.*1.
Proof.
  unfold replaced_children. induction cs as [| [n x] cs IH]; [done |].
  cbn. by rewrite <- IH.
Qed.

Lemma replaced_children_elem (name : string) (m : ModuleTree)
    (cs : list (string * ModuleTree)) :
  (name, m) ∈ cs ->
  (name, if isinstance m type_to_replace then new_module_factory m (index_arg name)
         else replaced m) ∈ replaced_children cs.
Proof.
  intros Hin. unfold replaced_children. apply list_elem_of_fmap. by exists (name, m).
Qed.

Lemma reached_path_nonempty (root : ModuleTree) (path : list string) (x : ModuleTree) :
  reached root path x -> path ≠ [].
Proof. by destruct 1. Qed.

Lemma unique_names_inv (root : ModuleTree) :
  unique_names root ->
  NoDup (children root).*1 /\ Forall (fun nm => unique_names nm.2) (children root).
Proof. by destruct 1. Qed.

(** A reached module is found along its path before the call, and what
    the factory made of a reached instance is found there after it. *)
Lemma reached_lookup (root : ModuleTree) (path : list string) (x : ModuleTree) :
  reached root path x -> unique_names root ->
  lookup_path root path = Some x
  /\ (isinstance x type_to_replace = true ->
      lookup_path (replaced root) path
      = Some (new_module_factory x (last path ≫= index_arg))).
Proof.
  induction 1 as [root name m Hin | root name m path x Hin Hinst Hr IH]; intros Hu.
  - apply unique_names_inv in Hu as [Hnd _]. cbn [lookup_path].
    rewrite (child_unique _ _ _ Hnd Hin). split; [done |]. intros Hi.
    destruct root as [c tag cs]. cbn [ModelUtils.replaced children] in *.
    fold (replaced_children cs).
    rewrite (child_unique name (new_module_factory m (index_arg name))).
    + done.
    + by rewrite replaced_children_names.
    + apply replaced_children_elem in Hin. by rewrite Hi in Hin.
  - apply unique_names_inv in Hu as [Hnd Hall]. cbn [lookup_path].
    rewrite (child_unique _ _ _ Hnd Hin).
    rewrite Forall_forall in Hall. specialize (IH (Hall _ Hin)) as [IH1 IH2].
    split; [done |]. intros Hi.
    destruct root as [c tag cs]. cbn [ModelUtils.replaced children] in *.
    fold (replaced_children cs).
    rewrite (child_unique name (replaced m)).
    + rewrite last_cons_nonempty by (by eapply reached_path_nonempty). by apply IH2.
    + by rewrite replaced_children_names.
    + apply replaced_children_elem in Hin. by rewrite Hinst in Hin.
Qed.

Lemma matches_children_head (cs : list (string * ModuleTree)) (path : list string)
    (x : ModuleTree) :
  (path, x) ∈ matches_children cs ->
  exists name path', path = name :: path' /\ name ∈ cs.*1.
Proof.
  unfold matches_children. intros Hin.
  apply list_elem_of_In, in_flat_map in Hin as ([name m] & Hnm & Hin).
  apply list_elem_of_In in Hnm.
  assert (name ∈ cs.*1) by (apply list_elem_of_fmap; by exists (name, m)).
  destruct (isinstance m type_to_replace).
  - apply list_elem_of_In, list_elem_of_singleton in Hin. injection Hin as -> _. eauto.
  - apply list_elem_of_In, list_elem_of_fmap in Hin as ([p y] & [= -> _] & _). eauto.
Qed.

(** Under unique names no path is matched twice. *)
Lemma matches_NoDup (root : ModuleTree) :
  unique_names root -> NoDup (matches root).*1.
Proof.
  induction root as [c tag cs IH] using ModuleTree_ind'. intros Hu.
  apply unique_names_inv in Hu as [Hnd Hall]. cbn [children] in *.
  cbn [ModelUtils.matches]. fold (matches_children cs).
  induction cs as [| [name m] cs IHcs]; [constructor |].
  cbn in Hnd. apply NoDup_cons in Hnd as [Hname Hnd].
  apply Forall_cons in IH as [IHm IH]. apply Forall_cons in Hall as [Hum Hall].
  cbn [matches_children flat_map]. fold (matches_children cs).
  rewrite fmap_app. apply NoDup_app. split; [| split].
  - destruct (isinstance m type_to_replace); [apply NoDup_singleton |].
    rewrite <- list_fmap_compose.
    change (fst ∘ (fun pm : list string * ModuleTree => (name :: pm.1, pm.2)))
      with ((cons name) ∘ (@fst (list string) ModuleTree)).
    rewrite list_fmap_compose. apply NoDup_fmap_2; [| by apply IHm].
    intros ? ? [=]. done.
  - intros path Hin1 Hin2.
    apply list_elem_of_fmap in Hin2 as ([p x] & -> & Hin2).
    apply matches_children_head in Hin2 as (n & p' & -> & Hn).
    assert (n = name) as ->; [| done].
    destruct (isinstance m type_to_replace).
    + apply list_elem_of_singleton in Hin1. by injection Hin1.
    + apply list_elem_of_fmap in Hin1 as ([p1 y] & Heq & Hin1).
      apply list_elem_of_fmap in Hin1 as ([p2 z] & [= -> ->] & _).
      cbn in Heq. by injection Heq.
  - by apply IHcs.
Qed.

(** C6 (amended): for a hierarchy whose children have distinct names at
    every level, in which no module object is registered under two names
    and, when [replace_layers] is true, whose matching children are
    registered under names [int] accepts, [replace_modules] returns; the
    factory has been called exactly once for every instance of
    [type_to_replace] that is not below another instance, in depth-first
    order and on no other module, with the module alone or, when
    [replace_layers] is true, with the module and the integer parsed from
    its attribute name; and each of these modules, found along its path
    before the call, has the factory's result in its place after it. *)
Theorem replace_modules_spec (root : ModuleTree) (calls : list FactoryCall) :
  unique_names root ->
  unshared root ->
  names_parse root ->
  replace_modules root calls = Ok (replaced root, calls ++ map call_of (matches root))
  /\ NoDup (matches root).*1
  /\ (forall (path : list string) (x : ModuleTree),
        (path, x) ∈ matches root
        <-> reached root path x /\ isinstance x type_to_replace = true)
  /\ (forall (path : list string) (x : ModuleTree),
        (path, x) ∈ matches root ->
        lookup_path root path = Some x
        /\ lookup_path (replaced root) path
           = Some (new_module_factory x (last path ≫= index_arg))).
Proof.
  intros Hu Hun Hparse.
  split; [by apply replace_modules_total |].
  split; [by apply matches_NoDup |].
  split; [apply matches_reached |].
  intros path x Hin. apply matches_reached in Hin as [Hr Hi].
  destruct (reached_lookup _ _ _ Hr Hu) as [H1 H2]. auto.
Qed.

End ReplaceSpec.

(** Decides [unique_names] on a closed hierarchy. *)
Ltac prove_unique_names :=
  repeat first
    [ apply unique_names_node; [apply (bool_decide_unpack _); vm_compute; exact I |]
    | apply List.Forall_cons; cbn [snd]
    | apply List.Forall_nil ].

Lemma hierarchy_unique_names : unique_names hierarchy.
Proof. unfold hierarchy, layer_0, layer_1, inner_layer. prove_unique_names. Qed.

Ltac prove_unshared :=
  repeat first
    [ apply unshared_node
    | apply (bool_decide_unpack _); vm_compute; exact I
    | apply List.Forall_cons
    | apply List.Forall_nil ].

Lemma hierarchy_unshared : unshared hierarchy.
Proof. unfold hierarchy, layer_0, layer_1, inner_layer. prove_unshared. Qed.

Lemma replace_modules_spec_witness :
  replace_modules "LlamaDecoderLayer" indexed_factory true hierarchy []
  = Ok (hierarchy_replaced, [mkCall layer_0 (Some 0%Z); mkCall layer_1 (Some 1%Z)])
  /\ NoDup [["layers"%string; "0"%string]; ["layers"%string; "1"%string]]
  /\ (forall (path : list string) (x : ModuleTree),
        (path, x) ∈ matches "LlamaDecoderLayer" hierarchy
        <-> reached "LlamaDecoderLayer" hierarchy path x
            /\ isinstance x "LlamaDecoderLayer" = true)
  /\ (forall (path : list string) (x : ModuleTree),
        (path, x) ∈ matches "LlamaDecoderLayer" hierarchy ->
        lookup_path hierarchy path = Some x
        /\ lookup_path hierarchy_replaced path
           = Some (indexed_factory x (last path ≫= index_arg true))).
Proof.
  assert (Hm : matches "LlamaDecoderLayer" hierarchy
               = [(["layers"%string; "0"%string], layer_0);
                  (["layers"%string; "1"%string], layer_1)])
    by (vm_compute; reflexivity).
  assert (Hr : replaced "LlamaDecoderLayer" indexed_factory true hierarchy
               = hierarchy_replaced)
    by (vm_compute; reflexivity).
  assert (Hparse : names_parse "LlamaDecoderLayer" true hierarchy).
  { intros _ path m Hin. rewrite Hm in Hin.
    apply elem_of_cons in Hin as [[= -> _] | Hin]; [by eexists |].
    apply list_elem_of_singleton in Hin as [= -> _]. by eexists. }
  pose proof (replace_modules_spec "LlamaDecoderLayer" indexed_factory true hierarchy []
                hierarchy_unique_names hierarchy_unshared Hparse) as Hspec.
  rewrite Hr in Hspec. rewrite Hm in Hspec at 1 2. exact Hspec.
Defined.

(** C6 as stated fails on two hierarchies.  When [replace_layers] is
    true, an instance registered under a name [int] rejects makes the
    call raise [ValueError].  And a module object registered under two
    names is replaced under the first only: [named_children()] yields it
    once, the factory is called once, and the instance is still found
    under the second name after the call. *)
Lemma replace_modules_not_every_hierarchy :
  replace_modules "LlamaRMSNorm" indexed_factory true hierarchy [] = Raise ValueError
  /\ replace_modules "LlamaDecoderLayer" indexed_factory false shared_hierarchy []
     = Ok (shared_hierarchy_replaced, [mkCall layer_1 None])
  /\ lookup_path shared_hierarchy_replaced ["second"%string] = Some layer_1
  /\ isinstance layer_1 "LlamaDecoderLayer" = true.
Proof.
  split; [vm_compute; reflexivity |]. split; [vm_compute; reflexivity |].
  split; reflexivity.
Qed.

(** ** Capturing the inputs and outputs of a layer *)

Section CaptureSpec.
Context {R : Type} `{Scalar R} `{Misc}.

Lemma for_each_invariant {X St : Type} (Inv : nat -> St -> Prop)
    (body : X -> St -> Result St) (l : list X) (s : St) :
  Inv 0 s ->
  (forall i x s, l !! i = Some x -> Inv i s -> exists s', body x s = Ok s' /\ Inv (S i) s') ->
  exists s', for_each body l s = Ok s' /\ Inv (length l) s'.
Proof.
  revert Inv s. induction l as [| x l IH]; intros Inv s Hinit Hstep; [by exists s |].
  destruct (Hstep 0 x s eq_refl Hinit) as (s1 & Hb & Hs1).
  cbn [for_each]. rewrite Hb. cbn.
  apply (IH (fun i => Inv (S i)) s1 Hs1).
  intros i y s2 Hy Hi. by apply (Hstep (S i)).
Qed.

Implicit Types (d : list (string * list (Tensor R))) (st : Captured R).

Lemma dict_append_spec (name : string) (x : Tensor R) d (L : list (Tensor R)) :
  dict_get name d = Some L ->
  exists d', dict_append name x d = Ok d'
    /\ d'.*1 = d.*1
    /\ forall n, dict_get n d' = if bool_decide (n = name) then Some (L ++ [x]) else dict_get n d.
Proof.
  induction d as [| [k v] d IH]; [discriminate |]. cbn [dict_get dict_append].
  case_bool_decide as Hk.
  - intros [= ->]. eexists. split; [done |]. split; [done |].
    intros n. cbn [dict_get]. subst k.
    case_bool_decide; [by rewrite bool_decide_eq_true_2 | by rewrite bool_decide_eq_false_2].
  - intros HL. destruct (IH HL) as (d' & -> & Hkeys & Hget). cbn.
    eexists. split; [done |]. split; [by cbn; rewrite Hkeys |].
    intros n. cbn [dict_get]. case_bool_decide as Hn.
    + subst n. by rewrite bool_decide_eq_false_2.
    + apply Hget.
Qed.

Lemma extends_refl st : extends (fun _ _ => []) st st.
Proof. split; [done |]. intros. by rewrite app_nil_r. Qed.

Lemma extends_trans more1 more2 st1 st2 st3 :
  extends more1 st1 st2 -> extends more2 st2 st3 ->
  extends (fun w name => more1 w name ++ more2 w name) st1 st3.
Proof.
  intros [Hk1 Hg1] [Hk2 Hg2]. split.
  - intros w. by rewrite Hk2, Hk1.
  - intros w name L HL. rewrite app_assoc. by apply Hg2, Hg1.
Qed.

Lemma extends_ext more more' st st' :
  (forall w name, more w name = more' w name) -> extends more st st' -> extends more' st st'.
Proof.
  intros Heq [Hk Hg]. split; [done |]. intros w name L HL. rewrite <- Heq. by apply Hg.
Qed.

Lemma hook_spec (h : Hook) (call : SubCall R) st (x : Tensor R) :
  captured_value (hook_is_input h) call = Some x ->
  is_Some (dict_get (hook_module_name h) (which_dict (hook_captured_vals h) st)) ->
  exists st', hook h call st = Ok st'
    /\ extends (fun w name =>
                  if bool_decide (hook_captured_vals h = w /\ hook_module_name h = name)
                  then [x] else []) st st'.
Proof.
  intros Hval [L HL]. unfold hook.
  assert (Hx : (if hook_is_input h then
                  match sub_input call with
                  | x :: _ => Ok (to_device cpu x)
                  | [] => Raise IndexError
                  end
                else Ok (to_device cpu (sub_output call))) = Ok x).
  { unfold captured_value in Hval. destruct (hook_is_input h).
    - destruct (sub_input call); [discriminate |]. cbn in Hval. by injection Hval as <-.
    - by injection Hval as <-. }
  rewrite Hx. cbn.
  destruct (hook_captured_vals h) eqn:Hw; cbn [which_dict] in HL;
    destruct (dict_append_spec _ x _ _ HL) as (d' & -> & Hkeys & Hget); cbn;
    eexists; (split; [done |]); split.
  - intros [|]; cbn; done.
  - intros [|] name L' HL'; cbn [which_dict captured_inputs captured_outputs] in *.
    + rewrite Hget. case_bool_decide as Hn.
      * subst name. rewrite HL in HL'. injection HL' as <-.
        by rewrite bool_decide_eq_true_2.
      * rewrite HL'. rewrite bool_decide_eq_false_2; [by rewrite app_nil_r |].
        intros [_ ?]. done.
    + rewrite HL'. rewrite bool_decide_eq_false_2; [by rewrite app_nil_r |].
      by intros [? _].
  - intros [|]; cbn; done.
  - intros [|] name L' HL'; cbn [which_dict captured_inputs captured_outputs] in *.
    + rewrite HL'. rewrite bool_decide_eq_false_2; [by rewrite app_nil_r |].
      by intros [? _].
    + rewrite Hget. case_bool_decide as Hn.
      * subst name. rewrite HL in HL'. injection HL' as <-.
        by rewrite bool_decide_eq_true_2.
      * rewrite HL'. rewrite bool_decide_eq_false_2; [by rewrite app_nil_r |].
        intros [_ ?]. done.
Qed.

Lemma keys_present_extends more handles st st' :
  extends more st st' -> keys_present handles st -> keys_present handles st'.
Proof.
  intros [_ Hg] Hk h Hh. destruct (Hk h Hh) as [L HL]. rewrite (Hg _ _ _ HL). eauto.
Qed.

Lemma run_hooks_spec (handles : list (nat * Hook)) (call : SubCall R) st :
  keys_present handles st ->
  (forall h, h ∈ handles -> h.1 = sub_module call ->
     is_Some (captured_value (hook_is_input h.2) call)) ->
  exists st', run_hooks handles call st = Ok st' /\ extends (adds handles call) st st'.
Proof.
  unfold run_hooks. revert st.
  induction handles as [| h handles IH]; intros st Hkeys Hvals.
  { exists st. split; [done | apply extends_refl]. }
  cbn [for_each].
  assert (Hk' : keys_present handles st) by (intros h' Hh'; apply Hkeys; by right).
  assert (Hv' : forall h', h' ∈ handles -> h'.1 = sub_module call ->
                  is_Some (captured_value (hook_is_input h'.2) call))
    by (intros h' Hh'; apply Hvals; by right).
  case_bool_decide as Hmod.
  - destruct (Hvals h ltac:(by left) Hmod) as [x Hx].
    destruct (hook_spec h.2 call st x Hx (Hkeys h ltac:(by left))) as (st1 & -> & Hext1).
    cbn. destruct (IH st1 (keys_present_extends _ _ _ _ Hext1 Hk') Hv') as (st2 & -> & Hext2).
    exists st2. split; [done |].
    eapply extends_ext; [| exact (extends_trans _ _ _ _ _ Hext1 Hext2)].
    intros w name. unfold adds. cbn [flat_map]. f_equal. rewrite Hx. cbn.
    case_bool_decide as Ha; case_bool_decide as Hb; try done; exfalso; apply Hb || apply Ha; tauto.
  - cbn. destruct (IH st Hk' Hv') as (st2 & -> & Hext2).
    exists st2. split; [done |].
    eapply extends_ext; [| exact Hext2].
    intros w name. unfold adds. cbn [flat_map].
    rewrite bool_decide_eq_false_2; [done | tauto].
Qed.

Lemma run_calls_spec (handles : list (nat * Hook)) (calls : list (SubCall R)) st :
  keys_present handles st ->
  (forall call h, call ∈ calls -> h ∈ handles -> h.1 = sub_module call ->
     is_Some (captured_value (hook_is_input h.2) call)) ->
  exists st', for_each (run_hooks handles) calls st = Ok st'
    /\ extends (fun w name => flat_map (fun call => adds handles call w name) calls) st st'.
Proof.
  revert st. induction calls as [| call calls IH]; intros st Hkeys Hvals.
  { exists st. split; [done | apply extends_refl]. }
  cbn [for_each].
  destruct (run_hooks_spec handles call st Hkeys) as (st1 & -> & Hext1).
  { intros h Hh. apply Hvals; [by left | done]. }
  cbn. destruct (IH st1 (keys_present_extends _ _ _ _ Hext1 Hkeys)) as (st2 & -> & Hext2).
  { intros c h Hc. apply Hvals. by right. }
  exists st2. split; [done |]. exact (extends_trans _ _ _ _ _ Hext1 Hext2).
Qed.

(** With distinct keys, only the hook of a key adds under it. *)
Lemma adds_single (handles : list (nat * Hook)) (call : SubCall R) (h : nat * Hook) :
  NoDup (hook_key <$> handles) -> h ∈ handles ->
  adds handles call (hook_captured_vals h.2) (hook_module_name h.2)
  = if bool_decide (h.1 = sub_module call)
    then option_list (captured_value (hook_is_input h.2) call) else [].
Proof.
  induction handles as [| h' handles IH]; intros Hnd Hin; [by apply elem_of_nil in Hin |].
  cbn in Hnd. apply NoDup_cons in Hnd as [Hnotin Hnd].
  assert (Hnone : forall hs : list (nat * Hook),
            hook_key h ∉ hook_key <$> hs ->
            adds hs call (hook_captured_vals h.2) (hook_module_name h.2) = []).
  { clear. intros hs. induction hs as [| g hs IHhs]; intros Hn; [done |].
    unfold adds. cbn [flat_map]. rewrite bool_decide_eq_false_2.
    - apply IHhs. intros Hg. apply Hn. by right.
    - intros (_ & Hw & Hname). apply Hn. apply elem_of_cons. left.
      unfold hook_key. by rewrite Hw, Hname. }
  unfold adds. cbn [flat_map]. fold (adds handles call (hook_captured_vals h.2) (hook_module_name h.2)).
  apply elem_of_cons in Hin as [-> | Hin].
  - rewrite (Hnone handles Hnotin), app_nil_r.
    case_bool_decide as Ha; case_bool_decide as Hb; try done; exfalso; apply Hb || apply Ha; tauto.
  - rewrite (IH Hnd Hin). rewrite bool_decide_eq_false_2; [done |].
    intros (_ & Hw & Hname). apply Hnotin. apply list_elem_of_fmap. exists h.
    split; [| done]. unfold hook_key. by rewrite Hw, Hname.
Qed.

Lemma flat_map_filter {X Y : Type} (Q : X -> Prop) `{forall x, Decision (Q x)}
    (f : X -> list Y) (l : list X) :
  flat_map (fun x => if bool_decide (Q x) then f x else []) l = flat_map f (filter Q l).
Proof.
  induction l as [| x l IH]; [done |]. cbn [flat_map]. rewrite filter_cons.
  case_bool_decide; destruct (decide (Q x)); try done; cbn; by rewrite IH.
Qed.

Lemma called_once_adds (mid : nat) (is_input : bool) (tl : list nat)
    (calls : list (SubCall R)) :
  called_once mid is_input tl calls ->
  (forall call, call ∈ calls -> sub_module call = mid ->
     is_Some (captured_value is_input call))
  /\ exists x, flat_map (fun call => if bool_decide (mid = sub_module call)
                                     then option_list (captured_value is_input call)
                                     else []) calls = [x]
               /\ shape x = 1 :: tl /\ device x = cpu.
Proof.
  intros (call & x & Hf & Hval & Hshape). split.
  - intros c Hc Hmid.
    assert (Hin : c ∈ filter (fun c => sub_module c = mid) calls)
      by (by apply list_elem_of_filter).
    rewrite Hf in Hin. apply list_elem_of_singleton in Hin as ->. by rewrite Hval.
  - exists x. split; [| split; [done |]].
    + rewrite (flat_map_filter (fun c => mid = sub_module c)).
      assert (Heq : filter (fun c => mid = sub_module c) calls
                    = filter (fun c => sub_module c = mid) calls).
      { apply list_filter_iff. intros c. split; by intros ->. }
      rewrite Heq, Hf. cbn. by rewrite Hval.
    + unfold captured_value in Hval. destruct is_input.
      * destruct (head (sub_input call)); [| discriminate]. by injection Hval as <-.
      * by injection Hval as <-.
Qed.

Lemma register_hooks_spec (layer : HookedLayer R) (w : WhichDict) (is_input : bool)
    (names : list string) (handles : list (nat * Hook)) :
  (forall name, name ∈ names -> is_ok (find_module layer name) = true) ->
  register_hooks layer w is_input names handles
  = Ok (handles ++ map (fun name => (module_of layer name, mkHook name w is_input)) names).
Proof.
  unfold register_hooks. revert handles.
  induction names as [| name names IH]; intros handles Hfind; cbn [for_each map].
  { by rewrite app_nil_r. }
  assert (Hname : is_ok (find_module layer name) = true) by (apply Hfind; by left).
  unfold module_of at 1. destruct (find_module layer name) as [m |]; [| discriminate].
  cbn. rewrite IH by (intros n Hn; apply Hfind; by right).
  by rewrite <- app_assoc.
Qed.

Lemma cat0_spec (ts : list (Tensor R)) (tl : list nat) :
  ts ≠ [] ->
  Forall (fun x => shape x = 1 :: tl /\ device x = cpu) ts ->
  exists t, cat0 ts = Ok t /\ shape t = length ts :: tl.
Proof.
  intros Hne Hall. destruct ts as [| t0 ts]; [done |].
  pose proof (Forall_inv Hall) as [Hs0 Hd0].
  unfold cat0. rewrite Hs0.
  assert (Hfb : forallb (fun u => bool_decide (tail (shape u) = tl /\ shape u ≠ []
                                               /\ device u = device t0)) (t0 :: ts) = true).
  { apply forallb_forall. intros u Hu. apply list_elem_of_In in Hu.
    rewrite Forall_forall in Hall. destruct (Hall u Hu) as [Hsu Hdu].
    apply bool_decide_eq_true_2. rewrite Hsu, Hdu, Hd0. done. }
  rewrite Hfb. eexists. split; [done |]. cbn [shape]. f_equal.
  clear -Hall. induction Hall as [| u us [Hsu _] _ IH]; [done |].
  cbn. rewrite Hsu. cbn. by rewrite IH.
Qed.

Lemma handles_keys (layer : HookedLayer R) :
  hook_key <$> (handle_of layer <$> hooked_names)
  = [(CapturedInputs, "k_proj"%string); (CapturedInputs, "o_proj"%string);
     (CapturedInputs, "gate_proj"%string); (CapturedInputs, "down_proj"%string);
     (CapturedOutputs, "v_proj"%string)].
Proof. reflexivity. Qed.

Lemma handles_NoDup (layer : HookedLayer R) :
  NoDup (hook_key <$> (handle_of layer <$> hooked_names)).
Proof.
  rewrite handles_keys. apply (bool_decide_unpack _). vm_compute. exact I.
Qed.

Lemma run_layer_rows (layer : HookedLayer R) (tails : string -> list nat)
    (seq : Tensor R) (calls : list (SubCall R)) (i : nat) st :
  hl_forward layer seq = Ok calls ->
  (forall name, name ∈ hooked_names ->
     called_once (module_of layer name) (captures_input name) (tails name) calls) ->
  captured_rows tails i st ->
  exists st', run_layer layer (handle_of layer <$> hooked_names) seq st = Ok st'
    /\ captured_rows tails (S i) st'.
Proof.
  intros Hfwd Honce (Hkin & Hkout & Hrows).
  unfold run_layer. rewrite Hfwd. cbn.
  destruct (run_calls_spec (handle_of layer <$> hooked_names) calls st)
    as (st' & Hrun & [Hkeys Hget]).
  - intros h Hh. apply list_elem_of_fmap in Hh as (name & -> & Hname).
    destruct (Hrows name Hname) as (L & HL & _). cbn. rewrite HL. eauto.
  - intros call h Hcall Hh Hmod. apply list_elem_of_fmap in Hh as (name & -> & Hname).
    destruct (called_once_adds _ _ _ _ (Honce name Hname)) as [Hsome _].
    cbn in *. by apply Hsome.
  - exists st'. split; [done |]. split; [| split].
    + rewrite <- Hkin. apply (Hkeys CapturedInputs).
    + rewrite <- Hkout. apply (Hkeys CapturedOutputs).
    + intros name Hname. destruct (Hrows name Hname) as (L & HL & Hlen & Hall).
      destruct (called_once_adds _ _ _ _ (Honce name Hname)) as [_ (x & Hx & Hsx & Hdx)].
      exists (L ++ [x]). split; [| split].
      * rewrite (Hget _ _ _ HL). f_equal. f_equal.
        assert (Hin : handle_of layer name ∈ handle_of layer <$> hooked_names)
          by (apply list_elem_of_fmap; by exists name).
        pose proof (fun call => adds_single _ call _ (handles_NoDup layer) Hin) as Hadd.
        cbn [handle_of fst snd hook_captured_vals hook_module_name hook_is_input] in Hadd.
        rewrite <- Hx. apply flat_map_ext. intros call. apply Hadd.
      * rewrite length_app. cbn. lia.
      * apply Forall_app. split; [done |]. by constructor.
Qed.

Lemma cat_all_spec d (tails : string -> list nat) (n : nat) :
  n ≠ 0 -> NoDup d.*1 ->
  (forall name, name ∈ d.*1 ->
     exists L, dict_get name d = Some L /\ length L = n
               /\ Forall (fun x => shape x = 1 :: tails name /\ device x = cpu) L) ->
  exists out : list (string * Tensor R),
    cat_all d = Ok out /\ out.*1 = d.*1
    /\ forall name t, (name, t) ∈ out -> shape t = n :: tails name.
Proof.
  intros Hn. induction d as [| [k v] d IH]; intros Hnd Hrows.
  { exists []. split; [done |]. split; [done |]. intros ? ? Hin. by apply elem_of_nil in Hin. }
  cbn in Hnd. apply NoDup_cons in Hnd as [Hk Hnd].
  destruct (Hrows k ltac:(by left)) as (L & HL & Hlen & Hall).
  cbn [dict_get] in HL. rewrite bool_decide_eq_true_2 in HL by done. injection HL as ->.
  destruct (cat0_spec L (tails k)) as (t & Ht & Hst);
    [by intros ->; cbn in Hlen; lia | done |].
  destruct IH as (out & Hd' & Hkeys & Hshapes); [done | |].
  { intros name Hname. destruct (Hrows name ltac:(by right)) as (L' & HL & HL').
    exists L'. split; [| done]. cbn [dict_get] in HL.
    rewrite bool_decide_eq_false_2 in HL; [done |]. by intros ->. }
  cbn [cat_all]. rewrite Ht. cbn. rewrite Hd'. cbn.
  eexists. split; [done |]. split; [by cbn; rewrite Hkeys |].
  intros name u Hin. apply elem_of_cons in Hin as [[= -> ->] | Hin].
  - by rewrite Hst, Hlen.
  - by apply Hshapes.
Qed.

(** C7 (amended): for every model type other than the Llama class
    [capture_layer_io] raises [ValueError], whatever the layer and the
    batch.  On a Llama layer whose five hooked sublayers exist and are
    each called exactly once, with one row, in every forward pass, and on
    a batch of [N >= 1] sequences, it returns a record whose input keys
    are [k_proj], [o_proj], [gate_proj] and [down_proj], whose only output
    key is [v_proj], and whose tensors all have first dimension [N]. *)
Theorem capture_layer_io_spec (layer : HookedLayer R) (layer_input : Tensor R) :
  (forall (N : nat) (rest : list nat) (tails : string -> list nat),
     shape layer_input = N :: rest ->
     0 < N ->
     (forall name, name ∈ hooked_names -> is_ok (find_module layer name) = true) ->
     (forall i seq, i < N -> slice0 i layer_input = Ok seq ->
        exists calls, hl_forward layer (to_device DEV seq) = Ok calls
          /\ forall name, name ∈ hooked_names ->
               called_once (module_of layer name) (captures_input name) (tails name) calls) ->
     exists io, capture_layer_io LLAMA_MODEL layer layer_input = Ok io
       /\ (io_input io).*1 = ["k_proj"; "o_proj"; "gate_proj"; "down_proj"]%string
       /\ (io_output io).*1 = ["v_proj"%string]
       /\ forall name t, (name, t) ∈ io_input io ++ io_output io -> shape t = N :: tails name)
  /\ (forall model_type, model_type ≠ LLAMA_MODEL ->
        capture_layer_io model_type layer layer_input = Raise ValueError).
Proof.
  split.
  2:{ intros mt Hmt. unfold capture_layer_io. by rewrite bool_decide_eq_false_2. }
  intros N rest tails Hshape HN Hfind Hfwd.
  unfold capture_layer_io. rewrite bool_decide_eq_true_2 by done.
  cbn [fmap list_fmap fst].
  rewrite register_hooks_spec
    by (intros name Hname; apply Hfind, elem_of_app; by left).
  cbn [mbind Result_bind bind].
  rewrite register_hooks_spec
    by (intros name Hname; apply Hfind, elem_of_app; by right).
  cbn [mbind Result_bind bind app].
  change (map _ _ ++ map _ _) with (handle_of layer <$> hooked_names).
  unfold first_dim. rewrite Hshape. cbn [mbind Result_bind bind].
  destruct (for_each_invariant (captured_rows tails)
              (fun seq_idx st =>
                 seq ← slice0 seq_idx layer_input;
                 run_layer layer (handle_of layer <$> hooked_names) (to_device DEV seq) st)
              (seq 0 N)
              (mkCaptured [("k_proj"%string, []); ("o_proj"%string, []);
                           ("gate_proj"%string, []); ("down_proj"%string, [])]
                 [("v_proj"%string, [])]))
    as (st & Hloop & Hkin & Hkout & Hrows).
  - split; [done |]. split; [done |]. intros name Hname.
    exists []. split; [| by split].
    repeat (apply elem_of_cons in Hname as [-> | Hname]; [reflexivity |]).
    by apply elem_of_nil in Hname.
  - intros i x st Hx Hinv. apply lookup_seq in Hx as [-> Hi].
    assert (Hslice : exists seq, slice0 i layer_input = Ok seq)
      by (unfold slice0; rewrite Hshape; eauto).
    destruct Hslice as [seq Hseq]. destruct (Hfwd i seq Hi Hseq) as (calls & Hcalls & Honce).
    cbn beta. change (0 + i) with i. rewrite Hseq. cbn [mbind Result_bind bind]. by eapply run_layer_rows.
  - rewrite Hloop. cbn [mbind Result_bind bind]. rewrite length_seq in Hrows.
    destruct (cat_all_spec (captured_inputs st) tails N) as (ins & -> & Hkins & Hsins).
    + lia.
    + rewrite Hkin. apply (bool_decide_unpack _). vm_compute. exact I.
    + rewrite Hkin. intros name Hname.
      destruct (Hrows name ltac:(apply elem_of_app; by left)) as (L & HL & HL').
      exists L. split; [| done]. unfold captures_input in HL.
      by rewrite bool_decide_eq_true_2 in HL.
    + destruct (cat_all_spec (captured_outputs st) tails N) as (outs & -> & Hkouts & Hsouts).
      * lia.
      * rewrite Hkout. apply NoDup_singleton.
      * rewrite Hkout. intros name Hname.
        destruct (Hrows name ltac:(apply elem_of_app; by right)) as (L & HL & HL').
        exists L. split; [| done].
        apply list_elem_of_singleton in Hname as ->. exact HL.
      * cbn. eexists. split; [done |]. cbn [io_input io_output].
        split; [by rewrite Hkins, Hkin |]. split; [by rewrite Hkouts, Hkout |].
        intros name t Hin. apply elem_of_app in Hin as [Hin | Hin]; eauto.
Qed.

End CaptureSpec.

Lemma example_layer_called_once (i : nat) (seq : Tensor Z) :
  i < 2 -> slice0 i two_sequences = Ok seq ->
  exists calls, hl_forward example_layer (to_device DEV seq) = Ok calls
    /\ forall name, name ∈ hooked_names ->
         called_once (module_of example_layer name) (captures_input name) [1; 2] calls.
Proof.
  intros Hi Hseq. eexists. split; [reflexivity |].
  intros name Hname.
  destruct i as [| [| i]]; [| | lia]; injection Hseq as <-;
    repeat (apply elem_of_cons in Hname as [-> | Hname];
            [eexists _, _; split; [vm_compute; reflexivity |];
             split; [vm_compute; reflexivity | reflexivity] |]);
    by apply elem_of_nil in Hname.
Qed.

Lemma capture_layer_io_spec_witness :
  (exists io, capture_layer_io LLAMA_MODEL example_layer two_sequences = Ok io
     /\ (io_input io).*1 = ["k_proj"; "o_proj"; "gate_proj"; "down_proj"]%string
     /\ (io_output io).*1 = ["v_proj"%string]
     /\ forall name t, (name, t) ∈ io_input io ++ io_output io -> shape t = [2; 1; 2])
  /\ (forall model_type, model_type ≠ LLAMA_MODEL ->
        capture_layer_io model_type example_layer two_sequences = Raise ValueError).
Proof.
  destruct (capture_layer_io_spec example_layer two_sequences) as [Hllama Hother].
  split; [| exact Hother].
  apply (Hllama 2 [1; 2] (fun _ => [1; 2])).
  - reflexivity.
  - lia.
  - intros name Hname.
    repeat (apply elem_of_cons in Hname as [-> | Hname]; [vm_compute; reflexivity |]).
    by apply elem_of_nil in Hname.
  - exact example_layer_called_once.
Defined.

(** What the example returns. *)
Lemma capture_layer_io_two_sequences :
  capture_layer_io LLAMA_MODEL example_layer two_sequences = Ok two_sequences_io.
Proof. vm_compute. reflexivity. Qed.

(** C7 as stated fails for a batch of no sequence: nothing is captured,
    [torch.cat] of an empty list raises and no record is returned. *)
Lemma capture_layer_io_empty_batch :
  first_dim no_sequence = Ok 0
  /\ capture_layer_io LLAMA_MODEL example_layer no_sequence = Raise ValueError.
Proof. split; vm_compute; reflexivity. Qed.

(** ** The path of a captured layer *)

Lemma append_cons (ch : ascii) (a b : string) :
  String ch a +:+ b = String ch (a +:+ b).
Proof. reflexivity. Qed.

Lemma append_nil (b : string) : "" +:+ b = b.
Proof. reflexivity. Qed.

Lemma append_assoc (a b c : string) : (a +:+ b) +:+ c = a +:+ (b +:+ c).
Proof.
  induction a as [| ch a IH]; [by rewrite !append_nil |].
  by rewrite !append_cons, IH.
Qed.

(** [endswith] looks at the last character only. *)
Lemma endswith_sep_append (a : string) (c : ascii) (b : string) :
  endswith_sep (a +:+ String c b) = endswith_sep (String c b).
Proof.
  induction a as [| ch a IH]; [by rewrite append_nil |].
  rewrite append_cons. cbn [endswith_sep]. rewrite IH.
  destruct (a +:+ String c b) eqn:E; [| reflexivity].
  destruct a; discriminate.
Qed.

Lemma append_nonempty (a : string) (c : ascii) (b : string) :
  a +:+ String c b ≠ ""%string.
Proof. destruct a; discriminate. Qed.

(** The formatted index never starts with the separator. *)
Lemma startswith_sep_format (n : Z) (s : string) :
  startswith_sep s = false ->
  startswith_sep (format_03d n +:+ s) = false.
Proof.
  intros Hs. unfold format_03d.
  destruct (n <? 0)%Z; [reflexivity |].
  rewrite append_nil.
  destruct (3 - _ - _); cbn [zero_fill]; [| reflexivity].
  rewrite append_nil. unfold str_of_N.
  destruct (N.to_uint (Z.abs_N n)); try reflexivity. exact Hs.
Qed.

Lemma join_step_dir (p : string) (c : ascii) (b : string) :
  startswith_sep (String c b) = false ->
  join_step p (String c b) = dir_prefix p +:+ String c b.
Proof.
  intros Hb. unfold join_step, dir_prefix. rewrite Hb.
  destruct (bool_decide (p = ""%string) || endswith_sep p); [reflexivity |].
  by rewrite append_assoc.
Qed.

(** The path for every index: the directory prefix [os.path.join] makes
    of [save_path], then [layer_io/], the formatted index and [.pt]. *)
Lemma get_layer_io_save_path_format (args : Args) :
  get_layer_io_save_path args =
    dir_prefix (save_path args) +:+ "layer_io/" +:+ format_03d (layer_idx args) +:+ ".pt".
Proof.
  unfold get_layer_io_save_path, os_path_join. cbn [foldl].
  rewrite (join_step_dir (save_path args)) by reflexivity.
  unfold join_step at 1.
  rewrite startswith_sep_format by reflexivity.
  rewrite endswith_sep_append. cbn [endswith_sep].
  rewrite bool_decide_eq_false_2 by apply append_nonempty.
  cbn [orb]. rewrite (bool_decide_eq_false_2 _); [| discriminate].
  rewrite !append_assoc. reflexivity.
Qed.

(** Indices below one thousand are written with exactly three digits. *)
Lemma format_03d_three_digits (n : Z) :
  (0 <= n < 1000)%Z -> format_03d n = three_digits n.
Proof.
  intros Hn.
  assert (Hall : forallb (fun k => String.eqb (format_03d (Z.of_nat k))
                                     (three_digits (Z.of_nat k))) (seq 0 1000) = true)
    by (vm_compute; reflexivity).
  rewrite forallb_forall in Hall.
  specialize (Hall (Z.to_nat n)).
  rewrite Z2Nat.id in Hall by lia.
  apply String.eqb_eq, Hall, in_seq. lia.
Qed.

(** C9 (amended): for every [save_path] and every layer index,
    [get_layer_io_save_path] returns the path
    [os.path.join(save_path, 'layer_io', f'{layer_idx:03d}.pt')]: the
    directory [save_path], with the separator [os.path.join] inserts after
    it (none when [save_path] is empty or already ends with it), then
    [layer_io/], the index padded with zeros to at least three characters,
    and the extension [.pt].  For an index from 0 to 999 the padded index
    is its three digits. *)
Theorem get_layer_io_save_path_pt (args : Args) :
  get_layer_io_save_path args =
    dir_prefix (save_path args) +:+ "layer_io/" +:+ format_03d (layer_idx args) +:+ ".pt"
  /\ ((0 <= layer_idx args < 1000)%Z ->
      format_03d (layer_idx args) = three_digits (layer_idx args)).
Proof.
  split; [apply get_layer_io_save_path_format | apply format_03d_three_digits].
Qed.

Lemma get_layer_io_save_path_pt_witness :
  get_layer_io_save_path (Build_Args "out" 7) = "out/layer_io/007.pt"%string
  /\ get_layer_io_save_path (Build_Args "out" 1234) = "out/layer_io/1234.pt"%string.
Proof.
  split.
  - destruct (get_layer_io_save_path_pt (Build_Args "out" 7)) as [Hpath Hdigits].
    rewrite Hpath, Hdigits; [reflexivity | cbn; lia].
  - destruct (get_layer_io_save_path_pt (Build_Args "out" 1234)) as [Hpath _].
    rewrite Hpath. reflexivity.
Defined.

(** C9 as stated fails: the returned path is not
    [<save_path>/layer_io/<three-digit index>].  It ends in [.pt]; and
    for an empty [save_path] it does not start with the separator. *)
Lemma get_layer_io_save_path_not_bare :
  get_layer_io_save_path (Build_Args "out" 7) = "out/layer_io/007.pt"%string
  ∧ "out/layer_io/007.pt"%string ≠ ("out" +:+ "/layer_io/" +:+ three_digits 7)%string
  ∧ get_layer_io_save_path (Build_Args "" 7) = "layer_io/007.pt"%string
  ∧ "layer_io/007.pt"%string ≠ ("" +:+ "/layer_io/" +:+ three_digits 7 +:+ ".pt")%string.
Proof.
  split; [reflexivity |]. split; [discriminate |]. split; [reflexivity | discriminate].
Qed.

(** ** More on [replace_modules] *)

Section ReplaceMore.
Context `{Builtins}.
Variable type_to_replace : string.
Variable new_module_factory : ModuleTree -> option Z -> ModuleTree.
Variable replace_layers : bool.

#[local] Abbreviation replace_modules := (replace_modules type_to_replace new_module_factory replace_layers).
#[local] Abbreviation matches := (matches type_to_replace).
#[local] Abbreviation replaced := (replaced type_to_replace new_module_factory replace_layers).
#[local] Abbreviation call_of := (call_of replace_layers).
#[local] Abbreviation index_arg := (index_arg replace_layers).
#[local] Abbreviation names_parse := (names_parse type_to_replace replace_layers).
#[local] Abbreviation replace_children :=
  (replace_children type_to_replace new_module_factory replace_layers).
#[local] Abbreviation matches_children := (matches_children type_to_replace).
#[local] Abbreviation replaced_children :=
  (replaced_children type_to_replace new_module_factory replace_layers).

(** The only way out of [replace_modules] other than a return: a match
    registered under a name [int] rejects, when layers are replaced. *)
Lemma replace_children_raises (cs : list (string * ModuleTree)) :
  Forall (fun nm : string * ModuleTree =>
            forall calls e, replace_modules nm.2 calls = Raise e ->
              e = ValueError /\ replace_layers = true
              /\ exists path m, (path, m) ∈ matches nm.2 /\ last path ≫= py_int = None) cs ->
  forall memo calls e, replace_children cs memo calls = Raise e ->
    e = ValueError /\ replace_layers = true
    /\ exists path m, (path, m) ∈ matches_children cs /\ last path ≫= py_int = None.
Proof.
  induction 1 as [| [name m] cs Hm _ IH]; intros memo calls e Hr; [discriminate |].
  cbn [ModelUtils.replace_children] in Hr.
  cbn [ModelUtils.matches_children flat_map]. fold (matches_children cs).
  assert (Hrest : forall memo1 calls1 e, replace_children cs memo1 calls1 = Raise e ->
            e = ValueError /\ replace_layers = true
            /\ exists path x, (path, x) ∈ (if isinstance m type_to_replace then [([name], m)]
                                            else map (fun pm : list string * ModuleTree =>
                                                        (name :: pm.1, pm.2)) (matches m))
                                           ++ matches_children cs
                              /\ last path ≫= py_int = None).
  { intros memo1 calls1 e1 Hr1.
    destruct (IH _ _ _ Hr1) as (-> & Hl & path & x & Hin & Hnone).
    split; [done |]. split; [done |]. exists path, x. split; [| done].
    apply elem_of_app. by right. }
  destruct (memo_get memo m) as [m' |].
  { destruct (replace_children cs memo calls) as [r2 |] eqn:Hr2; [discriminate |].
    cbn in Hr. injection Hr as <-. by eapply Hrest. }
  destruct (isinstance m type_to_replace) eqn:Hinst.
  - assert (Hcall : (exists r1,
                      (if replace_layers then
                         match py_int name with
                         | Some i => Ok (new_module_factory m (Some i), m,
                                         calls ++ [mkCall m (Some i)])
                         | None => Raise ValueError
                         end
                       else Ok (new_module_factory m None, m, calls ++ [mkCall m None]))
                      = Ok r1)
                    \/ ((if replace_layers then
                           match py_int name with
                           | Some i => Ok (new_module_factory m (Some i), m,
                                           calls ++ [mkCall m (Some i)])
                           | None => Raise ValueError
                           end
                         else Ok (new_module_factory m None, m, calls ++ [mkCall m None]))
                        = Raise ValueError
                        /\ replace_layers = true /\ py_int name = None)).
    { destruct replace_layers; [| eauto]. destruct (py_int name); eauto. }
    destruct Hcall as [[r1 Hr1] | (Hr1 & Hl & Hi)]; rewrite Hr1 in Hr.
    + cbn [mbind Result_bind bind fst snd] in Hr.
      destruct (replace_children cs _ _) as [r2 |] eqn:Hr2; [discriminate |].
      cbn in Hr. injection Hr as <-. by eapply Hrest.
    + cbn in Hr. injection Hr as <-. split; [done |]. split; [done |].
      exists [name], m. split; [apply elem_of_app; left; by left |]. done.
  - destruct (if bool_decide (0 < length (children m)) then
                r ← replace_modules m calls; Ok (r.1, r.1, r.2)
              else Ok (m, m, calls)) as [r1 |] eqn:Hr1.
    + cbn [mbind Result_bind bind fst snd] in Hr.
      destruct (replace_children cs _ _) as [r2 |] eqn:Hr2; [discriminate |].
      cbn in Hr. injection Hr as <-. by eapply Hrest.
    + cbn in Hr. injection Hr as <-.
      case_bool_decide; [| discriminate].
      destruct (replace_modules m calls) as [r |] eqn:Hrm; [discriminate |].
      cbn in Hr1. injection Hr1 as <-.
      destruct (Hm _ _ Hrm) as (-> & Hl & path & x & Hin & Hnone).
      split; [done |]. split; [done |]. exists (name :: path), x. split.
      * apply elem_of_app. left. apply list_elem_of_fmap. by exists (path, x).
      * rewrite last_cons_nonempty; [done |]. by eapply matches_path_nonempty.
Qed.

Lemma replace_modules_raises (root : ModuleTree) :
  forall calls e, replace_modules root calls = Raise e ->
    e = ValueError /\ replace_layers = true
    /\ exists path m, (path, m) ∈ matches root /\ last path ≫= py_int = None.
Proof.
  induction root as [c tag cs IH] using ModuleTree_ind'. intros calls e Hr.
  rewrite replace_modules_unfold in Hr.
  destruct (replace_children cs [] calls) as [r |] eqn:Hc; [discriminate |].
  cbn in Hr. injection Hr as <-.
  exact (replace_children_raises cs IH [] calls e0 Hc).
Qed.

(** When no module object is registered twice, a call that returns has
    parsed the name of every match. *)
Lemma replace_children_returns (cs : list (string * ModuleTree)) :
  Forall (fun nm : string * ModuleTree =>
            forall calls r, replace_modules nm.2 calls = Ok r -> names_parse nm.2) cs ->
  NoDup cs.*2 ->
  forall memo calls r,
    (forall nm, nm ∈ cs -> memo_get memo nm.2 = None) ->
    replace_children cs memo calls = Ok r ->
    replace_layers = true ->
    forall path m, (path, m) ∈ matches_children cs -> is_Some (last path ≫= py_int).
Proof.
  induction 1 as [| [name m] cs Hm _ IH]; intros Hnd memo calls r Hmemo Hr Hl path x Hin.
  { by apply elem_of_nil in Hin. }
  cbn [fmap list_fmap snd] in Hnd. apply NoDup_cons in Hnd as [Hfresh Hnd].
  cbn [ModelUtils.replace_children] in Hr.
  cbn [ModelUtils.matches_children flat_map] in Hin. fold (matches_children cs) in Hin.
  assert (Hnew : memo_get memo m = None) by (apply (Hmemo (name, m)); by left).
  rewrite Hnew in Hr.
  assert (Hmemo' : forall v nm, nm ∈ cs -> memo_get ((m, v) :: memo) nm.2 = None).
  { intros v. apply memo_get_fresh; [done |]. intros nm Hnm. apply Hmemo. by right. }
  destruct (isinstance m type_to_replace) eqn:Hinst.
  - assert (Hcall : forall r1,
              (if replace_layers then
                 match py_int name with
                 | Some i => Ok (new_module_factory m (Some i), m,
                                 calls ++ [mkCall m (Some i)])
                 | None => Raise ValueError
                 end
               else Ok (new_module_factory m None, m, calls ++ [mkCall m None])) = Ok r1 ->
              is_Some (py_int name)).
    { rewrite Hl. destruct (py_int name); [eauto | discriminate]. }
    destruct (if replace_layers then _ else _) as [r1 |] eqn:Hr1; [| discriminate].
    cbn [mbind Result_bind bind] in Hr.
    destruct (replace_children cs _ _) as [r2 |] eqn:Hr2; [| discriminate].
    apply elem_of_app in Hin as [Hin | Hin].
    + apply list_elem_of_singleton in Hin. injection Hin as -> _. cbn. by eapply Hcall.
    + by eapply (IH Hnd _ _ _ (Hmemo' _)).
  - destruct (if bool_decide (0 < length (children m)) then
                r ← replace_modules m calls; Ok (r.1, r.1, r.2)
              else Ok (m, m, calls)) as [r1 |] eqn:Hr1; [| discriminate].
    cbn [mbind Result_bind bind] in Hr.
    destruct (replace_children cs _ _) as [r2 |] eqn:Hr2; [| discriminate].
    apply elem_of_app in Hin as [Hin | Hin]; [| by eapply (IH Hnd _ _ _ (Hmemo' _))].
    apply list_elem_of_fmap in Hin as ([p y] & [= -> ->] & Hin). cbn [fst snd].
    rewrite last_cons_nonempty by (by eapply matches_path_nonempty).
    case_bool_decide as Hlen.
    + destruct (replace_modules m calls) as [rm |] eqn:Hrm; [| discriminate].
      by apply (Hm _ _ Hrm Hl p y).
    + assert (children m = []) as Hnil by (destruct (children m); [done | cbn in Hlen; lia]).
      rewrite (matches_leaf _ _ Hnil) in Hin. by apply elem_of_nil in Hin.
Qed.

Lemma replace_modules_returns (root : ModuleTree) :
  unshared root ->
  forall calls r, replace_modules root calls = Ok r -> names_parse root.
Proof.
  induction root as [c tag cs IH] using ModuleTree_ind'. intros Hu calls r Hr.
  apply unshared_inv in Hu as [Hnd Hall]. cbn [children] in Hnd, Hall.
  rewrite replace_modules_unfold in Hr.
  destruct (replace_children cs [] calls) as [r' |] eqn:Hc; [| discriminate].
  intros Hl path m Hin.
  refine (replace_children_returns cs _ Hnd [] calls r' _ Hc Hl path m Hin); [| by intros].
  rewrite Forall_forall in IH, Hall. apply Forall_forall.
  intros nm Hnm calls1 r1. apply IH; [done | by apply Hall].
Qed.

(** The loop keeps the names and their order. *)
Lemma replace_children_names (cs : list (string * ModuleTree)) :
  forall memo calls r, replace_children cs memo calls = Ok r -> r.1.*1 = cs.*1.
Proof.
  induction cs as [| [name m] cs IH]; intros memo calls r Hr.
  { by injection Hr as <-. }
  cbn [ModelUtils.replace_children] in Hr.
  destruct (memo_get memo m) as [m' |].
  - destruct (replace_children cs memo calls) as [r2 |] eqn:Hr2; [| discriminate].
    cbn in Hr. injection Hr as <-. cbn. f_equal. by eapply IH.
  - destruct (if isinstance m type_to_replace then _ else _) as [r1 |]; [| discriminate].
    cbn [mbind Result_bind bind] in Hr.
    destruct (replace_children cs _ _) as [r2 |] eqn:Hr2; [| discriminate].
    cbn in Hr. injection Hr as <-. cbn. f_equal. by eapply IH.
Qed.

(** Where nothing matches, the loop changes nothing, whatever object is
    registered twice. *)
Lemma memo_get_same (memo : list (ModuleTree * ModuleTree)) (m m' : ModuleTree) :
  Forall (fun kv => kv.1 = kv.2) memo -> memo_get memo m = Some m' -> m' = m.
Proof.
  induction 1 as [| [k v] memo Hkv _ IH]; [discriminate |].
  cbn [memo_get]. destruct (decide (k = m)) as [<- |]; [| done].
  intros [= <-]. done.
Qed.

Lemma replace_children_no_match (cs : list (string * ModuleTree)) :
  Forall (fun nm : string * ModuleTree =>
            matches nm.2 = [] -> forall calls, replace_modules nm.2 calls = Ok (nm.2, calls))
    cs ->
  matches_children cs = [] ->
  forall memo calls,
    Forall (fun kv => kv.1 = kv.2) memo ->
    replace_children cs memo calls = Ok (cs, calls).
Proof.
  induction 1 as [| [name m] cs Hm _ IH]; intros Hnone memo calls Hsame; [done |].
  cbn [ModelUtils.matches_children flat_map] in Hnone. fold (matches_children cs) in Hnone.
  apply app_eq_nil in Hnone as [Hhead Hnone].
  cbn [ModelUtils.replace_children].
  destruct (memo_get memo m) as [m' |] eqn:Hget.
  { apply (memo_get_same _ _ _ Hsame) in Hget as ->. by rewrite (IH Hnone). }
  destruct (isinstance m type_to_replace); [discriminate |].
  apply fmap_nil_inv in Hhead.
  assert (Hsub : (if bool_decide (0 < length (children m)) then
                    r ← replace_modules m calls; Ok (r.1, r.1, r.2)
                  else Ok (m, m, calls)) = Ok (m, m, calls)).
  { case_bool_decide; [| done]. by rewrite (Hm Hhead). }
  rewrite Hsub. cbn [mbind Result_bind bind fst snd].
  rewrite (IH Hnone); [done |]. by constructor.
Qed.

Lemma replace_modules_no_match (root : ModuleTree) :
  matches root = [] -> forall calls, replace_modules root calls = Ok (root, calls).
Proof.
  induction root as [c tag cs IH] using ModuleTree_ind'. intros Hnone calls.
  rewrite replace_modules_unfold.
  by rewrite (replace_children_no_match cs IH Hnone [] calls).
Qed.

(** X12: on a hierarchy in which no module object is registered under
    two names, [replace_modules] either returns or raises [ValueError].
    It returns exactly when, if layers are replaced, every reached
    instance is registered under a name [int] accepts, and then the
    hierarchy holds the factory's results and the factory was called once
    per reached instance, in order; it raises exactly when layers are
    replaced and some reached instance has a name [int] rejects. *)
Theorem replace_modules_outcome (root : ModuleTree) (calls : list FactoryCall) :
  unshared root ->
  match replace_modules root calls with
  | Ok r => names_parse root
            /\ r = (replaced root, calls ++ map call_of (matches root))
  | Raise e => e = ValueError /\ replace_layers = true
               /\ exists path m, (path, m) ∈ matches root /\ last path ≫= py_int = None
  end.
Proof.
  intros Hu. destruct (replace_modules root calls) as [r |] eqn:Hr.
  - pose proof (replace_modules_returns root Hu calls r Hr) as Hparse.
    split; [done |].
    rewrite (replace_modules_total _ _ _ root Hu calls Hparse) in Hr.
    by injection Hr as <-.
  - exact (replace_modules_raises root calls e Hr).
Qed.

(** X13: when [replace_modules] returns, the root keeps its classes (it is
    never replaced itself, even when it is an instance of
    [type_to_replace]) and its children keep their names and order; if no
    reached module is an instance, the hierarchy is returned as it was
    and the factory is not called. *)
Theorem replace_modules_frame (root root' : ModuleTree) (calls calls' : list FactoryCall) :
  replace_modules root calls = Ok (root', calls') ->
  mro root' = mro root
  /\ (children root').*1 = (children root).*1
  /\ (matches root = [] -> root' = root /\ calls' = calls).
Proof.
  intros Hr. split; [| split].
  - destruct root as [c tag cs]. rewrite replace_modules_unfold in Hr.
    destruct (replace_children cs [] calls) as [r |]; [| discriminate].
    cbn in Hr. by injection Hr as <- _.
  - destruct root as [c tag cs]. rewrite replace_modules_unfold in Hr.
    destruct (replace_children cs [] calls) as [r |] eqn:Hc; [| discriminate].
    cbn in Hr. injection Hr as <- _. cbn [children].
    by eapply replace_children_names.
  - intros Hnone. rewrite (replace_modules_no_match root Hnone) in Hr.
    by injection Hr as <- <-.
Qed.

Lemma replaced_mro (root : ModuleTree) : mro (replaced root) = mro root.
Proof. by destruct root. Qed.

Lemma matches_replaced (root : ModuleTree) :
  (forall m idx, isinstance (new_module_factory m idx) type_to_replace = false
                 /\ matches (new_module_factory m idx) = []) ->
  matches (replaced root) = [].
Proof.
  intros Hfac. induction root as [c tag cs IH] using ModuleTree_ind'.
  cbn [ModelUtils.matches ModelUtils.replaced].
  induction cs as [| [name m] cs IHcs]; [done |].
  apply Forall_cons in IH as [IHm IH]. cbn [flat_map map].
  rewrite (IHcs IH), app_nil_r.
  destruct (isinstance m type_to_replace) eqn:Hinst.
  - destruct (Hfac m (index_arg name)) as [-> ->]. done.
  - unfold isinstance in *. rewrite replaced_mro, Hinst. cbn [snd] in IHm. by rewrite IHm.
Qed.

(** X14: replacement is stable on a hierarchy in which no module object
    is registered under two names.  When the modules the factory makes
    are not instances of [type_to_replace] and hold no reachable
    instance, a second call on what the first call returned changes
    nothing and calls the factory no more. *)
Theorem replace_modules_stable (root root' : ModuleTree) (calls calls' : list FactoryCall) :
  unshared root ->
  (forall m idx, isinstance (new_module_factory m idx) type_to_replace = false
                 /\ matches (new_module_factory m idx) = []) ->
  replace_modules root calls = Ok (root', calls') ->
  replace_modules root' calls' = Ok (root', calls').
Proof.
  intros Hu Hfac Hr. pose proof (replace_modules_returns root Hu calls _ Hr) as Hparse.
  rewrite (replace_modules_total _ _ _ root Hu calls Hparse) in Hr.
  injection Hr as <- <-.
  apply replace_modules_no_match. by apply matches_replaced.
Qed.

End ReplaceMore.

Lemma replace_modules_outcome_witness :
  names_parse "LlamaDecoderLayer" true hierarchy
  /\ replace_modules "LlamaDecoderLayer" indexed_factory true hierarchy []
     = Ok (hierarchy_replaced, [mkCall layer_0 (Some 0%Z); mkCall layer_1 (Some 1%Z)]).
Proof.
  pose proof (replace_modules_outcome "LlamaDecoderLayer" indexed_factory true hierarchy []
                hierarchy_unshared) as Hout.
  assert (Hr : replace_modules "LlamaDecoderLayer" indexed_factory true hierarchy []
               = Ok (hierarchy_replaced,
                     [mkCall layer_0 (Some 0%Z); mkCall layer_1 (Some 1%Z)]))
    by (vm_compute; reflexivity).
  rewrite Hr in Hout. destruct Hout as [Hparse _]. by split.
Defined.

Lemma replace_modules_frame_witness :
  mro hierarchy_replaced = mro hierarchy
  /\ (children hierarchy_replaced).*1 = (children hierarchy).*1
  /\ (matches "LlamaDecoderLayer" hierarchy = [] ->
      hierarchy_replaced = hierarchy
      /\ [mkCall layer_0 (Some 0%Z); mkCall layer_1 (Some 1%Z)] = []).
Proof.
  apply (replace_modules_frame "LlamaDecoderLayer" indexed_factory true hierarchy
           hierarchy_replaced [] [mkCall layer_0 (Some 0%Z); mkCall layer_1 (Some 1%Z)]).
  vm_compute. reflexivity.
Defined.

Lemma replace_modules_stable_witness :
  replace_modules "LlamaDecoderLayer" indexed_factory true hierarchy_replaced
    [mkCall layer_0 (Some 0%Z); mkCall layer_1 (Some 1%Z)]
  = Ok (hierarchy_replaced, [mkCall layer_0 (Some 0%Z); mkCall layer_1 (Some 1%Z)]).
Proof.
  apply (replace_modules_stable "LlamaDecoderLayer" indexed_factory true hierarchy
           hierarchy_replaced [] [mkCall layer_0 (Some 0%Z); mkCall layer_1 (Some 1%Z)]).
  - exact hierarchy_unshared.
  - intros m idx. split; reflexivity.
  - vm_compute. reflexivity.
Defined.


(** ** More on [capture_layer_io] *)

Section CaptureMore.
Context {R : Type} `{Scalar R} `{Misc}.

Implicit Types (d : list (string * list (Tensor R))) (st : Captured R).

Lemma captures_adds (mid : nat) (is_input : bool) (calls : list (SubCall R)) (x : Tensor R) :
  captures mid is_input calls x ->
  (forall call, call ∈ calls -> sub_module call = mid ->
     is_Some (captured_value is_input call))
  /\ flat_map (fun call => if bool_decide (mid = sub_module call)
                           then option_list (captured_value is_input call)
                           else []) calls = [x]
  /\ device x = cpu.
Proof.
  intros (call & Hf & Hval). split; [| split].
  - intros c Hc Hmid.
    assert (Hin : c ∈ filter (fun c => sub_module c = mid) calls)
      by (by apply list_elem_of_filter).
    rewrite Hf in Hin. apply list_elem_of_singleton in Hin as ->. by rewrite Hval.
  - rewrite (flat_map_filter (fun c => mid = sub_module c)).
    assert (Heq : filter (fun c => mid = sub_module c) calls
                  = filter (fun c => sub_module c = mid) calls).
    { apply list_filter_iff. intros c. split; by intros ->. }
    rewrite Heq, Hf. cbn. by rewrite Hval.
  - unfold captured_value in Hval. destruct is_input.
    + destruct (head (sub_input call)); [| discriminate]. by injection Hval as <-.
    + by injection Hval as <-.
Qed.

Lemma run_layer_upto (layer : HookedLayer R) (cap : nat -> string -> Tensor R)
    (seq : Tensor R) (calls : list (SubCall R)) (i : nat) st :
  hl_forward layer seq = Ok calls ->
  (forall name, name ∈ hooked_names ->
     captures (module_of layer name) (captures_input name) calls (cap i name)) ->
  captured_upto cap i st ->
  exists st', run_layer layer (handle_of layer <$> hooked_names) seq st = Ok st'
    /\ captured_upto cap (S i) st'.
Proof.
  intros Hfwd Hcap (Hkin & Hkout & Hrows).
  unfold run_layer. rewrite Hfwd. cbn.
  destruct (run_calls_spec (handle_of layer <$> hooked_names) calls st)
    as (st' & Hrun & [Hkeys Hget]).
  - intros h Hh. apply list_elem_of_fmap in Hh as (name & -> & Hname).
    cbn. rewrite (Hrows name Hname). eauto.
  - intros call h Hcall Hh Hmod. apply list_elem_of_fmap in Hh as (name & -> & Hname).
    destruct (captures_adds _ _ _ _ (Hcap name Hname)) as [Hsome _].
    cbn in *. by apply Hsome.
  - exists st'. split; [done |]. split; [| split].
    + rewrite <- Hkin. apply (Hkeys CapturedInputs).
    + rewrite <- Hkout. apply (Hkeys CapturedOutputs).
    + intros name Hname.
      destruct (captures_adds _ _ _ _ (Hcap name Hname)) as (_ & Hx & _).
      rewrite (Hget _ _ _ (Hrows name Hname)). f_equal.
      rewrite seq_S, map_app. cbn [map Nat.add]. f_equal.
      assert (Hin : handle_of layer name ∈ handle_of layer <$> hooked_names)
        by (apply list_elem_of_fmap; by exists name).
      pose proof (fun call => adds_single _ call _ (handles_NoDup layer) Hin) as Hadd.
      cbn [handle_of fst snd hook_captured_vals hook_module_name hook_is_input] in Hadd.
      rewrite <- Hx. apply flat_map_ext. intros call. apply Hadd.
Qed.

Lemma cat0_content (ts : list (Tensor R)) (t0 : Tensor R) (tl : list nat) :
  head ts = Some t0 ->
  Forall (fun x => tail (shape x) = tl /\ shape x ≠ [] /\ device x = cpu) ts ->
  cat0 ts
  = Ok (mkTensor (sum_list (map (fun u => default 0 (head (shape u))) ts) :: tl)
          (dtype t0) cpu (concat (map data ts))).
Proof.
  intros Hhd Hall. destruct ts as [| t ts]; [discriminate |]. injection Hhd as ->.
  pose proof (Forall_inv Hall) as (Hs0 & Hne0 & Hd0).
  unfold cat0. destruct (shape t0) as [| n tl0] eqn:Hst; [done |].
  cbn in Hs0. subst tl0.
  assert (Hfb : forallb (fun u => bool_decide (tail (shape u) = tl /\ shape u ≠ []
                                               /\ device u = device t0)) (t0 :: ts) = true).
  { apply forallb_forall. intros u Hu. apply list_elem_of_In in Hu.
    rewrite Forall_forall in Hall. destruct (Hall u Hu) as (Hsu & Hnu & Hdu).
    apply bool_decide_eq_true_2. by rewrite Hd0. }
  rewrite Hfb. by rewrite Hd0.
Qed.

Lemma cat_all_content d (tails : string -> list nat) :
  NoDup d.*1 ->
  (forall name L, (name, L) ∈ d ->
     L ≠ [] /\ Forall (fun x => tail (shape x) = tails name /\ shape x ≠ []
                                /\ device x = cpu) L) ->
  exists out : list (string * Tensor R),
    cat_all d = Ok out
    /\ forall name L t0, dict_get name d = Some L -> head L = Some t0 ->
         dict_get name out
         = Some (mkTensor (sum_list (map (fun u => default 0 (head (shape u))) L)
                           :: tails name)
                   (dtype t0) cpu (concat (map data L))).
Proof.
  induction d as [| [k v] d IH]; intros Hnd Hrows.
  { exists []. split; [done |]. intros ? ? ? [=]. }
  cbn in Hnd. apply NoDup_cons in Hnd as [Hk Hnd].
  destruct (Hrows k v ltac:(by left)) as [Hne Hall].
  destruct v as [| t0 v]; [done |].
  destruct IH as (out & Hd' & Hget); [done | |].
  { intros name L Hin. apply Hrows. by right. }
  cbn [cat_all]. rewrite (cat0_content _ t0 (tails k)) by done.
  cbn [mbind Result_bind bind]. rewrite Hd'. cbn [mbind Result_bind bind].
  eexists. split; [done |].
  intros name L t1 HL Ht1. cbn [dict_get] in *.
  case_bool_decide as Hname.
  - subst name. injection HL as <-. by injection Ht1 as <-.
  - by apply Hget.
Qed.

Lemma dict_get_elem {V : Type} (name : string) (v : V) (d : list (string * V)) :
  dict_get name d = Some v -> (name, v) ∈ d.
Proof.
  induction d as [| [k u] d IH]; [discriminate |]. cbn [dict_get].
  case_bool_decide as Hk.
  - intros [= ->]. subst k. by left.
  - intros Hg. right. by apply IH.
Qed.

Lemma dict_get_unique {V : Type} (name : string) (v : V) (d : list (string * V)) :
  NoDup d.*1 -> (name, v) ∈ d -> dict_get name d = Some v.
Proof.
  induction d as [| [k u] d IH]; intros Hnd Hin; [by apply elem_of_nil in Hin |].
  cbn in Hnd. apply NoDup_cons in Hnd as [Hk Hnd]. cbn [dict_get].
  apply elem_of_cons in Hin as [[= <- <-] | Hin].
  - by rewrite bool_decide_eq_true_2.
  - rewrite bool_decide_eq_false_2; [by apply IH |].
    intros ->. apply Hk. apply list_elem_of_fmap. by exists (name, v).
Qed.

(** X15: on a Llama layer whose five hooked sublayers exist and are each
    called exactly once in every forward pass, [capture_layer_io] on a
    batch of [N >= 1] sequences returns, under every hooked name, the
    concatenation in batch order of what was captured from each sequence,
    when the captures under one name agree in dtype and in every
    dimension but the first: the tensor is on the CPU, has that dtype, and
    its entries are those captured from sequence 0, then those from
    sequence 1, and so on; its first dimension is the sum of the first
    dimensions of the captures. *)
Theorem capture_layer_io_batch_order (layer : HookedLayer R) (layer_input : Tensor R)
    (N : nat) (rest : list nat) (tails : string -> list nat)
    (cap : nat -> string -> Tensor R) :
  shape layer_input = N :: rest ->
  0 < N ->
  (forall name, name ∈ hooked_names -> is_ok (find_module layer name) = true) ->
  (forall i seq, i < N -> slice0 i layer_input = Ok seq ->
     exists calls, hl_forward layer (to_device DEV seq) = Ok calls
       /\ forall name, name ∈ hooked_names ->
            captures (module_of layer name) (captures_input name) calls (cap i name)) ->
  (forall i name, i < N -> name ∈ hooked_names ->
     tail (shape (cap i name)) = tails name /\ shape (cap i name) ≠ []
     /\ dtype (cap i name) = dtype (cap 0 name)) ->
  exists io, capture_layer_io LLAMA_MODEL layer layer_input = Ok io
    /\ forall name, name ∈ hooked_names ->
         dict_get name (io_dict io name)
         = Some (mkTensor
                   (sum_list (map (fun i => default 0 (head (shape (cap i name)))) (seq 0 N))
                    :: tails name)
                   (dtype (cap 0 name)) cpu
                   (concat (map (fun i => data (cap i name)) (seq 0 N)))).
Proof.
  intros Hshape HN Hfind Hfwd Htails.
  unfold capture_layer_io. rewrite bool_decide_eq_true_2 by done.
  cbn [fmap list_fmap fst].
  rewrite register_hooks_spec
    by (intros name Hname; apply Hfind, elem_of_app; by left).
  cbn [mbind Result_bind bind].
  rewrite register_hooks_spec
    by (intros name Hname; apply Hfind, elem_of_app; by right).
  cbn [mbind Result_bind bind app].
  change (map _ _ ++ map _ _) with (handle_of layer <$> hooked_names).
  unfold first_dim. rewrite Hshape. cbn [mbind Result_bind bind].
  destruct (for_each_invariant
              (fun i st => captured_upto cap i st
                           /\ forall j name, j < i -> name ∈ hooked_names ->
                                device (cap j name) = cpu)
              (fun seq_idx st =>
                 seq ← slice0 seq_idx layer_input;
                 run_layer layer (handle_of layer <$> hooked_names) (to_device DEV seq) st)
              (seq 0 N)
              (mkCaptured [("k_proj"%string, []); ("o_proj"%string, []);
                           ("gate_proj"%string, []); ("down_proj"%string, [])]
                 [("v_proj"%string, [])]))
    as (st & Hloop & (Hkin & Hkout & Hrows) & Hcpu).
  - split; [| intros; lia]. split; [done |]. split; [done |]. intros name Hname.
    repeat (apply elem_of_cons in Hname as [-> | Hname]; [reflexivity |]).
    by apply elem_of_nil in Hname.
  - intros i x st Hx [Hinv Hdev]. apply lookup_seq in Hx as [-> Hi].
    assert (Hslice : exists seq, slice0 i layer_input = Ok seq)
      by (unfold slice0; rewrite Hshape; eauto).
    destruct Hslice as [seq Hseq]. destruct (Hfwd i seq Hi Hseq) as (calls & Hcalls & Hcap).
    cbn beta. change (0 + i) with i. rewrite Hseq. cbn [mbind Result_bind bind].
    destruct (run_layer_upto layer cap _ calls i st Hcalls Hcap Hinv) as (st' & Hst' & Hinv').
    exists st'. split; [done |]. split; [done |].
    intros j name Hj Hname. destruct (decide (j = i)) as [-> | Hne].
    + by destruct (captures_adds _ _ _ _ (Hcap name Hname)) as (_ & _ & ?).
    + apply Hdev; [lia | done].
  - rewrite Hloop. cbn [mbind Result_bind bind]. rewrite length_seq in Hrows, Hcpu.
    assert (Hall : forall name, name ∈ hooked_names ->
              map (fun j => cap j name) (seq 0 N) ≠ []
              /\ Forall (fun x => tail (shape x) = tails name /\ shape x ≠ []
                                  /\ device x = cpu)
                   (map (fun j => cap j name) (seq 0 N))).
    { intros name Hname. split.
      - destruct N; [lia | done].
      - apply Forall_forall. intros x Hx. apply list_elem_of_fmap in Hx as (j & -> & Hj).
        apply list_elem_of_In, in_seq in Hj.
        destruct (Htails j name) as (? & ? & _); [lia | done |]. split; [done |]. split; [done |].
        apply Hcpu; [lia | done]. }
    assert (Hndin : NoDup (captured_inputs st).*1)
      by (rewrite Hkin; apply (bool_decide_unpack _); vm_compute; exact I).
    assert (Hndout : NoDup (captured_outputs st).*1)
      by (rewrite Hkout; apply NoDup_singleton).
    destruct (cat_all_content (captured_inputs st) tails Hndin) as (ins & -> & Hins).
    { intros name L Hin.
      assert (Hname : name ∈ input_names)
        by (rewrite <- Hkin; apply list_elem_of_fmap; by exists (name, L)).
      pose proof (Hrows name ltac:(apply elem_of_app; by left)) as HL.
      unfold captures_input in HL. rewrite bool_decide_eq_true_2 in HL by done.
      cbn [which_dict] in HL. rewrite (dict_get_unique _ _ _ Hndin Hin) in HL.
      injection HL as ->. apply Hall, elem_of_app. by left. }
    destruct (cat_all_content (captured_outputs st) tails Hndout) as (outs & -> & Houts).
    { intros name L Hin.
      assert (Hname : name ∈ output_names)
        by (rewrite <- Hkout; apply list_elem_of_fmap; by exists (name, L)).
      pose proof (Hrows name ltac:(apply elem_of_app; by right)) as HL.
      apply list_elem_of_singleton in Hname as ->. cbn [which_dict] in HL.
      change (captures_input "v_proj") with false in HL. cbn [which_dict] in HL.
      rewrite (dict_get_unique _ _ _ Hndout Hin) in HL.
      injection HL as ->. apply Hall, elem_of_app. right. by left. }
    cbn [mbind Result_bind bind]. eexists. split; [done |].
    intros name Hname. pose proof (Hrows name Hname) as HL.
    unfold io_dict. cbn [io_input io_output].
    assert (Hhd : head (map (fun j => cap j name) (seq 0 N)) = Some (cap 0 name))
      by (destruct N; [lia | done]).
    destruct (captures_input name); cbn [which_dict] in HL.
    + rewrite (Hins _ _ _ HL Hhd). by rewrite !map_map.
    + rewrite (Houts _ _ _ HL Hhd). by rewrite !map_map.
Qed.

Lemma find_module_raises (layer : HookedLayer R) (name : string) :
  is_ok (find_module layer name) = false -> find_module layer name = Raise AttributeError.
Proof.
  unfold find_module. destruct (hl_self_attn layer !! name); [discriminate |].
  by destruct (hl_mlp layer !! name).
Qed.

Lemma register_hooks_missing (layer : HookedLayer R) (w : WhichDict) (is_input : bool)
    (names : list string) (handles : list (nat * Hook)) (name : string) :
  name ∈ names -> is_ok (find_module layer name) = false ->
  register_hooks layer w is_input names handles = Raise AttributeError.
Proof.
  unfold register_hooks. revert handles.
  induction names as [| n names IH]; intros handles Hin Hmiss;
    [by apply elem_of_nil in Hin |].
  cbn [for_each].
  destruct (is_ok (find_module layer n)) eqn:Hn.
  - assert (name ∈ names) as Hin'
      by (apply elem_of_cons in Hin as [-> | Hin]; [congruence | done]).
    destruct (find_module layer n) as [m |]; [| discriminate]. cbn. by apply IH.
  - by rewrite (find_module_raises _ _ Hn).
Qed.

Lemma register_hooks_raises (layer : HookedLayer R) (w : WhichDict) (is_input : bool)
    (names : list string) (handles : list (nat * Hook)) (e : PyError) :
  register_hooks layer w is_input names handles = Raise e -> e = AttributeError.
Proof.
  unfold register_hooks. revert handles.
  induction names as [| n names IH]; intros handles Hr; [discriminate |].
  cbn [for_each] in Hr. unfold find_module in Hr.
  destruct (hl_self_attn layer !! n); cbn in Hr; [by eapply IH |].
  destruct (hl_mlp layer !! n); cbn in Hr; [by eapply IH | by injection Hr].
Qed.

(** X16: if one of the five hooked names resolves to no attribute of
    [layer.self_attn] or [layer.mlp], [capture_layer_io] raises
    [AttributeError] on a Llama layer, whatever the batch: the name is
    looked up before the layer runs. *)
Theorem capture_layer_io_missing_sublayer (layer : HookedLayer R) (layer_input : Tensor R)
    (name : string) :
  name ∈ hooked_names ->
  is_ok (find_module layer name) = false ->
  capture_layer_io LLAMA_MODEL layer layer_input = Raise AttributeError.
Proof.
  intros Hname Hmiss. unfold capture_layer_io. rewrite bool_decide_eq_true_2 by done.
  cbn [fmap list_fmap fst].
  apply elem_of_app in Hname as [Hname | Hname].
  - by rewrite (register_hooks_missing layer CapturedInputs true _ [] name).
  - destruct (register_hooks layer CapturedInputs true _ []) as [handles | e] eqn:Hin.
    + cbn [mbind Result_bind bind].
      by rewrite (register_hooks_missing layer CapturedOutputs false _ handles name).
    + by rewrite (register_hooks_raises _ _ _ _ _ _ Hin).
Qed.

(** X17: on a Llama layer whose five hooked sublayers exist,
    [capture_layer_io] fails without running the layer when there is no
    sequence to run it on: with [IndexError] on a batch of no dimension,
    and with [ValueError] (from [torch.cat] of an empty list) on a batch
    whose first dimension is zero. *)
Theorem capture_layer_io_no_sequence (layer : HookedLayer R) (layer_input : Tensor R) :
  (forall name, name ∈ hooked_names -> is_ok (find_module layer name) = true) ->
  (shape layer_input = [] ->
   capture_layer_io LLAMA_MODEL layer layer_input = Raise IndexError)
  /\ (forall rest, shape layer_input = 0 :: rest ->
      capture_layer_io LLAMA_MODEL layer layer_input = Raise ValueError).
Proof.
  intros Hfind.
  assert (Hreg : forall k : list (nat * Hook) -> Result (LayerIO R),
            (handles ← register_hooks layer CapturedInputs true
                         ["k_proj"; "o_proj"; "gate_proj"; "down_proj"]%string [];
             handles ← register_hooks layer CapturedOutputs false ["v_proj"%string] handles;
             k handles)
            = k (handle_of layer <$> hooked_names)).
  { intros k.
    rewrite register_hooks_spec
      by (intros name Hname; apply Hfind, elem_of_app; by left).
    cbn [mbind Result_bind bind].
    rewrite register_hooks_spec
      by (intros name Hname; apply Hfind, elem_of_app; by right).
    reflexivity. }
  split.
  - intros Hs. unfold capture_layer_io. rewrite bool_decide_eq_true_2 by done.
    cbn [fmap list_fmap fst]. rewrite Hreg. unfold first_dim. by rewrite Hs.
  - intros rest Hs. unfold capture_layer_io. rewrite bool_decide_eq_true_2 by done.
    cbn [fmap list_fmap fst]. rewrite Hreg. unfold first_dim. by rewrite Hs.
Qed.

End CaptureMore.

Lemma example_layer_captures (i : nat) (seq : Tensor Z) :
  i < 2 -> slice0 i two_sequences = Ok seq ->
  exists calls, hl_forward example_layer (to_device DEV seq) = Ok calls
    /\ forall name, name ∈ hooked_names ->
         captures (module_of example_layer name) (captures_input name) calls
           (example_capture i name).
Proof.
  intros Hi Hseq. eexists. split; [reflexivity |].
  intros name Hname.
  destruct i as [| [| i]]; [| | lia]; injection Hseq as <-;
    repeat (apply elem_of_cons in Hname as [-> | Hname];
            [eexists; split; vm_compute; reflexivity |]);
    by apply elem_of_nil in Hname.
Qed.

Lemma example_layer_sublayers (name : string) :
  name ∈ hooked_names -> is_ok (find_module example_layer name) = true.
Proof.
  intros Hname.
  repeat (apply elem_of_cons in Hname as [-> | Hname]; [vm_compute; reflexivity |]).
  by apply elem_of_nil in Hname.
Qed.

Lemma capture_layer_io_batch_order_witness :
  exists io, capture_layer_io LLAMA_MODEL example_layer two_sequences = Ok io
    /\ forall name, name ∈ hooked_names ->
         dict_get name (io_dict io name)
         = Some (mkTensor
                   (sum_list (map (fun i => default 0 (head (shape (example_capture i name))))
                                (seq 0 2))
                    :: [1; 2])
                   (dtype (example_capture 0 name)) cpu
                   (concat (map (fun i => data (example_capture i name)) (seq 0 2)))).
Proof.
  apply (capture_layer_io_batch_order example_layer two_sequences 2 [1; 2]
           (fun _ => [1; 2]) example_capture).
  - reflexivity.
  - lia.
  - exact example_layer_sublayers.
  - exact example_layer_captures.
  - intros i name _ _. unfold example_capture.
    destruct (bool_decide (name = "v_proj"%string));
      (split; [reflexivity | split; [discriminate | reflexivity]]).
Defined.

Lemma capture_layer_io_missing_sublayer_witness :
  capture_layer_io LLAMA_MODEL headless_layer two_sequences = Raise AttributeError.
Proof.
  apply (capture_layer_io_missing_sublayer headless_layer two_sequences "v_proj").
  - unfold hooked_names, input_names, output_names. set_solver.
  - vm_compute. reflexivity.
Defined.

Lemma capture_layer_io_no_sequence_witness :
  capture_layer_io LLAMA_MODEL example_layer no_sequence = Raise ValueError.
Proof.
  exact (proj2 (capture_layer_io_no_sequence example_layer no_sequence
                  example_layer_sublayers) [1; 2] eq_refl).
Defined.

(** ** Paths of different layers *)

Lemma uint_of_string_zero_fill (k : nat) (s : string) (d : Decimal.uint) :
  NilEmpty.uint_of_string s = Some d ->
  exists d', NilEmpty.uint_of_string (zero_fill k +:+ s) = Some d'
             /\ N.of_uint d' = N.of_uint d.
Proof.
  intros Hs. induction k as [| k (d' & Hd' & Hv)]; [by exists d |].
  exists (Decimal.D0 d'). cbn [zero_fill]. rewrite append_cons.
  cbn [NilEmpty.uint_of_string]. rewrite Hd'. done.
Qed.

Lemma not_minus_zero_fill (k : nat) (n : N) :
  match zero_fill k +:+ str_of_N n with
  | String "-" _ => False
  | _ => True
  end.
Proof.
  destruct k as [| k]; [| done]. cbn [zero_fill]. rewrite append_nil.
  unfold str_of_N. by destruct (N.to_uint n).
Qed.

(** The formatted index reads back as the index. *)
Lemma read_index_format_03d (n : Z) : read_index (format_03d n) = Some n.
Proof.
  unfold format_03d.
  set (k := 3 - _ - _).
  destruct (uint_of_string_zero_fill k (str_of_N (Z.abs_N n)) (N.to_uint (Z.abs_N n)))
    as (d' & Hd' & Hv); [apply NilEmpty.usu |].
  rewrite DecimalN.Unsigned.of_to in Hv.
  destruct (n <? 0)%Z eqn:Hneg.
  - rewrite append_cons, append_nil. cbn [read_index]. rewrite Hd'. cbn.
    rewrite Hv. f_equal. apply Z.ltb_lt in Hneg. lia.
  - rewrite append_nil. apply Z.ltb_ge in Hneg.
    pose proof (not_minus_zero_fill k (Z.abs_N n)) as Hnm.
    unfold read_index.
    destruct (zero_fill k +:+ str_of_N (Z.abs_N n)) as [| c s] eqn:E.
    + rewrite Hd'. cbn. rewrite Hv. f_equal. lia.
    + destruct (Ascii.eqb_spec c "-") as [-> | Hc]; [done |].
      assert (Hgoal : (d ← NilEmpty.uint_of_string (String c s); Some (Z.of_N (N.of_uint d)))
                      = Some n).
      { rewrite Hd'. cbn. rewrite Hv. f_equal. lia. }
      destruct c as [[] [] [] [] [] [] [] []]; try exact Hgoal. done.
Qed.

Lemma append_inj_l (a b c : string) : a +:+ b = a +:+ c -> b = c.
Proof.
  induction a as [| ch a IH]; [by rewrite !append_nil |].
  rewrite !append_cons. intros [= Heq]. by apply IH.
Qed.

Lemma string_length_append (a b : string) :
  String.length (a +:+ b) = String.length a + String.length b.
Proof.
  induction a as [| ch a IH]; [by rewrite append_nil |].
  rewrite append_cons. cbn. by rewrite IH.
Qed.

Lemma append_inj_r (a b c : string) : a +:+ c = b +:+ c -> a = b.
Proof.
  revert b. induction a as [| ch a IH]; intros b Heq.
  - destruct b as [| ch' b]; [done |].
    apply (f_equal String.length) in Heq. rewrite append_nil, string_length_append in Heq.
    cbn in Heq. lia.
  - destruct b as [| ch' b].
    + apply (f_equal String.length) in Heq. rewrite append_nil, string_length_append in Heq.
      cbn in Heq. lia.
    + rewrite !append_cons in Heq. injection Heq as -> Heq. f_equal. by apply IH.
Qed.

(** X18: for one [save_path], different layer indices give different
    paths, whatever their sign or size: the index is read back from the
    file name the path ends with. *)
Theorem get_layer_io_save_path_injective (save_path : string) (i j : Z) :
  get_layer_io_save_path (Build_Args save_path i)
  = get_layer_io_save_path (Build_Args save_path j) ->
  i = j.
Proof.
  rewrite !get_layer_io_save_path_format. cbn [ModelUtils.save_path layer_idx].
  intros Heq.
  apply append_inj_l, append_inj_l in Heq.
  apply append_inj_r in Heq.
  apply (f_equal read_index) in Heq. rewrite !read_index_format_03d in Heq.
  by injection Heq.
Qed.

Lemma get_layer_io_save_path_injective_witness :
  get_layer_io_save_path (Build_Args "out" 7) = "out/layer_io/007.pt"%string /\ 7%Z = 7%Z.
Proof.
  split; [reflexivity |].
  apply (get_layer_io_save_path_injective "out" 7 7). reflexivity.
Defined.

(** ** Loading and the accessors *)

Lemma prefix_occurs (pat s : string) :
  String.prefix pat s = true <-> exists post, s = pat +:+ post.
Proof.
  revert s. induction pat as [| c pat IH]; intros s.
  - split; [intros _; exists s; by rewrite append_nil | intros _; by destruct s].
  - destruct s as [| c' s].
    + split; [done | intros [post Hp]; discriminate].
    + cbn [String.prefix]. destruct (Ascii.ascii_dec c c') as [-> | Hne].
      * rewrite IH. split; intros [post Hp]; exists post.
        -- by rewrite append_cons, Hp.
        -- rewrite append_cons in Hp. by injection Hp.
      * split; [done |]. intros [post Hp]. rewrite append_cons in Hp. by injection Hp.
Qed.

Lemma contains_occurs (pat s : string) : contains pat s = true <-> occurs pat s.
Proof.
  unfold occurs. induction s as [| c s IH]; cbn [contains].
  - rewrite prefix_occurs. split.
    + intros [post Hp]. exists ""%string, post. by rewrite append_nil.
    + intros (pre & post & Hp). destruct pre; [| discriminate].
      rewrite append_nil in Hp. by exists post.
  - rewrite orb_true_iff, prefix_occurs, IH. split.
    + intros [[post Hp] | (pre & post & Hp)].
      * exists ""%string, post. by rewrite append_nil.
      * exists (String c pre), post. by rewrite append_cons, Hp.
    + intros (pre & post & Hp). destruct pre as [| c' pre].
      * left. rewrite append_nil in Hp. by exists post.
      * right. rewrite append_cons in Hp. injection Hp as _ Hp. by exists pre, post.
Qed.

Section LoadingSpec.
Context {R : Type} `{Hub R}.

(** X19: [get_model] chooses the loader by the first of the substrings
    [llama], [mistral], [qwen] that occurs in the lower-cased identifier,
    in this order, and gives it the identifier as it was written; the
    loader sets the three initializers of [torch.nn.init] to [skip],
    whether or not loading succeeds, and a model it returns has [seqlen]
    2048; the Qwen loader gives a model with tied embeddings a head whose
    weight is the embedding weight.  An identifier in which none of the
    three occurs raises [ValueError] and leaves the initializers as they
    were. *)
Theorem get_model_dispatch (model_name : string) (hf_token : option string)
    (init : TorchInit) :
  (occurs "llama" (lower model_name) ->
   get_model model_name hf_token init = get_llama model_name hf_token init)
  /\ (~ occurs "llama" (lower model_name) -> occurs "mistral" (lower model_name) ->
      get_model model_name hf_token init = get_mistral model_name hf_token init)
  /\ (~ occurs "llama" (lower model_name) -> ~ occurs "mistral" (lower model_name) ->
      occurs "qwen" (lower model_name) ->
      get_model model_name hf_token init = get_qwen model_name hf_token init)
  /\ (~ occurs "llama" (lower model_name) -> ~ occurs "mistral" (lower model_name) ->
      ~ occurs "qwen" (lower model_name) ->
      get_model model_name hf_token init = (Raise ValueError, init))
  /\ (forall loader, loader ∈ [get_llama; get_mistral; get_qwen] ->
        (loader model_name hf_token init).2 = skip_init
        /\ forall model, (loader model_name hf_token init).1 = Ok model ->
             pt_seqlen model = Some 2048%Z)
  /\ (forall model, (get_qwen model_name hf_token init).1 = Ok model ->
        pt_tie_word_embeddings model = true ->
        weight (lm_head (pt_model model))
        = embed_tokens (Transformers.model (pt_model model))).
Proof.
  unfold get_model. rewrite <- !contains_occurs.
  split; [by intros -> |].
  split; [intros Hl Hm; apply not_true_is_false in Hl; by rewrite Hl, Hm |].
  split; [intros Hl Hm Hq; apply not_true_is_false in Hl, Hm; by rewrite Hl, Hm, Hq |].
  split; [intros Hl Hm Hq; apply not_true_is_false in Hl, Hm, Hq; by rewrite Hl, Hm, Hq |].
  split.
  - intros loader Hloader. split.
    + repeat (apply elem_of_cons in Hloader as [-> | Hloader]; [reflexivity |]).
      by apply elem_of_nil in Hloader.
    + intros model Hmodel.
      repeat (apply elem_of_cons in Hloader as [-> | Hloader];
              [cbn in Hmodel; destruct (from_pretrained _ _ _ _ _); [| discriminate];
               cbn in Hmodel; by injection Hmodel as <- |]).
      by apply elem_of_nil in Hloader.
  - intros model Hmodel Htie. cbn in Hmodel.
    destruct (from_pretrained _ _ _ _ _) as [loaded |]; [| discriminate].
    cbn in Hmodel. injection Hmodel as <-. cbn in Htie. cbn. by rewrite Htie.
Qed.

End LoadingSpec.

Section AccessorsSpec.
Context {R : Type}.

(** X20: the accessors agree.  On a model of a supported family,
    [get_layers(model)] and [get_transformer_layers(model, model_type)]
    return the same layers, [get_embeddings] the one embedding and
    [get_lm_head] the head, for the [model_type] that [get_model_type]
    returns; on any other model [get_model_type] raises [ValueError]
    while [get_layers] and [get_rope_function_name] raise
    [NotImplementedError]; and the accessors that take a [model_type]
    raise [ValueError] for every value that is not one of the three
    classes, whatever the model. *)
Theorem accessors_agree (model : CausalLM R) :
  match get_model_type model with
  | Ok model_type =>
      get_layers model = Ok (layers (Transformers.model model))
      /\ get_transformer_layers model model_type = Ok (layers (Transformers.model model))
      /\ get_embeddings model model_type = Ok [embed_tokens (Transformers.model model)]
      /\ get_lm_head model model_type = Ok (lm_head model)
      /\ get_rope_function_name model = Ok "apply_rotary_pos_emb"%string
  | Raise e =>
      e = ValueError
      /\ get_layers model = Raise NotImplementedError
      /\ get_rope_function_name model = Raise NotImplementedError
  end
  /\ forall model_type, model_type ∉ [LLAMA_MODEL; MISTRAL_MODEL; QW_MODEL] ->
       get_transformer_layers model model_type = Raise ValueError
       /\ get_embeddings model model_type = Raise ValueError
       /\ get_lm_head model model_type = Raise ValueError.
Proof.
  split.
  - rewrite get_model_type_unfold. unfold get_layers, get_rope_function_name.
    destruct (isinstance model LLAMA_MODEL); [done |].
    destruct (isinstance model MISTRAL_MODEL); [done |].
    by destruct (isinstance model QW_MODEL).
  - intros mt Hmt.
    unfold get_transformer_layers, get_embeddings, get_lm_head.
    rewrite !bool_decide_eq_false_2; [done | | |]; intros ->; apply Hmt; set_solver.
Qed.

End AccessorsSpec.

End ModelUtilsSpec.

(* ================================================================== *)
(** * Properties of utils/rotation_utils.py *)
(* ================================================================== *)

Module RotationUtilsSpec.

Import ModelUtils RotationUtils TorchSpec Examples.

(** ** Layer-norm fusion *)

Section FusionSpec.
Context {R : Type} `{Scalar R}.

Lemma ones_like_all_ones (t : Tensor R) : all_ones_like t (ones_like t).
Proof.
  unfold all_ones_like, ones_like, wf. cbn [shape dtype device data].
  repeat split; [apply length_replicate |].
  apply Forall_forall. intros e He. by apply elem_of_replicate in He as [-> _].
Qed.

Lemma map_result_Forall2 {X Y : Type} (f : X -> Result Y) (l : list X) (l' : list Y) :
  map_result f l = Ok l' -> Forall2 (fun x y => f x = Ok y) l l'.
Proof.
  revert l'; induction l as [| x l IH]; intros l' Hm; cbn in Hm.
  - injection Hm as <-. constructor.
  - destruct (f x) as [y |] eqn:Hfx; [| discriminate]. cbn in Hm.
    destruct (map_result f l) as [ys |]; [| discriminate]. cbn in Hm.
    injection Hm as <-. constructor; [done | by apply IH].
Qed.

Lemma fuse_ln_linear_step_folded (ln : Norm R) (lin lin' : Linear R) :
  fuse_ln_linear_step ln lin = Ok lin' -> scale_folded ln lin lin'.
Proof.
  unfold fuse_ln_linear_step, scale_folded. intros Hstep.
  destruct (mul_bcast _ _) as [W' |]; [| discriminate]. cbn in Hstep.
  exists W'. split; [done |].
  destruct (norm_bias ln) as [b |].
  - destruct (matvec _ _) as [Wb |]; [| discriminate]. cbn in Hstep.
    destruct (add_vec _ _) as [b' |]; [| discriminate]. cbn in Hstep.
    by injection Hstep as <-.
  - by injection Hstep as <-.
Qed.

(** Entry by entry: for a weight of shape [(o, i)] and a scale of shape
    [(i,)], the entry in row [r] and column [c] is multiplied by entry
    [c] of the scale. *)
Lemma nth_flat_map_blocks {X : Type} (g : nat -> list X) (n a o r c : nat) (d : X) :
  (forall j, length (g j) = n) -> r < o -> c < n ->
  nth (r * n + c) (flat_map g (seq a o)) d = nth c (g (a + r)) d.
Proof.
  intros Hlen. revert a r. induction o as [| o IH]; intros a r Hr Hc; [lia |].
  cbn [seq flat_map]. destruct r as [| r].
  - rewrite Nat.add_0_r. cbn. rewrite app_nth1 by (rewrite Hlen; lia). done.
  - rewrite app_nth2 by (rewrite Hlen; lia). rewrite Hlen.
    replace (S r * n + c - n) with (r * n + c) by lia.
    rewrite IH by lia. f_equal. f_equal. lia.
Qed.

Lemma mul_bcast_entry (W v W' : Tensor R) (o i r c : nat) :
  shape W = [o; i] -> shape v = [i] -> i ≠ 1 ->
  mul_bcast W v = Ok W' -> r < o -> c < i ->
  shape W' = [o; i]
  /\ nth (r * i + c) (data W') s_zero
     = s_round (dtype W)
         (s_mul (nth (r * i + c) (data W) s_zero) (nth c (data v) s_zero)).
Proof.
  intros HsW Hsv Hi Hmul Hr Hc. unfold mul_bcast in Hmul. rewrite HsW, Hsv in Hmul.
  case_bool_decide; [| discriminate]. injection Hmul as <-.
  cbn [shape data]. rewrite Nat.max_id. split; [done |].
  rewrite (nth_flat_map_blocks _ i) by (try done; intros; by rewrite length_map, length_seq).
  rewrite (nth_indep _ _ (s_round (dtype W)
             (s_mul (nth (r * i + (if bool_decide (i = 1) then 0 else 0)) (data W) s_zero)
                    (nth (if bool_decide (i = 1) then 0 else 0) (data v) s_zero))))
    by (by rewrite length_map, length_seq).
  rewrite (map_nth (fun c => s_round (dtype W) (s_mul
             (nth (0 + r * i + (if bool_decide (i = 1) then 0 else c)) (data W) s_zero)
             (nth (if bool_decide (i = 1) then 0 else c) (data v) s_zero))) (seq 0 i) 0 c).
  rewrite seq_nth by done. rewrite !bool_decide_eq_false_2 by done. done.
Qed.

Lemma fuse_layer_fused (model_type : string) (layer layer' : DecoderLayer R) :
  fuse_layer model_type layer = Ok layer' -> layer_fused layer layer'.
Proof.
  unfold fuse_layer, fuse_ln_linear. intros Hf.
  destruct (_ || _); [| discriminate].
  cbn [map_result] in Hf.
  destruct (fuse_ln_linear_step _ (up_proj _)) as [up |] eqn:Hup; [| discriminate].
  cbn in Hf.
  destruct (fuse_ln_linear_step _ (gate_proj _)) as [gate |] eqn:Hgate; [| discriminate].
  cbn in Hf.
  destruct (fuse_ln_linear_step _ (q_proj _)) as [q |] eqn:Hq; [| discriminate].
  cbn in Hf.
  destruct (fuse_ln_linear_step _ (k_proj _)) as [k |] eqn:Hk; [| discriminate].
  cbn in Hf.
  destruct (fuse_ln_linear_step _ (v_proj _)) as [v |] eqn:Hv; [| discriminate].
  cbn in Hf. injection Hf as <-.
  unfold layer_fused. cbn.
  repeat split; try (by apply fuse_ln_linear_step_folded);
    match goal with |- context [ones_like ?t] => apply (ones_like_all_ones t) end.
Qed.

(** C2: when [fuse_layer_norms(model)] returns, the model is of one of
    the three supported families; in every transformer layer the
    post-attention scale has been folded into [up_proj] and [gate_proj]
    and the pre-attention scale into [q_proj], [k_proj] and [v_proj]; the
    final norm's scale has been folded into the head; and the scale of
    every one of these norms is all ones. *)
Theorem fuse_layer_norms_spec (model model' : CausalLM R) :
  fuse_layer_norms model = Ok model' ->
  supported model = true
  /\ Forall2 layer_fused (layers (Transformers.model model))
       (layers (Transformers.model model'))
  /\ scale_folded (norm (Transformers.model model)) (lm_head model) (lm_head model')
  /\ all_ones_like (norm_weight (norm (Transformers.model model)))
       (norm_weight (norm (Transformers.model model'))).
Proof.
  unfold fuse_layer_norms. intros Hf.
  pose proof (ModelUtilsSpec.get_model_type_unfold model) as Hty.
  destruct (get_model_type model) as [model_type |] eqn:Hmt; [| discriminate].
  cbn in Hf.
  assert (Hsup : supported model = true).
  { unfold supported. symmetry in Hty.
    destruct (isinstance model LLAMA_MODEL); [done |].
    destruct (isinstance model MISTRAL_MODEL); [done |].
    by destruct (isinstance model QW_MODEL). }
  destruct (get_transformer_layers model model_type) as [ls |] eqn:Hls; [| discriminate].
  cbn in Hf.
  assert (ls = layers (Transformers.model model)) as ->.
  { unfold get_transformer_layers in Hls.
    repeat (case_bool_decide; [by injection Hls |]). discriminate. }
  destruct (map_result _ _) as [ls' |] eqn:Hmap; [| discriminate]. cbn in Hf.
  unfold fuse_ln_linear in Hf. cbn [map_result] in Hf.
  destruct (fuse_ln_linear_step _ (lm_head model)) as [head |] eqn:Hhead; [| discriminate].
  cbn in Hf. injection Hf as <-. cbn.
  split; [done |]. split; [| split].
  - apply map_result_Forall2 in Hmap.
    eapply Forall2_impl; [exact Hmap |]. intros l l' Hl.
    exact (fuse_layer_fused _ _ _ Hl).
  - by apply fuse_ln_linear_step_folded.
  - apply ones_like_all_ones.
Qed.

Lemma fuse_ln_linear_step_returns (ln : Norm R) (lin : Linear R) :
  fusable ln lin -> exists lin', fuse_ln_linear_step ln lin = Ok lin'.
Proof.
  intros (Hb & Hdev & o & i & Hw & Hs). unfold fuse_ln_linear_step, mul_bcast.
  cbn [double to_ shape device]. rewrite Hw, Hs.
  rewrite bool_decide_eq_true_2 by (split; [by left | done]).
  cbn. rewrite Hb. eauto.
Qed.

Lemma map_result_returns {X Y : Type} (f : X -> Result Y) (l : list X) :
  Forall (fun x => exists y, f x = Ok y) l -> exists l', map_result f l = Ok l'.
Proof.
  induction 1 as [| x l [y Hy] _ [l' IH]]; [by exists [] |].
  cbn. rewrite Hy. cbn. rewrite IH. cbn. eauto.
Qed.

Lemma fuse_layer_returns (model_type : string) (layer : DecoderLayer R) :
  model_type ∈ [LLAMA_MODEL; MISTRAL_MODEL; QW_MODEL] ->
  layer_fusable layer -> exists layer', fuse_layer model_type layer = Ok layer'.
Proof.
  intros Hty (Hup & Hgate & Hq & Hk & Hv). unfold fuse_layer, fuse_ln_linear.
  assert (Hguard : bool_decide (model_type = LLAMA_MODEL)
                   || bool_decide (model_type = MISTRAL_MODEL)
                   || bool_decide (model_type = QW_MODEL) = true).
  { repeat (apply elem_of_cons in Hty as [-> | Hty]; [reflexivity |]).
    by apply elem_of_nil in Hty. }
  rewrite Hguard. cbn [map_result].
  destruct (fuse_ln_linear_step_returns _ _ Hup) as [? ->].
  destruct (fuse_ln_linear_step_returns _ _ Hgate) as [? ->].
  destruct (fuse_ln_linear_step_returns _ _ Hq) as [? ->].
  destruct (fuse_ln_linear_step_returns _ _ Hk) as [? ->].
  destruct (fuse_ln_linear_step_returns _ _ Hv) as [? ->].
  cbn. eauto.
Qed.

(** X3: [fuse_layer_norms] returns on every supported model whose bias-free
    norms have the width of the layers they feed. *)
Lemma fuse_layer_norms_returns (model : CausalLM R) :
  supported model = true ->
  Forall layer_fusable (layers (Transformers.model model)) ->
  fusable (norm (Transformers.model model)) (lm_head model) ->
  exists model', fuse_layer_norms model = Ok model'.
Proof.
  intros Hsup Hlayers Hhead. unfold fuse_layer_norms.
  rewrite ModelUtilsSpec.get_model_type_unfold. unfold supported in Hsup.
  assert (Hty : exists model_type,
            (if isinstance model LLAMA_MODEL then Ok LLAMA_MODEL
             else if isinstance model MISTRAL_MODEL then Ok MISTRAL_MODEL
             else if isinstance model QW_MODEL then Ok QW_MODEL
             else Raise ValueError) = Ok model_type
            /\ model_type ∈ [LLAMA_MODEL; MISTRAL_MODEL; QW_MODEL]).
  { destruct (isinstance model LLAMA_MODEL); [eexists; split; [done | set_solver] |].
    destruct (isinstance model MISTRAL_MODEL); [eexists; split; [done | set_solver] |].
    destruct (isinstance model QW_MODEL); [eexists; split; [done | set_solver] |].
    discriminate. }
  destruct Hty as (model_type & -> & Hty). cbn [mbind Result_bind bind].
  assert (Hget : get_transformer_layers model model_type
                 = Ok (layers (Transformers.model model))).
  { repeat (apply elem_of_cons in Hty as [-> | Hty]; [reflexivity |]).
    by apply elem_of_nil in Hty. }
  rewrite Hget. cbn [mbind Result_bind bind].
  destruct (map_result_returns (fuse_layer model_type) (layers (Transformers.model model)))
    as [layers' ->].
  { eapply Forall_impl; [exact Hlayers |]. intros layer Hl. by apply fuse_layer_returns. }
  cbn [mbind Result_bind bind]. unfold fuse_ln_linear. cbn [map_result].
  destruct (fuse_ln_linear_step_returns _ _ Hhead) as [head ->]. cbn. eauto.
Qed.

End FusionSpec.

Lemma fuse_layer_norms_spec_witness :
  supported tiny_llama = true
  /\ Forall2 layer_fused (layers (Transformers.model tiny_llama))
       (layers (Transformers.model tiny_llama_fused))
  /\ scale_folded (norm (Transformers.model tiny_llama)) (lm_head tiny_llama)
       (lm_head tiny_llama_fused)
  /\ all_ones_like (norm_weight (norm (Transformers.model tiny_llama)))
       (norm_weight (norm (Transformers.model tiny_llama_fused))).
Proof.
  apply (fuse_layer_norms_spec tiny_llama tiny_llama_fused).
  vm_compute. reflexivity.
Defined.

(** ** Online rotation *)

Section OnlineRotationSpec.
Context {R P A : Type} `{Scalar R} `{QuantKernels R P} `{HadamardKernel R}.

Implicit Types module : NNModule R P A.

Lemma hasattr_buffer module (name : string) (b : Tensor R * bool) :
  m_buffers module !! name = Some b -> hasattr module name = true.
Proof. intros Hb. unfold hasattr. apply bool_decide_eq_true_2. rewrite Hb. eauto. Qed.

Lemma hasattr_attr module (name : string) (a : Attr R P A) :
  m_attrs module !! name = Some a -> hasattr module name = true.
Proof. intros Ha. unfold hasattr. apply bool_decide_eq_true_2. rewrite Ha. eauto. Qed.

Lemma hasattr_false module (name : string) :
  hasattr module name = false ->
  m_attrs module !! name = None /\ m_parameters module !! name = None
  /\ m_buffers module !! name = None.
Proof.
  unfold hasattr. intros Hf. apply bool_decide_eq_false_1 in Hf.
  repeat split; apply eq_None_not_Some; intros ?; apply Hf; auto.
Qed.

(** What a successful registration did, step by step. *)
Lemma register_online_rotation_inv module (Q : Tensor R) module' :
  register_online_rotation module Q = Ok module' ->
  exists (w Qt : Tensor R),
    hasattr module "Q" = false
    /\ T Q = Ok Qt
    /\ (v ← getattr module "weight"; tensor_data v) = Ok w
    /\ module' = mkNNModule (m_parameters module)
                   (<["Q"%string := (to_like w Qt, true)]> (m_buffers module))
                   (<["rotate_handle"%string := AttrHandle (length (m_forward_pre_hooks module))]>
                      (m_attrs module))
                   (m_forward_pre_hooks module ++ [OnlineRotate]).
Proof.
  unfold register_online_rotation. intros Hreg.
  destruct (hasattr module "Q") eqn:Hhas; [discriminate |]. cbn in Hreg.
  destruct (T Q) as [Qt |] eqn:HT; [| discriminate]. cbn in Hreg.
  destruct (getattr module "weight") as [v |] eqn:Hget; [| discriminate]. cbn in Hreg.
  destruct (tensor_data v) as [w |] eqn:Hw; [| discriminate]. cbn in Hreg.
  exists w, Qt. repeat split; [by cbn; rewrite Hw |].
  unfold register_buffer in Hreg. rewrite Hhas in Hreg. cbn in Hreg.
  unfold setattr_object in Hreg. cbn in Hreg.
  case_bool_decide; [discriminate |]. by injection Hreg as <-.
Qed.

Lemma for_each_app {X S : Type} (body : X -> S -> Result S) (l1 l2 : list X) (s : S) :
  for_each body (l1 ++ l2) s = (s1 ← for_each body l1 s; for_each body l2 s1).
Proof.
  revert s; induction l1 as [| a l1 IH]; intros s; cbn; [done |].
  destruct (body a s) as [s' |]; cbn; [apply IH | done].
Qed.

(** C1 (amended): after [register_online_rotation(module, Q)] returns,
    the module holds [Q.T], converted to the dtype and device of the
    module's weight, as the persistent buffer [Q], which is not a
    parameter; [online_rotate] is the last pre-forward hook; and the hook
    replaces the first positional input [x] with
    [F.linear(x, module.Q) = x @ Q] (the product with [Q] itself, not
    with its transpose) and returns the other inputs as they are. *)
Theorem register_online_rotation_spec module (Q : Tensor R) module' :
  wf Q ->
  register_online_rotation module Q = Ok module' ->
  exists (w Qt : Tensor R),
    (v ← getattr module "weight"; tensor_data v) = Ok w
    /\ T Q = Ok Qt
    /\ m_buffers module' !! "Q"%string = Some (to_like w Qt, true)
    /\ dtype (to_like w Qt) = dtype w /\ device (to_like w Qt) = device w
    /\ m_parameters module' !! "Q"%string = None
    /\ m_forward_pre_hooks module' = m_forward_pre_hooks module ++ [OnlineRotate]
    /\ (forall (x : Tensor R) (rest : list (Arg R)),
          online_rotate module' (ArgTensor x :: rest) =
            (y ← linear x (to_like w Qt); Ok (ArgTensor y :: rest))
          /\ linear x (to_like w Qt) = matmul x (to_like w Q))
    /\ (forall foreign (inp : list (Arg R)),
          call_pre_hooks foreign module' inp =
            (inp1 ← for_each (call_pre_hook foreign module') (m_forward_pre_hooks module) inp;
             online_rotate module' inp1)).
Proof.
  intros Hwf Hreg.
  destruct (register_online_rotation_inv _ _ _ Hreg) as (w & Qt & Hhas & HT & Hw & ->).
  apply hasattr_false in Hhas as (Hattr & Hpar & Hbuf).
  exists w, Qt. cbn [m_buffers m_parameters m_forward_pre_hooks].
  split; [done |]. split; [done |].
  split; [by rewrite lookup_insert_eq |].
  split; [done |]. split; [done |]. split; [done |]. split; [done |].
  split.
  - intros x rest. split; [| by apply linear_T_matmul].
    unfold online_rotate, getattr. cbn [m_attrs m_parameters m_buffers].
    rewrite lookup_insert_ne by done. rewrite Hattr, Hpar, lookup_insert_eq.
    reflexivity.
  - intros foreign inp. unfold call_pre_hooks. cbn [m_forward_pre_hooks].
    rewrite for_each_app.
    destruct (for_each _ (m_forward_pre_hooks module) inp) as [inp1 |]; cbn; [| done].
    by destruct (online_rotate _ inp1).
Qed.

End OnlineRotationSpec.

Lemma register_online_rotation_spec_witness :
  exists (w Qt : Tensor Z),
    (v ← getattr linear2 "weight"; tensor_data v) = Ok w
    /\ T quarter_turn = Ok Qt
    /\ m_buffers linear2_rotated !! "Q"%string = Some (to_like w Qt, true)
    /\ dtype (to_like w Qt) = dtype w /\ device (to_like w Qt) = device w
    /\ m_parameters linear2_rotated !! "Q"%string = None
    /\ m_forward_pre_hooks linear2_rotated = m_forward_pre_hooks linear2 ++ [OnlineRotate]
    /\ (forall (x : Tensor Z) (rest : list (Arg Z)),
          online_rotate linear2_rotated (ArgTensor x :: rest) =
            (y ← linear x (to_like w Qt); Ok (ArgTensor y :: rest))
          /\ linear x (to_like w Qt) = matmul x (to_like w quarter_turn))
    /\ (forall foreign (inp : list (Arg Z)),
          call_pre_hooks foreign linear2_rotated inp =
            (inp1 ← for_each (call_pre_hook foreign linear2_rotated)
                      (m_forward_pre_hooks linear2) inp;
             online_rotate linear2_rotated inp1)).
Proof.
  apply (register_online_rotation_spec linear2 quarter_turn linear2_rotated).
  - reflexivity.
  - vm_compute. reflexivity.
Defined.

(** C1 as stated fails: for the quarter turn [Q] and the row [x = (1, 0)]
    the hook returns [x @ Q = (0, 1)], while [x @ Q.T = (0, -1)]. *)
Lemma online_rotate_not_transpose_product :
  register_online_rotation linear2 quarter_turn = Ok linear2_rotated
  /\ online_rotate linear2_rotated [ArgTensor unit_row]
     = Ok [ArgTensor (mkTensor [1; 2] float64 cpu [0; 1]%Z)]
  /\ (Qt ← T quarter_turn; matmul unit_row Qt)
     = Ok (mkTensor [1; 2] float64 cpu [0; -1]%Z)
  /\ mkTensor [1; 2] float64 cpu [0; 1]%Z ≠ mkTensor [1; 2] float64 cpu [0; -1]%Z.
Proof.
  split; [vm_compute; reflexivity |].
  split; [vm_compute; reflexivity |].
  split; [vm_compute; reflexivity | discriminate].
Qed.

(** ** The query/key wrapper *)

Section WrapperSpec.
Context {R P A : Type} `{Scalar R} `{QuantKernels R P} `{HadamardKernel R}.

Implicit Types self : QKRotationWrapper R P A.

(** What [rotate_qk] returned, read back from the wrapped function. *)
Lemma rotate_qk_inv self (args : A) (q k : Tensor R) (dims : nat * nat * nat * nat) :
  rotate_qk self args = Ok (q, k, dims) ->
  exists (q0 k0 : Tensor R),
    w_func self args = Ok (q0, k0)
    /\ (if w_disable_qk_rotation self then q = q0 /\ k = k0
        else rotate (dtype q0) q0 = Ok q /\ rotate (dtype q0) k0 = Ok k)
    /\ unpack4 (shape k) = Ok dims.
Proof.
  unfold rotate_qk. intros Hr.
  destruct (w_func self args) as [[q0 k0] |]; [| discriminate]. cbn in Hr.
  destruct (last_dim q0) as [n |]; [| discriminate]. cbn in Hr.
  destruct (py_assert _); [| discriminate]. cbn in Hr.
  exists q0, k0. split; [done |].
  destruct (w_disable_qk_rotation self); cbn in Hr.
  - destruct (unpack4 (shape k0)) as [dims0 |] eqn:Hu; [| discriminate]. cbn in Hr.
    by injection Hr as <- <- <-.
  - destruct (rotate (dtype q0) q0) as [q1 |]; [| discriminate]. cbn in Hr.
    destruct (rotate (dtype q0) k0) as [k1 |]; [| discriminate]. cbn in Hr.
    destruct (unpack4 (shape k1)) as [dims0 |] eqn:Hu; [| discriminate]. cbn in Hr.
    by injection Hr as <- <- <-.
Qed.

Lemma unpack4_inv (s : list nat) (b h n d : nat) :
  unpack4 s = Ok (b, h, n, d) -> s = [b; h; n; d].
Proof.
  unfold unpack4. destruct s as [| ? [| ? [| ? [| ? [| ? ?]]]]]; try discriminate.
  by intros [= -> -> -> ->].
Qed.

(** C4: with the bit width 16, [forward] is the code before the
    quantization block followed by [free]: the quantizer is asked nothing
    but [free] (neither calibration nor quantization), and when the call
    returns, the key is the key the wrapped function produced, itself
    when the rotation is disabled and its Hadamard rotation otherwise. *)
Theorem forward_bits16_key_unchanged self (args : A) :
  w_k_bits self = 16%Z ->
  forward self args =
    match rotate_qk self args with
    | Raise e => (Raise e, self)
    | Ok (q, k, _) => (Ok (q, k), with_quantizer self (free (w_k_quantizer self)))
    end
  /\ (exists evs : list (QuantEvent R),
        aq_log (w_k_quantizer (forward self args).2) = aq_log (w_k_quantizer self) ++ evs
        /\ Forall (fun ev => ev = EvFree) evs)
  /\ (forall q' k' : Tensor R,
        (forward self args).1 = Ok (q', k') ->
        exists q0 k0 : Tensor R,
          w_func self args = Ok (q0, k0)
          /\ (if w_disable_qk_rotation self then q' = q0 /\ k' = k0
              else rotate (dtype q0) q0 = Ok q' /\ rotate (dtype q0) k0 = Ok k')).
Proof.
  intros Hbits.
  assert (Heq : forward self args =
    match rotate_qk self args with
    | Raise e => (Raise e, self)
    | Ok (q, k, _) => (Ok (q, k), with_quantizer self (free (w_k_quantizer self)))
    end).
  { unfold forward. destruct (rotate_qk self args) as [[[q k] [[[b h] n] d]] |]; [| done].
    unfold quantize_key. rewrite Hbits.
    by rewrite bool_decide_eq_false_2 by lia. }
  split; [exact Heq |]. rewrite Heq.
  destruct (rotate_qk self args) as [[[q k] dims] |] eqn:Hr; cbn.
  - split.
    + exists [EvFree]. split; [done | by constructor].
    + intros q' k' [= <- <-].
      destruct (rotate_qk_inv _ _ _ _ _ Hr) as (q0 & k0 & Hf & Hrot & _). eauto.
  - split; [| intros ? ? [=]].
    exists []. split; [by rewrite app_nil_r | constructor].
Qed.

(** What a successful construction stored. *)
Lemma QKRotationWrapper_init_inv (func : A -> Result (Tensor R * Tensor R))
    (config : Config) (kwargs : Kwargs R) self :
  QKRotationWrapper_init func config kwargs = Ok self ->
  exists (disable sym : bool) (groupsize bits : Z) (clip : R),
    kw_disable_qk_rotation kwargs = Some disable
    /\ kw_k_groupsize kwargs = Some groupsize
    /\ kw_k_bits kwargs = Some bits
    /\ kw_k_sym kwargs = Some sym
    /\ kw_k_clip_ratio kwargs = Some clip
    /\ num_attention_heads config ≠ 0%Z
    /\ is_pow2 (hidden_size config / num_attention_heads config) = true
    /\ (groupsize = (-1)%Z \/ groupsize = (hidden_size config / num_attention_heads config)%Z)
    /\ self = mkQKRotationWrapper config (hidden_size config / num_attention_heads config)
                func (mkActQuantizer (Some (mkQuantConfig bits (-1) sym clip)) None [])
                bits disable groupsize sym clip.
Proof.
  unfold QKRotationWrapper_init, floordiv, kwarg. intros Hinit.
  case_bool_decide as Hheads; [discriminate |]. cbn in Hinit.
  destruct (is_pow2 _) eqn:Hpow; [| discriminate]. cbn in Hinit.
  destruct (kw_disable_qk_rotation kwargs) as [disable |]; [| discriminate]. cbn in Hinit.
  destruct (kw_k_groupsize kwargs) as [groupsize |]; [| discriminate]. cbn in Hinit.
  case_bool_decide as Hgs; [| discriminate]. cbn in Hinit.
  destruct (kw_k_bits kwargs) as [bits |]; [| discriminate]. cbn in Hinit.
  destruct (kw_k_sym kwargs) as [sym |]; [| discriminate]. cbn in Hinit.
  destruct (kw_k_clip_ratio kwargs) as [clip |]; [| discriminate]. cbn in Hinit.
  injection Hinit as <-.
  exists disable, sym, groupsize, bits, clip. repeat split; try done.
  apply elem_of_cons in Hgs as [-> | Hgs]; [by left |].
  apply list_elem_of_singleton in Hgs. by right.
Qed.

Lemma transpose12_shape (t t' : Tensor R) :
  transpose12 t = Ok t' ->
  exists a b c d, shape t = [a; b; c; d] /\ shape t' = [a; c; b; d].
Proof.
  unfold transpose12.
  destruct (shape t) as [| a [| b [| c [| d [| ? ?]]]]]; try discriminate.
  intros [= <-]. by exists a, b, c, d.
Qed.

Lemma reshape_shape (s : list nat) (t t' : Tensor R) :
  reshape s t = Ok t' -> shape t' = s.
Proof. unfold reshape. case_bool_decide; [| discriminate]. by intros [= <-]. Qed.

Lemma reshape_rows_shape (c : nat) (t t' : Tensor R) :
  reshape_rows c t = Ok t' ->
  c ≠ 0 /\ shape t' = [numel (shape t) `div` c; c].
Proof.
  unfold reshape_rows. case_bool_decide as Hc; [| discriminate].
  intros [= <-]. by destruct Hc.
Qed.

(** The quantizer after calibrating on and quantizing [x]. *)
Lemma find_params_then_quantize_ok (qz qz' : ActQuantizer R P) (x y : Tensor R) :
  find_params_then_quantize qz x = (Ok y, qz') ->
  aq_config qz' = aq_config qz
  /\ aq_log qz' = aq_log qz ++ [EvFindParams x; EvQuantize x].
Proof.
  unfold find_params_then_quantize, find_params, quantize.
  destruct (find_params_kernel _ x) as [p |]; cbn; [| discriminate].
  destruct (quantize_kernel _ _ x) as [y' |]; cbn; [| discriminate].
  intros [= _ <-]. cbn. split; [done |]. by rewrite <- app_assoc.
Qed.

Lemma find_params_then_quantize_config (qz : ActQuantizer R P) (x : Tensor R) :
  aq_config (find_params_then_quantize qz x).2 = aq_config qz.
Proof.
  unfold find_params_then_quantize, find_params, quantize.
  destruct (find_params_kernel _ x) as [p |]; cbn; [| done].
  by destruct (quantize_kernel _ _ x) as [y' |].
Qed.

(** [forward] never reconfigures the quantizer. *)
Lemma quantize_key_config self (q k : Tensor R) (dims : nat * nat * nat * nat) :
  aq_config (quantize_key self q k dims).2 = aq_config (w_k_quantizer self).
Proof.
  unfold quantize_key. destruct dims as [[[b h] n] d].
  case_bool_decide; [| done]. case_bool_decide.
  - destruct (_ ≫= _) as [x |]; [| done].
    pose proof (find_params_then_quantize_config (w_k_quantizer self) x) as Hc.
    by destruct (find_params_then_quantize _ x).
  - destruct (reshape_rows d k) as [x |]; [| done].
    pose proof (find_params_then_quantize_config (w_k_quantizer self) x) as Hc.
    by destruct (find_params_then_quantize _ x).
Qed.

Lemma forward_config self (args : A) :
  aq_config (w_k_quantizer (forward self args).2) = aq_config (w_k_quantizer self).
Proof.
  unfold forward. destruct (rotate_qk self args) as [[[q k] dims] |]; [| done].
  pose proof (quantize_key_config self q k dims) as Hc.
  destruct (quantize_key self q k dims) as [[k' |] qz]; apply Hc.
Qed.

(** What the quantization block did when it returned a key. *)
Lemma quantize_key_ok self (q k k' : Tensor R) (b h n d : nat) (qz : ActQuantizer R P) :
  shape k = [b; h; n; d] ->
  quantize_key self q k (b, h, n, d) = (Ok k', qz) ->
  shape k' = [b; h; n; d]
  /\ if bool_decide (w_k_bits self < 16)%Z then
       exists x : Tensor R,
         aq_log qz = aq_log (w_k_quantizer self) ++ [EvFindParams x; EvQuantize x]
         /\ if bool_decide (w_k_groupsize self = (-1)%Z) then
              (0 < hidden_size (w_config self))%Z
              /\ shape x = [numel [b; h; n; d] `div` Z.to_nat (hidden_size (w_config self));
                            Z.to_nat (hidden_size (w_config self))]
            else shape x = [b * h * n; d]
     else k' = k /\ qz = w_k_quantizer self.
Proof.
  intros Hk. unfold quantize_key.
  case_bool_decide as Hbits; [| by intros [= <- <-]].
  case_bool_decide as Hgs.
  - destruct (transpose12 k) as [kt |] eqn:Hkt; cbn; [| discriminate].
    apply transpose12_shape in Hkt as (a & b' & c & d' & Hs & Hst).
    rewrite Hk in Hs. injection Hs as <- <- <- <-.
    unfold reshape_rows_int. case_bool_decide as Hhid; [| discriminate].
    destruct (reshape_rows _ kt) as [x |] eqn:Hx; [| discriminate].
    apply reshape_rows_shape in Hx as [Hnz Hsx]. rewrite Hst in Hsx.
    destruct (find_params_then_quantize _ x) as [[y |] qz'] eqn:Hfq; cbn; [| discriminate].
    destruct (reshape _ y) as [k1 |] eqn:Hk1; cbn; [| discriminate].
    apply reshape_shape in Hk1.
    destruct (transpose12 k1) as [k2 |] eqn:Hk2; cbn; [| discriminate].
    apply transpose12_shape in Hk2 as (a2 & b2 & c2 & d2 & Hs1 & Hs2).
    rewrite Hk1 in Hs1. injection Hs1 as <- <- <- <-.
    intros [= <- <-]. split; [done |].
    apply find_params_then_quantize_ok in Hfq as [_ Hlog].
    exists x. split; [done |]. split; [done |].
    rewrite Hsx. do 2 f_equal. cbn. lia.
  - destruct (reshape_rows d k) as [x |] eqn:Hx; [| discriminate].
    apply reshape_rows_shape in Hx as [Hnz Hsx]. rewrite Hk in Hsx.
    destruct (find_params_then_quantize _ x) as [[y |] qz'] eqn:Hfq; cbn; [| discriminate].
    destruct (reshape _ y) as [k1 |] eqn:Hk1; cbn; [| discriminate].
    apply reshape_shape in Hk1.
    intros [= <- <-]. split; [done |].
    apply find_params_then_quantize_ok in Hfq as [_ Hlog].
    exists x. split; [done |].
    rewrite Hsx. f_equal. cbn.
    replace (b * (h * (n * (d * 1)))) with (b * h * n * d) by lia.
    by apply Nat.div_mul.
Qed.

Lemma numel_rows (m c : nat) : m `mod` c = 0 -> numel [m `div` c; c] = m.
Proof.
  intros Hmod. pose proof (Nat.div_mod_eq m c) as Hdm. rewrite Hmod in Hdm.
  cbn. nia.
Qed.

(** The quantization block returns on a four-dimensional key whose rows
    the chosen reshape can form, when the kernels keep the size. *)
Lemma quantize_key_returns self (q k : Tensor R)
    (b h n d : nat) :
  shape k = [b; h; n; d] ->
  (if bool_decide (w_k_groupsize self = (-1)%Z)
   then (0 < hidden_size (w_config self))%Z
        /\ numel [b; h; n; d] `mod` Z.to_nat (hidden_size (w_config self)) = 0
   else d ≠ 0) ->
  (forall x, numel (shape x) = numel [b; h; n; d] -> kernels_keep_size (w_k_quantizer self) x) ->
  exists k' qz, quantize_key self q k (b, h, n, d) = (Ok k', qz).
Proof.
  intros Hk Hrows Hkern. unfold quantize_key.
  destruct (bool_decide (w_k_bits self < 16)%Z); [| eexists _, _; reflexivity].
  case_bool_decide.
  - destruct Hrows as [Hpos Hmod].
    unfold transpose12. rewrite Hk. cbn [mbind Result_bind bind].
    unfold reshape_rows_int. rewrite bool_decide_eq_true_2 by done.
    unfold reshape_rows. cbn [shape].
    assert (Hnum : numel [b; n; h; d] = numel [b; h; n; d]) by (cbn; lia).
    rewrite Hnum. rewrite bool_decide_eq_true_2 by (split; [lia | done]).
    set (x := mkTensor _ _ _ _).
    assert (Hx : numel (shape x) = numel [b; h; n; d]).
    { subst x. cbn [shape]. apply numel_rows, Hmod. }
    destruct (Hkern x Hx) as (p & y & Hfp & Hqk & Hy).
    unfold find_params_then_quantize, find_params, quantize. rewrite Hfp. cbn.
    rewrite Hqk. cbn. unfold reshape.
    rewrite bool_decide_eq_true_2 by (rewrite Hy, Hx; cbn; lia).
    cbn. eauto.
  - unfold reshape_rows. rewrite Hk.
    assert (Hmod : numel [b; h; n; d] `mod` d = 0).
    { cbn. replace (b * (h * (n * (d * 1)))) with (b * h * n * d) by lia.
      apply Nat.Div0.mod_mul. }
    rewrite bool_decide_eq_true_2 by done.
    set (x := mkTensor _ _ _ _).
    assert (Hx : numel (shape x) = numel [b; h; n; d]).
    { subst x. cbn [shape]. apply numel_rows, Hmod. }
    destruct (Hkern x Hx) as (p & y & Hfp & Hqk & Hy).
    unfold find_params_then_quantize, find_params, quantize. rewrite Hfp. cbn.
    rewrite Hqk. cbn. unfold reshape.
    rewrite bool_decide_eq_true_2 by (by rewrite Hy, Hx).
    cbn. eauto.
Qed.

(** X11: [forward] returns whenever the code before the quantization block
    does and the block can form its rows, with kernels that keep the
    size. *)
Lemma forward_returns self (args : A) (q k : Tensor R) (b h n d : nat) :
  rotate_qk self args = Ok (q, k, (b, h, n, d)) ->
  (if bool_decide (w_k_groupsize self = (-1)%Z)
   then (0 < hidden_size (w_config self))%Z
        /\ numel [b; h; n; d] `mod` Z.to_nat (hidden_size (w_config self)) = 0
   else d ≠ 0) ->
  (forall x, numel (shape x) = numel [b; h; n; d] -> kernels_keep_size (w_k_quantizer self) x) ->
  exists k' self', forward self args = (Ok (q, k'), self').
Proof.
  intros Hr Hrows Hkern. unfold forward. rewrite Hr.
  destruct (rotate_qk_inv _ _ _ _ _ Hr) as (_ & _ & _ & _ & Hu).
  apply unpack4_inv in Hu.
  destruct (quantize_key_returns self q k b h n d Hu Hrows Hkern) as (k' & qz & ->).
  eauto.
Qed.

(** A wrapper is built only for a group size of -1 or [head_dim], and
    its quantizer is configured with group size -1 whichever was given; a
    call of [forward] that returns has not reconfigured it.  When a call
    returns, the key has the shape (batch, heads, sequence, head_dim) of
    the key it started from; with a bit width below 16 the quantizer was
    asked to calibrate on and then quantize one and the same reshaped
    tensor, and the group size only chooses its shape: token-wise
    [(-1, hidden_size)], which is (batch·sequence, hidden_size) when
    heads·head_dim = hidden_size, and head-wise
    (batch·heads·sequence, head_dim). *)
Lemma qk_wrapper_groupsize (func : A -> Result (Tensor R * Tensor R))
    (config : Config) (kwargs : Kwargs R) self (args : A) (q' k' : Tensor R) self' :
  QKRotationWrapper_init func config kwargs = Ok self ->
  forward self args = (Ok (q', k'), self') ->
  kw_k_groupsize kwargs = Some (w_k_groupsize self)
  /\ (w_k_groupsize self = (-1)%Z \/ w_k_groupsize self = w_head_dim self)
  /\ q_groupsize <$> aq_config (w_k_quantizer self) = Some (-1)%Z
  /\ q_groupsize <$> aq_config (w_k_quantizer self') = Some (-1)%Z
  /\ exists (q k : Tensor R) (b h n d : nat),
       rotate_qk self args = Ok (q, k, (b, h, n, d))
       /\ shape k = [b; h; n; d]
       /\ shape k' = [b; h; n; d]
       /\ if bool_decide (w_k_bits self < 16)%Z then
            exists x : Tensor R,
              aq_log (w_k_quantizer self') = [EvFindParams x; EvQuantize x; EvFree]
              /\ if bool_decide (w_k_groupsize self = (-1)%Z) then
                   shape x = [numel [b; h; n; d] `div` Z.to_nat (hidden_size config);
                              Z.to_nat (hidden_size config)]
                   /\ (Z.of_nat (h * d) = hidden_size config -> shape x = [b * n; h * d])
                 else shape x = [b * h * n; d]
          else k' = k /\ aq_log (w_k_quantizer self') = [EvFree].
Proof.
  intros Hinit Hfwd.
  pose proof (forward_config self args) as Hcfg. rewrite Hfwd in Hcfg. cbn in Hcfg.
  destruct (QKRotationWrapper_init_inv _ _ _ _ Hinit)
    as (disable & sym & gs & bits & clip & _ & Hgs & _ & _ & _ & _ & _ & Hacc & Hself).
  assert (Hlog0 : aq_log (w_k_quantizer self) = []) by (by rewrite Hself).
  assert (Hconf : w_config self = config) by (by rewrite Hself).
  split; [by rewrite Hself |]. split; [by rewrite Hself |].
  split; [by rewrite Hself |]. split; [by rewrite Hcfg, Hself |].
  unfold forward in Hfwd.
  destruct (rotate_qk self args) as [[[q k] [[[b h] n] d]] |] eqn:Hr; [| discriminate].
  destruct (rotate_qk_inv _ _ _ _ _ Hr) as (q0 & k0 & _ & _ & Hu).
  apply unpack4_inv in Hu.
  destruct (quantize_key self q k (b, h, n, d)) as [[k1 |] qz] eqn:Hq; [| discriminate].
  injection Hfwd as <- <- <-.
  destruct (quantize_key_ok _ _ _ _ _ _ _ _ _ Hu Hq) as [Hshape Hrest].
  exists q, k, b, h, n, d. split; [done |]. split; [done |]. split; [done |].
  cbn [with_quantizer w_k_quantizer free aq_log].
  case_bool_decide.
  - destruct Hrest as (x & Hlog & Hx). exists x.
    split; [by rewrite Hlog, Hlog0 |].
    case_bool_decide; [| done]. destruct Hx as [Hpos Hx]. rewrite Hconf in Hx, Hpos.
    split; [done |]. intros Hhd. rewrite Hx, <- Hhd, Nat2Z.id. f_equal.
    cbn. replace (b * (h * (n * (d * 1)))) with (b * n * (h * d)) by lia.
    apply Nat.div_mul. lia.
  - destruct Hrest as [-> ->]. by rewrite Hlog0.
Qed.

End WrapperSpec.

Lemma qk_wrapper_groupsize_witness :
  kw_k_groupsize (example_kwargs true 4 (-1)) = Some (w_k_groupsize (example_wrapper true 4 (-1)))
  /\ (w_k_groupsize (example_wrapper true 4 (-1)) = (-1)%Z
      \/ w_k_groupsize (example_wrapper true 4 (-1)) = w_head_dim (example_wrapper true 4 (-1)))
  /\ q_groupsize <$> aq_config (w_k_quantizer (example_wrapper true 4 (-1))) = Some (-1)%Z
  /\ q_groupsize <$> aq_config (w_k_quantizer (forward (example_wrapper true 4 (-1)) tt).2)
     = Some (-1)%Z
  /\ exists (q k : Tensor Z) (b h n d : nat),
       rotate_qk (example_wrapper true 4 (-1)) tt = Ok (q, k, (b, h, n, d))
       /\ shape k = [b; h; n; d]
       /\ shape (mkTensor [1; 2; 1; 2] float16 cpu [2; 4; 6; 8]%Z) = [b; h; n; d]
       /\ if bool_decide (w_k_bits (example_wrapper true 4 (-1)) < 16)%Z then
            exists x : Tensor Z,
              aq_log (w_k_quantizer (forward (example_wrapper true 4 (-1)) tt).2)
              = [EvFindParams x; EvQuantize x; EvFree]
              /\ if bool_decide (w_k_groupsize (example_wrapper true 4 (-1)) = (-1)%Z) then
                   shape x = [numel [b; h; n; d] `div` Z.to_nat (hidden_size example_config);
                              Z.to_nat (hidden_size example_config)]
                   /\ (Z.of_nat (h * d) = hidden_size example_config
                       -> shape x = [b * n; h * d])
                 else shape x = [b * h * n; d]
          else mkTensor [1; 2; 1; 2] float16 cpu [2; 4; 6; 8]%Z = k
               /\ aq_log (w_k_quantizer (forward (example_wrapper true 4 (-1)) tt).2) = [EvFree].
Proof.
  apply (qk_wrapper_groupsize fixed_qk example_config (example_kwargs true 4 (-1))
           (example_wrapper true 4 (-1)) tt fixed_q
           (mkTensor [1; 2; 1; 2] float16 cpu [2; 4; 6; 8]%Z)).
  - vm_compute. reflexivity.
  - vm_compute. reflexivity.
Defined.

(** C5: the token-wise path on a grouped-query key, where the key has
    fewer heads than [hidden_size / head_dim].  With two query heads of
    dimension two ([hidden_size = 4]) and one key head, the wrapper built
    for group size -1 hands the quantizer the two tokens of a key of
    shape (1, 1, 2, 2) as one row of four entries, not as
    batch·sequence = 2 rows, and on a key of one token, of shape
    (1, 1, 1, 2), its reshape to rows of [hidden_size] entries raises
    [RuntimeError].  The head-wise path, which takes the width of its
    rows from the key, gives the quantizer one row per token and head on
    the first key and returns a key on the second. *)
Theorem token_wise_rows_mix_tokens :
  QKRotationWrapper_init gqa_qk example_config (example_kwargs true 4 (-1)) = Ok gqa_wrapper
  /\ shape gqa_k = [1; 1; 2; 2]
  /\ aq_log (w_k_quantizer (forward gqa_wrapper tt).2)
     = [EvFindParams gqa_token_wise_k; EvQuantize gqa_token_wise_k; EvFree]
  /\ shape gqa_token_wise_k = [1; 4]
  /\ shape gqa_token_wise_k ≠ [1 * 2; 4]
  /\ QKRotationWrapper_init one_token_qk example_config (example_kwargs true 4 (-1))
     = Ok (one_token_wrapper (-1))
  /\ shape one_token_k = [1; 1; 1; 2]
  /\ (forward (one_token_wrapper (-1)) tt).1 = Raise RuntimeError
  /\ QKRotationWrapper_init gqa_qk example_config (example_kwargs true 4 2)
     = Ok gqa_head_wise_wrapper
  /\ aq_log (w_k_quantizer (forward gqa_head_wise_wrapper tt).2)
     = [EvFindParams gqa_per_head_k; EvQuantize gqa_per_head_k; EvFree]
  /\ shape gqa_per_head_k = [1 * 1 * 2; 2]
  /\ (forward (one_token_wrapper 2) tt).1
     = Ok (one_token_q, mkTensor [1; 1; 1; 2] float16 cpu [2; 4]%Z).
Proof.
  split; [vm_compute; reflexivity |]. split; [reflexivity |].
  split; [vm_compute; reflexivity |]. split; [reflexivity |]. split; [discriminate |].
  split; [vm_compute; reflexivity |]. split; [reflexivity |].
  split; [vm_compute; reflexivity |]. split; [vm_compute; reflexivity |].
  split; [vm_compute; reflexivity |]. split; [reflexivity |].
  vm_compute. reflexivity.
Qed.

Lemma forward_bits16_key_unchanged_witness :
  forward (example_wrapper true 16 (-1)) tt =
    match rotate_qk (example_wrapper true 16 (-1)) tt with
    | Raise e => (Raise e, example_wrapper true 16 (-1))
    | Ok (q, k, _) =>
        (Ok (q, k),
         with_quantizer (example_wrapper true 16 (-1))
           (free (w_k_quantizer (example_wrapper true 16 (-1)))))
    end
  /\ (exists evs : list (QuantEvent Z),
        aq_log (w_k_quantizer (forward (example_wrapper true 16 (-1)) tt).2)
        = aq_log (w_k_quantizer (example_wrapper true 16 (-1))) ++ evs
        /\ Forall (fun ev => ev = EvFree) evs)
  /\ (forall q' k' : Tensor Z,
        (forward (example_wrapper true 16 (-1)) tt).1 = Ok (q', k') ->
        exists q0 k0 : Tensor Z,
          w_func (example_wrapper true 16 (-1)) tt = Ok (q0, k0)
          /\ (if w_disable_qk_rotation (example_wrapper true 16 (-1))
              then q' = q0 /\ k' = k0
              else rotate (dtype q0) q0 = Ok q' /\ rotate (dtype q0) k0 = Ok k')).
Proof.
  apply (forward_bits16_key_unchanged (example_wrapper true 16 (-1)) tt).
  reflexivity.
Defined.

(** ** Installing twice *)

Section TwiceSpec.
Context {R P A : Type} `{Scalar R} `{QuantKernels R P} `{HadamardKernel R}
        `{Monkeypatch R P A}.

Implicit Types module : NNModule R P A.

(** C8: once [register_online_rotation] has succeeded on a module, a
    second call on that module fails with [AssertionError]; once
    [add_qk_rotation_wrapper_after_function_call_in_forward] has
    succeeded on a module for a function name, a second call for the same
    function name fails with [AssertionError] (the AlreadyConfigured
    failure), whatever the other arguments. *)
Theorem second_installation_fails module (Q Q' : Tensor R) module1
    mq (function_name : string) (config config' : Config) (kwargs kwargs' : Kwargs R) mq1 :
  register_online_rotation module Q = Ok module1 ->
  add_qk_rotation_wrapper_after_function_call_in_forward mq function_name config kwargs
    = Ok mq1 ->
  register_online_rotation module1 Q' = Raise AssertionError
  /\ add_qk_rotation_wrapper_after_function_call_in_forward mq1 function_name config' kwargs'
     = Raise AssertionError.
Proof.
  intros Hreg Hadd. split.
  - destruct (register_online_rotation_inv _ _ _ Hreg) as (w & Qt & _ & _ & _ & ->).
    unfold register_online_rotation.
    rewrite (hasattr_buffer _ "Q" (to_like w Qt, true)); [done |].
    cbn [m_buffers]. by rewrite lookup_insert_eq.
  - unfold add_qk_rotation_wrapper_after_function_call_in_forward in Hadd.
    destruct (hasattr mq _); [discriminate |]. cbn in Hadd.
    destruct (add_wrapper_after_function_call_in_method _ _ _ _) as [[m wr] |];
      [| discriminate].
    cbn in Hadd. injection Hadd as <-.
    unfold add_qk_rotation_wrapper_after_function_call_in_forward.
    rewrite (hasattr_attr _ _ (AttrWrapper wr)); [done |].
    cbn [setattr_module m_attrs]. by rewrite lookup_insert_eq.
Qed.

End TwiceSpec.

Lemma second_installation_fails_witness :
  register_online_rotation linear2_rotated quarter_turn = Raise AssertionError
  /\ add_qk_rotation_wrapper_after_function_call_in_forward linear2_wrapped
       "apply_rotary_pos_emb" example_config (example_kwargs true 8 2)
     = Raise AssertionError.
Proof.
  apply (second_installation_fails linear2 quarter_turn quarter_turn linear2_rotated
           linear2 "apply_rotary_pos_emb" example_config example_config
           (example_kwargs false 4 (-1)) (example_kwargs true 8 2) linear2_wrapped).
  - vm_compute. reflexivity.
  - vm_compute. reflexivity.
Defined.

(** ** Fusion in exact arithmetic *)

Section ExactSpec.
Context {R : Type} `{Scalar R}.
Hypothesis Rsr : semi_ring_theory s_zero s_one s_add s_mul (@eq R).
Hypothesis round_exact : forall (dt : DType) (x : R), s_round dt x = x.
Add Ring Rring : Rsr.

#[local] Notation "a ⊕ b" := (s_add a b) (at level 50, left associativity).
#[local] Notation "a ⊗ b" := (s_mul a b) (at level 40, left associativity).

Lemma bigsum_ext (n : nat) (f g : nat -> R) :
  (forall i, i < n -> f i = g i) -> bigsum n f = bigsum n g.
Proof.
  revert f g. induction n as [| n IH]; intros f g Hfg; cbn; [done |].
  rewrite (Hfg 0) by lia. f_equal. apply IH. intros i Hi. apply Hfg. lia.
Qed.

Lemma bigsum_zero (n : nat) : bigsum n (fun _ => s_zero) = s_zero.
Proof using Rsr. induction n as [| n IH]; cbn; [done |]. rewrite IH. ring. Qed.

Lemma bigsum_add (n : nat) (f g : nat -> R) :
  bigsum n (fun i => f i ⊕ g i) = bigsum n f ⊕ bigsum n g.
Proof using Rsr.
  revert f g. induction n as [| n IH]; intros f g; cbn; [ring |].
  rewrite IH. ring.
Qed.

Lemma bigsum_mul_l (n : nat) (c : R) (f : nat -> R) :
  c ⊗ bigsum n f = bigsum n (fun i => c ⊗ f i).
Proof using Rsr.
  revert f. induction n as [| n IH]; intros f; cbn; [ring |].
  rewrite <- IH. ring.
Qed.

Lemma bigsum_mul_r (n : nat) (c : R) (f : nat -> R) :
  bigsum n f ⊗ c = bigsum n (fun i => f i ⊗ c).
Proof using Rsr.
  revert f. induction n as [| n IH]; intros f; cbn; [ring |].
  rewrite <- IH. ring.
Qed.

Lemma bigsum_swap (n m : nat) (f : nat -> nat -> R) :
  bigsum n (fun i => bigsum m (fun j => f i j))
  = bigsum m (fun j => bigsum n (fun i => f i j)).
Proof using Rsr.
  revert f. induction n as [| n IH]; intros f; cbn.
  - by rewrite bigsum_zero.
  - rewrite IH. by rewrite bigsum_add.
Qed.

Lemma bigsum_delta (n a : nat) (f : nat -> R) :
  a < n ->
  bigsum n (fun b => f b ⊗ (if bool_decide (a = b) then s_one else s_zero)) = f a.
Proof using Rsr.
  revert a f. induction n as [| n IH]; intros a f Ha; [lia |]. cbn [bigsum].
  destruct a as [| a].
  - rewrite bool_decide_eq_true_2 by done.
    rewrite (bigsum_ext _ _ (fun _ => s_zero)).
    + rewrite bigsum_zero. ring.
    + intros i _. rewrite bool_decide_eq_false_2 by done. ring.
  - rewrite bool_decide_eq_false_2 by done.
    rewrite (bigsum_ext _ _ (fun b => f (S b) ⊗ (if bool_decide (a = b) then s_one else s_zero))).
    + rewrite (IH a (fun b => f (S b))) by lia. ring.
    + intros i _. destruct (decide (a = i)) as [-> | Hne].
      * by rewrite !bool_decide_eq_true_2.
      * rewrite !bool_decide_eq_false_2; [done | done | lia].
Qed.

Lemma foldl_dot_acc (acc : R) (l : list (R * R)) :
  foldl (fun acc p => acc ⊕ p.1 ⊗ p.2) acc l
  = acc ⊕ foldl (fun acc p => acc ⊕ p.1 ⊗ p.2) s_zero l.
Proof using Rsr.
  revert acc. induction l as [| p l IH]; intros acc; cbn; [ring |].
  rewrite IH. rewrite (IH (s_zero ⊕ _)). ring.
Qed.

Lemma dot_cons (x y : R) (xs ys : list R) :
  dot (x :: xs) (y :: ys) = x ⊗ y ⊕ dot xs ys.
Proof using Rsr.
  unfold dot. cbn. rewrite foldl_dot_acc. ring.
Qed.

(** The inner product as a sum over the indices. *)
Lemma dot_bigsum (n : nat) (xs ys : list R) :
  length xs = n -> length ys = n ->
  dot xs ys = bigsum n (fun i => nth i xs s_zero ⊗ nth i ys s_zero).
Proof using Rsr.
  revert xs ys. induction n as [| n IH]; intros xs ys Hx Hy.
  - destruct xs; [| done]. reflexivity.
  - destruct xs as [| x xs]; [done |]. destruct ys as [| y ys]; [done |].
    rewrite dot_cons. cbn [bigsum nth]. f_equal. apply IH; cbn in *; lia.
Qed.

Lemma dot_comm (xs ys : list R) : length xs = length ys -> dot xs ys = dot ys xs.
Proof using Rsr.
  intros Hlen. rewrite (dot_bigsum (length xs)), (dot_bigsum (length xs) ys) by done.
  apply bigsum_ext. intros. ring.
Qed.

Lemma to_shape (dt : DType) (dev : Device) (t : Tensor R) : shape (to_ dt dev t) = shape t.
Proof. reflexivity. Qed.

Lemma to_dtype_eq (dt : DType) (dev : Device) (t : Tensor R) : dtype (to_ dt dev t) = dt.
Proof. reflexivity. Qed.

Lemma to_device_eq (dt : DType) (dev : Device) (t : Tensor R) : device (to_ dt dev t) = dev.
Proof. reflexivity. Qed.

Lemma data_mk (s : list nat) (dt : DType) (dev : Device) (d : list R) :
  data (mkTensor s dt dev d) = d.
Proof. reflexivity. Qed.

Lemma to_data (dt : DType) (dev : Device) (t : Tensor R) : data (to_ dt dev t) = data t.
Proof using round_exact.
  unfold to_. cbn. destruct (decide _); [done |].
  rewrite (map_ext _ id) by (intros; apply round_exact). apply map_id.
Qed.

Lemma nth_row (k : nat) (l : list R) (a c : nat) :
  c < k -> nth c (row k l a) s_zero = nth (a * k + c) l s_zero.
Proof.
  intros Hc. unfold row. rewrite !nth_lookup.
  rewrite lookup_take_lt by done. by rewrite lookup_drop.
Qed.

Lemma length_row (k m : nat) (l : list R) (a : nat) :
  length l = m * k -> a < m -> length (row k l a) = k.
Proof. intros Hl Ha. unfold row. rewrite length_take, length_drop. nia. Qed.

Lemma rows_of_rows (k m : nat) (l : list R) :
  rows_of k m l = map (row k l) (seq 0 m).
Proof.
  unfold row. revert l. induction m as [| m IH]; intros l; [done |].
  cbn [rows_of seq map]. f_equal.
  rewrite IH. rewrite <- seq_shift, map_map. apply map_ext. intros a.
  rewrite drop_drop. do 2 f_equal; lia.
Qed.

Lemma nth_map_seq {X : Type} (f : nat -> X) (n a : nat) (d : X) :
  a < n -> nth a (map f (seq 0 n)) d = f a.
Proof.
  intros Ha. rewrite (nth_indep _ d (f 0)) by (by rewrite length_map, length_seq).
  rewrite (map_nth f). by rewrite seq_nth.
Qed.

Lemma nth_col (k o : nat) (l : list R) (j a : nat) :
  a < k -> nth a (col k o l j) s_zero = nth (a * o + j) l s_zero.
Proof.
  intros Ha. unfold col. by rewrite nth_map_seq.
Qed.

Lemma apply_rows_exact (dt : DType) (rows ws : list (list R)) :
  apply_rows dt rows ws = flat_map (fun r => map (dot r) ws) rows.
Proof using round_exact.
  unfold apply_rows. apply flat_map_ext. intros r. apply map_ext. intros w. apply round_exact.
Qed.

Lemma rows_of_flat_map {X : Type} (k : nat) (f : X -> list R) (rows : list X) :
  (forall r, length (f r) = k) ->
  rows_of k (length rows) (flat_map f rows) = map f rows.
Proof.
  intros Hlen. rewrite flat_map_concat_map.
  rewrite <- (length_map f rows). apply rows_of_concat.
  apply Forall_forall. intros l Hl. apply list_elem_of_fmap in Hl as (r & -> & _). apply Hlen.
Qed.

Lemma flat_map_ext_in {X Y : Type} (f g : X -> list Y) (l : list X) :
  (forall x, x ∈ l -> f x = g x) -> flat_map f l = flat_map g l.
Proof.
  intros Hfg. rewrite !flat_map_concat_map. f_equal.
  apply map_ext_in. intros x Hx. apply Hfg. by apply list_elem_of_In.
Qed.

Lemma rows_of_elem_length (k m : nat) (l r : list R) :
  length l = m * k -> r ∈ rows_of k m l -> length r = k.
Proof.
  intros Hl Hr. rewrite rows_of_rows in Hr.
  apply list_elem_of_fmap in Hr as (a & -> & Ha).
  apply list_elem_of_In, in_seq in Ha. apply (length_row k m); [done | lia].
Qed.

Lemma length_vecmat (k o : nat) (B v : list R) : length (vecmat k o B v) = o.
Proof. unfold vecmat. by rewrite length_map, cols_of_length. Qed.

Lemma nth_vecmat (k o : nat) (B v : list R) (c : nat) :
  c < o -> nth c (vecmat k o B v) s_zero = dot v (col k o B c).
Proof.
  intros Hc. unfold vecmat, cols_of. rewrite map_map. by rewrite nth_map_seq.
Qed.

Lemma dot_col (k o : nat) (B v : list R) (c : nat) :
  length v = k -> c < o ->
  dot v (col k o B c) = bigsum k (fun a => nth a v s_zero ⊗ nth (a * o + c) B s_zero).
Proof using Rsr.
  intros Hv Hc. rewrite (dot_bigsum k) by (done || apply col_length).
  apply bigsum_ext. intros a Ha. by rewrite nth_col.
Qed.

Lemma dot_row (k : nat) (B v : list R) (m a : nat) :
  length B = m * k -> a < m -> length v = k ->
  dot v (row k B a) = bigsum k (fun j => nth j v s_zero ⊗ nth (a * k + j) B s_zero).
Proof using Rsr.
  intros HB Ha Hv. rewrite (dot_bigsum k) by (done || by apply (length_row k m)).
  apply bigsum_ext. intros j Hj. by rewrite nth_row.
Qed.

(** A rotation by a matrix with orthonormal rows keeps inner products. *)
Lemma dot_vecmat_orthonormal (n : nat) (Q r w : list R) :
  length Q = n * n ->
  (forall a b, a < n -> b < n ->
     dot (row n Q a) (row n Q b) = if bool_decide (a = b) then s_one else s_zero) ->
  length r = n -> length w = n ->
  dot (vecmat n n Q r) (vecmat n n Q w) = dot r w.
Proof using Rsr.
  intros HQ Horth Hr Hw.
  rewrite (dot_bigsum n) by apply length_vecmat.
  rewrite (dot_bigsum n r w) by done.
  transitivity (bigsum n (fun c => bigsum n (fun a => bigsum n (fun b =>
    (nth a r s_zero ⊗ nth b w s_zero) ⊗ (nth (a * n + c) Q s_zero ⊗ nth (b * n + c) Q s_zero))))).
  { apply bigsum_ext. intros c Hc. rewrite !nth_vecmat, !dot_col by done.
    rewrite bigsum_mul_r. apply bigsum_ext. intros a Ha.
    rewrite bigsum_mul_l. apply bigsum_ext. intros b Hb. ring. }
  rewrite bigsum_swap. apply bigsum_ext. intros a Ha.
  rewrite bigsum_swap.
  transitivity (bigsum n (fun b => (nth a r s_zero ⊗ nth b w s_zero)
                                   ⊗ (if bool_decide (a = b) then s_one else s_zero))).
  { apply bigsum_ext. intros b Hb. rewrite <- bigsum_mul_l. f_equal.
    rewrite <- (Horth a b Ha Hb).
    rewrite (dot_row n Q _ n b) by (done || by apply (length_row n n)).
    apply bigsum_ext. intros c Hc. by rewrite nth_row. }
  by rewrite (bigsum_delta n a (fun b => nth a r s_zero ⊗ nth b w s_zero)).
Qed.

(** [x @ (Q.T @ W).T = (x @ W.T) @ Q], row by row. *)
Lemma dot_vecmat_assoc (n i : nat) (W r q : list R) :
  length W = n * i -> length r = i -> length q = n ->
  dot r (vecmat n i W q) = dot (map (dot r) (rows_of i n W)) q.
Proof using Rsr.
  intros HW Hr Hq.
  rewrite (dot_bigsum i) by (done || apply length_vecmat).
  rewrite (dot_bigsum n (map _ _)) by (done || by rewrite length_map, rows_of_length).
  transitivity (bigsum i (fun j => bigsum n (fun a =>
    nth j r s_zero ⊗ nth (a * i + j) W s_zero ⊗ nth a q s_zero))).
  { apply bigsum_ext. intros j Hj. rewrite nth_vecmat, dot_col by done.
    rewrite bigsum_mul_l. apply bigsum_ext. intros a Ha. ring. }
  rewrite bigsum_swap. apply bigsum_ext. intros a Ha.
  rewrite rows_of_rows, map_map, nth_map_seq by done.
  rewrite (dot_row i W r n a) by done.
  by rewrite bigsum_mul_r.
Qed.

Lemma split_last_app (b : list nat) (k : nat) : split_last (b ++ [k]) = Some (b, k).
Proof.
  induction b as [| d b IH]; [done |]. cbn [app split_last]. rewrite IH.
  by destruct (b ++ [k]) eqn:E; [destruct b; discriminate |].
Qed.

Lemma split_last_inv (s b : list nat) (k : nat) :
  split_last s = Some (b, k) -> s = b ++ [k].
Proof.
  revert b. induction s as [| d s IH]; intros b Hs; [discriminate |].
  cbn [split_last] in Hs. destruct s as [| d' s'].
  - by injection Hs as <- <-.
  - destruct (split_last (d' :: s')) as [[b' k'] |]; [| discriminate].
    injection Hs as <- <-. cbn. f_equal. by apply IH.
Qed.

Lemma numel_app (a b : list nat) : numel (a ++ b) = numel a * numel b.
Proof.
  induction a as [| d a IH].
  - change (numel b = 1 * numel b). lia.
  - change (d * numel (a ++ b) = d * numel a * numel b). rewrite IH. lia.
Qed.

Lemma rows_of_cols (n m : nat) (Q : list R) :
  rows_of n m (concat (cols_of n m Q)) = cols_of n m Q.
Proof.
  rewrite <- (cols_of_length n m Q) at 1. apply rows_of_concat, cols_of_Forall.
Qed.

Lemma rows_of_flat_map' {X : Type} (k m : nat) (f : X -> list R) (rows : list X) :
  length rows = m -> (forall r, length (f r) = k) ->
  rows_of k m (flat_map f rows) = map f rows.
Proof. intros <-. apply rows_of_flat_map. Qed.

Lemma flat_map_map {X Y Z' : Type} (f : Y -> list Z') (g : X -> Y) (l : list X) :
  flat_map f (map g l) = flat_map (fun x => f (g x)) l.
Proof. induction l as [| x l IH]; cbn; [done | by rewrite IH]. Qed.

Lemma matmul_inv (x B y : Tensor R) :
  matmul x B = Ok y ->
  exists k o batch,
    shape B = [k; o] /\ split_last (shape x) = Some (batch, k)
    /\ dtype x = dtype B /\ device x = device B
    /\ y = mkTensor (batch ++ [o]) (dtype x) (device x)
            (apply_rows (dtype x) (rows_of k (numel batch) (data x)) (cols_of k o (data B))).
Proof.
  unfold matmul. destruct (shape B) as [| k [| o [| ? ?]]]; try discriminate.
  destruct (split_last (shape x)) as [[batch k'] |]; [| discriminate].
  case_bool_decide as Hc; [| discriminate]. destruct Hc as (-> & Hdt & Hdev).
  intros [= <-]. by exists k', o, batch.
Qed.

Lemma linear_inv (x W y : Tensor R) :
  linear x W = Ok y ->
  exists o k batch,
    shape W = [o; k] /\ split_last (shape x) = Some (batch, k)
    /\ dtype x = dtype W /\ device x = device W
    /\ y = mkTensor (batch ++ [o]) (dtype x) (device x)
            (apply_rows (dtype x) (rows_of k (numel batch) (data x)) (rows_of k o (data W))).
Proof.
  unfold linear. destruct (shape W) as [| o [| k [| ? ?]]]; try discriminate.
  destruct (split_last (shape x)) as [[batch k'] |]; [| discriminate].
  case_bool_decide as Hc; [| discriminate]. destruct Hc as (-> & Hdt & Hdev).
  intros [= <-]. by exists o, k', batch.
Qed.

Lemma wf_rows (x : Tensor R) (batch : list nat) (k : nat) :
  wf x -> split_last (shape x) = Some (batch, k) -> length (data x) = numel batch * k.
Proof.
  unfold wf. intros -> Hs. apply split_last_inv in Hs as ->. rewrite numel_app.
  cbn. lia.
Qed.

Context `{Misc}.

(** Right multiplication by a matrix with orthonormal rows is absorbed
    by a rotated input. *)
Lemma rotate_weight_absorbs (Q W W' : Tensor R) :
  rows_orthonormal Q -> wf W ->
  rotate_weight Q W = Ok W' -> absorbs_rotation Q W W'.
Proof using Rsr round_exact.
  intros (n & HsQ & HwfQ & Horth) HwfW Hrot x y Hwfx Hlin.
  unfold rotate_weight in Hrot.
  destruct (matmul (to_ float64 DEV W) Q) as [Wm |] eqn:Hmm; [| discriminate].
  cbn in Hrot. injection Hrot as <-.
  apply matmul_inv in Hmm as (k & o' & bW & HsQ' & HsW & HdtQ & HdevQ & ->).
  rewrite HsQ in HsQ'. injection HsQ' as <- <-.
  apply linear_inv in Hlin as (o & k2 & batch & HsW2 & Hsx & Hdt & Hdev & ->).
  rewrite to_shape in HsW. rewrite to_dtype_eq in HdtQ. rewrite to_device_eq in HdevQ.
  rewrite HsW2 in HsW. cbn in HsW. injection HsW as <- ->.
  assert (HlenQ : length (data Q) = n * n).
  { unfold wf in HwfQ. rewrite HwfQ, HsQ. cbn. lia. }
  assert (HlenW : length (data W) = o * n).
  { unfold wf in HwfW. rewrite HwfW, HsW2. cbn. lia. }
  pose proof (wf_rows x batch n Hwfx Hsx) as Hlenx.
  unfold matmul. rewrite to_shape, to_dtype_eq, to_device_eq, HsQ, Hsx.
  rewrite bool_decide_eq_true_2 by done.
  eexists _, _. split; [reflexivity |].
  unfold linear, to_like. rewrite !to_shape, !to_dtype_eq, !to_device_eq.
  cbn [shape app].
  rewrite split_last_app. rewrite bool_decide_eq_true_2 by done.
  split; [reflexivity |]. split; [reflexivity |].
  cbn [data]. rewrite !apply_rows_exact, !to_data. cbn [data].
  replace (numel [o]) with o by (cbn; lia).
  fold (vecmat n n (data Q)).
  rewrite !(rows_of_flat_map' n) by (apply rows_of_length || apply length_vecmat).
  rewrite flat_map_map. apply flat_map_ext_in. intros r Hr.
  rewrite map_map. apply map_ext_in. intros w Hw. apply list_elem_of_In in Hw.
  apply dot_vecmat_orthonormal; try done.
  - by apply (rows_of_elem_length n (numel batch) (data x)).
  - by apply (rows_of_elem_length n o (data W)).
Qed.

(** Left multiplication by [Q.T] makes the layer emit rotated outputs. *)
Lemma rotate_weight_left_emits (Q W W' : Tensor R) :
  wf Q -> wf W ->
  rotate_weight_left Q W = Ok W' -> emits_rotation Q W W'.
Proof using Rsr round_exact.
  intros HwfQ HwfW Hrot x y Hwfx Hlin.
  unfold rotate_weight_left in Hrot.
  destruct (T Q) as [Qt |] eqn:HT; [| discriminate]. cbn in Hrot.
  destruct (matmul Qt (to_ float64 DEV W)) as [Wm |] eqn:Hmm; [| discriminate].
  cbn in Hrot. injection Hrot as <-.
  apply T_shape in HT as (n & m & HsQ & HsQt & HdtQt & HdevQt & HdataQt).
  apply matmul_inv in Hmm as (k & i & b & HsW & Hsb & Hdt64 & HdevD & ->).
  rewrite to_shape in HsW. rewrite to_dtype_eq in Hdt64. rewrite to_device_eq in HdevD.
  rewrite HsQt in Hsb. cbn in Hsb. injection Hsb as <- <-.
  apply linear_inv in Hlin as (o & k2 & batch & HsW2 & Hsx & Hdt & Hdev & ->).
  rewrite HsW in HsW2. injection HsW2 as <- <-.
  assert (HlenQ : length (data Q) = n * m).
  { unfold wf in HwfQ. rewrite HwfQ, HsQ. cbn. lia. }
  assert (HlenW : length (data W) = n * i).
  { unfold wf in HwfW. rewrite HwfW, HsW. cbn. lia. }
  pose proof (wf_rows x batch i Hwfx Hsx) as Hlenx.
  unfold matmul. rewrite to_shape, to_dtype_eq, to_device_eq, HsQ.
  cbn [shape]. rewrite split_last_app.
  rewrite bool_decide_eq_true_2 by (by rewrite <- HdtQt, <- HdevQt).
  eexists _, _. split; [reflexivity |].
  unfold linear, to_like. rewrite !to_shape, !to_dtype_eq, !to_device_eq.
  cbn [shape app]. rewrite Hsx. rewrite bool_decide_eq_true_2 by done.
  split; [reflexivity |]. split; [reflexivity |].
  cbn [data]. rewrite !apply_rows_exact, !to_data. cbn [data].
  replace (numel [m]) with m by (cbn; lia).
  rewrite HdataQt, rows_of_cols.
  fold (vecmat n i (data W)).
  rewrite (rows_of_flat_map' i m) by (apply cols_of_length || apply length_vecmat).
  rewrite (rows_of_flat_map' n (numel batch))
    by (apply rows_of_length || (intros; by rewrite length_map, rows_of_length)).
  rewrite flat_map_map. apply flat_map_ext_in. intros r Hr.
  rewrite map_map. apply map_ext_in. intros qc Hqc. apply list_elem_of_In in Hqc.
  apply dot_vecmat_assoc; [done | |].
  - by apply (rows_of_elem_length i (numel batch) (data x)).
  - by eapply (proj1 (Forall_forall _ _) (cols_of_Forall n m (data Q))).
Qed.

Lemma rotate_bias_left_rotated (Q : Tensor R) (dt : DType) (b b' : option (Tensor R)) :
  wf Q -> (forall t, b = Some t -> wf t) ->
  rotate_bias_left Q dt b = Ok b' -> bias_rotated Q b b'.
Proof using Rsr round_exact.
  intros HwfQ Hwfb Hrot. unfold rotate_bias_left in Hrot.
  destruct b as [b |]; [| by injection Hrot as <-].
  specialize (Hwfb b eq_refl).
  destruct (T Q) as [Qt |] eqn:HT; [| discriminate]. cbn in Hrot.
  destruct (matvec Qt (to_ float64 DEV b)) as [bm |] eqn:Hmv; [| discriminate].
  cbn in Hrot. injection Hrot as <-.
  apply T_shape in HT as (n & m & HsQ & HsQt & HdtQt & HdevQt & HdataQt).
  unfold matvec in Hmv. rewrite HsQt, to_shape, to_dtype_eq, to_device_eq in Hmv.
  destruct (shape b) as [| k [| ? ?]] eqn:Hsb; try discriminate.
  case_bool_decide as Hc; [| discriminate]. destruct Hc as (<- & Hdt64 & HdevD).
  injection Hmv as <-.
  assert (Hlenb : length (data b) = n).
  { unfold wf in Hwfb. rewrite Hwfb, Hsb. cbn. lia. }
  cbn [bias_rotated]. unfold matmul. rewrite to_shape, to_dtype_eq, to_device_eq, HsQ, Hsb.
  cbn [split_last]. rewrite bool_decide_eq_true_2 by (by rewrite <- HdtQt, <- HdevQt).
  eexists. split; [reflexivity |]. split; [reflexivity |].
  rewrite to_data, !data_mk, apply_rows_exact, to_data.
  change (numel []) with 1. cbn [rows_of flat_map]. rewrite app_nil_r.
  rewrite HdataQt, rows_of_cols, take_ge by lia.
  apply map_ext_in. intros qc Hqc. apply list_elem_of_In in Hqc.
  rewrite round_exact.
  change (if decide (dtype b = float64) is left _ then data b
          else map (s_round float64) (data b)) with (data (to_ float64 DEV b)).
  rewrite to_data. apply dot_comm. rewrite Hlenb.
  by eapply (proj1 (Forall_forall _ _) (cols_of_Forall n m (data Q))).
Qed.

(** ** Fusion in exact arithmetic *)

Lemma mul_bcast_same_width (W v : Tensor R) (o i : nat) :
  shape W = [o; i] -> shape v = [i] -> device W = device v ->
  mul_bcast W v
  = Ok (mkTensor [o; i] (dtype W) (device W)
          (flat_map (fun r => map (fun c => nth (r * i + c) (data W) s_zero
                                            ⊗ nth c (data v) s_zero) (seq 0 i))
             (seq 0 o))).
Proof using round_exact.
  intros HsW Hsv Hdev. unfold mul_bcast. rewrite HsW, Hsv.
  rewrite bool_decide_eq_true_2 by (split; [by left | done]).
  rewrite Nat.max_id. do 2 f_equal.
  apply flat_map_ext. intros r. apply map_ext_in. intros c Hc. apply in_seq in Hc.
  rewrite round_exact.
  by case_bool_decide; [replace c with 0 by lia |].
Qed.

Lemma rows_of_blocks (i o : nat) (g : nat -> nat -> R) :
  rows_of i o (flat_map (fun r => map (g r) (seq 0 i)) (seq 0 o))
  = map (fun r => map (g r) (seq 0 i)) (seq 0 o).
Proof.
  apply rows_of_flat_map'; [apply length_seq |].
  intros r. by rewrite length_map, length_seq.
Qed.

(** A full matrix is the list of its entries, row by row. *)
Lemma flat_map_entries (i o : nat) (d : list R) :
  length d = o * i ->
  flat_map (fun r => map (fun c => nth (r * i + c) d s_zero) (seq 0 i)) (seq 0 o) = d.
Proof.
  revert d. induction o as [| o IH]; intros d Hd.
  - by destruct d.
  - rewrite seq_S, flat_map_app. cbn [flat_map]. rewrite app_nil_r.
    transitivity (take (o * i) d ++ drop (o * i) d); [| apply take_drop]. f_equal.
    + rewrite <- (IH (take (o * i) d)) by (rewrite length_take; lia).
      apply flat_map_ext_in. intros r Hr. apply list_elem_of_In, in_seq in Hr.
      apply map_ext_in. intros c Hc. apply in_seq in Hc.
      rewrite !nth_lookup, lookup_take_lt; [done | nia].
    + apply nth_ext with (d := s_zero) (d' := s_zero).
      * rewrite length_map, length_seq, length_drop. lia.
      * intros c Hc. rewrite length_map, length_seq in Hc.
        rewrite nth_map_seq by done. rewrite !nth_lookup, lookup_drop. done.
Qed.

Lemma rows_of_entries (i o : nat) (d : list R) :
  length d = o * i ->
  rows_of i o d = map (fun r => map (fun c => nth (r * i + c) d s_zero) (seq 0 i)) (seq 0 o).
Proof.
  intros Hd. rewrite <- (flat_map_entries i o d Hd) at 1. apply rows_of_blocks.
Qed.

Lemma dot_map_seq (i : nat) (f g : nat -> R) :
  dot (map f (seq 0 i)) (map g (seq 0 i)) = bigsum i (fun c => f c ⊗ g c).
Proof using Rsr.
  rewrite (dot_bigsum i) by (by rewrite length_map, length_seq).
  apply bigsum_ext. intros c Hc. by rewrite !nth_map_seq.
Qed.

Lemma scale_folded_absorbed (ln : Norm R) (lin lin' : Linear R) :
  fusable ln lin -> wf (weight lin) -> wf (norm_weight ln) ->
  scale_folded ln lin lin' -> scale_absorbed ln lin lin'.
Proof using Rsr round_exact.
  intros (_ & Hdevs & o & i & HsW & Hss) HwfW Hwfs (W' & Hmul & Hw') x xs y Hwfx Hlast Hxs Hlin.
  rewrite Hw'. clear Hw'.
  assert (HlenW : length (data (weight lin)) = o * i).
  { unfold wf in HwfW. rewrite HwfW, HsW. cbn. lia. }
  assert (exists m, shape x = [m; i]) as [m Hsx].
  { unfold mul_bcast in Hxs. unfold last_dim in Hlast. rewrite Hss in Hlast. cbn in Hlast.
    destruct (shape x) as [| m [| i' [| ? ?]]]; try discriminate.
    cbn in Hlast. injection Hlast as ->. by exists m. }
  assert (Hlenx : length (data x) = m * i).
  { unfold wf in Hwfx. rewrite Hwfx, Hsx. cbn. lia. }
  assert (Hdx : device x = device (norm_weight ln)).
  { unfold mul_bcast in Hxs. rewrite Hsx, Hss in Hxs.
    case_bool_decide as Hc; [by destruct Hc | discriminate]. }
  rewrite (mul_bcast_same_width x _ m i Hsx Hss Hdx) in Hxs. injection Hxs as <-.
  rewrite (mul_bcast_same_width _ _ o i) in Hmul by done. injection Hmul as <-.
  apply linear_inv in Hlin as (o2 & k & batch & HsW2 & Hsxs & Hdt & Hdev & ->).
  rewrite HsW in HsW2. injection HsW2 as <- <-.
  injection Hsxs as <-.
  unfold linear, to_dtype. rewrite to_shape, to_dtype_eq, to_device_eq.
  cbn [shape dtype device] in *. rewrite Hsx. cbn [split_last].
  rewrite bool_decide_eq_true_2 by done.
  do 2 f_equal. rewrite !data_mk, to_data, !data_mk, !apply_rows_exact.
  replace (numel [m]) with m by (cbn; lia).
  rewrite !rows_of_blocks, (rows_of_entries i m (data x)), (rows_of_entries i o (data (weight lin)))
    by done.
  rewrite !flat_map_map. apply flat_map_ext. intros a.
  rewrite !map_map. apply map_ext. intros r.
  rewrite !dot_map_seq. apply bigsum_ext. intros c Hc.
  change (if decide (dtype (weight lin) = float64) is left _ then data (weight lin)
          else map (s_round float64) (data (weight lin)))
    with (data (double (weight lin))).
  change (if decide (dtype (norm_weight ln) = float64) is left _ then data (norm_weight ln)
          else map (s_round float64) (data (norm_weight ln)))
    with (data (double (norm_weight ln))).
  unfold double. rewrite !to_data. ring.
Qed.

Lemma tensor_eq (t u : Tensor R) :
  shape t = shape u -> dtype t = dtype u -> device t = device u -> data t = data u -> t = u.
Proof. destruct t, u. cbn. by intros -> -> -> ->. Qed.

Lemma length_blocks (i o : nat) (g : nat -> nat -> R) :
  length (flat_map (fun r => map (g r) (seq 0 i)) (seq 0 o)) = o * i.
Proof.
  induction o as [| o IH]; [done |].
  rewrite seq_S, flat_map_app, length_app, IH. cbn. rewrite length_app, length_map, length_seq.
  cbn. lia.
Qed.

(** Folding a scale of ones changes nothing. *)
Lemma fuse_ln_linear_step_idem (ln : Norm R) (lin lin' : Linear R) :
  fusable ln lin ->
  fuse_ln_linear_step ln lin = Ok lin' ->
  fusable (reset_scale ln) lin' /\ fuse_ln_linear_step (reset_scale ln) lin' = Ok lin'.
Proof using Rsr round_exact.
  intros (Hb & Hdevs & o & i & HsW & Hss) Hstep.
  unfold fuse_ln_linear_step in Hstep. rewrite Hb in Hstep.
  rewrite (mul_bcast_same_width _ _ o i) in Hstep by done.
  cbn [mbind Result_bind bind] in Hstep. injection Hstep as <-.
  split.
  { split; [done |]. split; [done |]. by exists o, i. }
  unfold fuse_ln_linear_step. cbn [norm_bias reset_scale weight bias out_features norm_weight].
  rewrite Hb.
  rewrite (mul_bcast_same_width _ _ o i); [| done | by cbn; rewrite Hss | by cbn].
  cbn [mbind Result_bind bind]. do 2 f_equal.
  apply tensor_eq; try done.
  unfold double, to_dtype. rewrite !to_data, !data_mk.
  match goal with |- _ = ?rhs => set (d := rhs) end.
  transitivity (flat_map (fun r => map (fun c => nth (r * i + c) d s_zero) (seq 0 i)) (seq 0 o)).
  - apply flat_map_ext_in. intros r Hr. apply map_ext_in. intros c Hc. apply in_seq in Hc.
    unfold ones_like. rewrite data_mk, Hss.
    rewrite (nth_lookup (replicate _ _)), lookup_replicate_2 by (cbn; lia). cbn. ring.
  - apply flat_map_entries, length_blocks.
Qed.

Lemma fuse_layer_idem (model_type : string) (layer layer' : DecoderLayer R) :
  layer_fusable layer ->
  fuse_layer model_type layer = Ok layer' ->
  fuse_layer model_type layer' = Ok layer'.
Proof using Rsr round_exact.
  intros (Hup & Hgate & Hq & Hk & Hv). unfold fuse_layer, fuse_ln_linear. intros Hf.
  destruct (_ || _); [| discriminate].
  cbn [map_result] in *.
  destruct (fuse_ln_linear_step _ (up_proj _)) as [up |] eqn:Eup; [| discriminate].
  cbn [mbind Result_bind bind] in Hf.
  destruct (fuse_ln_linear_step _ (gate_proj _)) as [gate |] eqn:Egate; [| discriminate].
  cbn [mbind Result_bind bind] in Hf.
  destruct (fuse_ln_linear_step _ (q_proj _)) as [q |] eqn:Eq; [| discriminate].
  cbn [mbind Result_bind bind] in Hf.
  destruct (fuse_ln_linear_step _ (k_proj _)) as [k |] eqn:Ek; [| discriminate].
  cbn [mbind Result_bind bind] in Hf.
  destruct (fuse_ln_linear_step _ (v_proj _)) as [v |] eqn:Ev; [| discriminate].
  cbn [mbind Result_bind bind] in Hf. injection Hf as <-.
  cbn [mlp self_attn up_proj gate_proj q_proj k_proj v_proj o_proj down_proj
         input_layernorm post_attention_layernorm].
  rewrite (proj2 (fuse_ln_linear_step_idem _ _ _ Hup Eup)).
  rewrite (proj2 (fuse_ln_linear_step_idem _ _ _ Hgate Egate)).
  rewrite (proj2 (fuse_ln_linear_step_idem _ _ _ Hq Eq)).
  rewrite (proj2 (fuse_ln_linear_step_idem _ _ _ Hk Ek)).
  rewrite (proj2 (fuse_ln_linear_step_idem _ _ _ Hv Ev)).
  cbn [mbind Result_bind bind]. do 2 f_equal.
Qed.

(** What [fuse_layer_norms] did when it returned. *)
Lemma fuse_layer_norms_inv (model model' : CausalLM R) :
  fuse_layer_norms model = Ok model' ->
  exists (model_type : string) (layers' : list (DecoderLayer R)) (head' : Linear R),
    get_model_type model = Ok model_type
    /\ get_transformer_layers model model_type = Ok (layers (Transformers.model model))
    /\ map_result (fuse_layer model_type) (layers (Transformers.model model)) = Ok layers'
    /\ fuse_ln_linear_step (norm (Transformers.model model)) (lm_head model) = Ok head'
    /\ model' = mkCausalLM (lm_mro model)
                  (mkDecoder
                     (if tied_embeddings model then weight head'
                      else embed_tokens (Transformers.model model))
                     layers'
                     (reset_scale (norm (Transformers.model model))))
                  head'
                  (tied_embeddings model).
Proof.
  unfold fuse_layer_norms. intros Hf.
  destruct (get_model_type model) as [model_type |] eqn:Hmt; [| discriminate].
  cbn [mbind Result_bind bind] in Hf.
  destruct (get_transformer_layers model model_type) as [ls |] eqn:Hls; [| discriminate].
  cbn [mbind Result_bind bind] in Hf.
  assert (ls = layers (Transformers.model model)) as ->.
  { unfold get_transformer_layers in Hls.
    repeat (case_bool_decide; [by injection Hls |]). discriminate. }
  destruct (map_result _ _) as [ls' |] eqn:Hmap; [| discriminate].
  cbn [mbind Result_bind bind] in Hf.
  unfold fuse_ln_linear in Hf. cbn [map_result] in Hf.
  destruct (fuse_ln_linear_step _ (lm_head model)) as [head |] eqn:Hhead; [| discriminate].
  cbn in Hf. injection Hf as <-. by exists model_type, ls', head.
Qed.

Lemma map_result_idem {X : Type} (f : X -> Result X) (l l' : list X) (Pre : X -> Prop) :
  (forall x x', Pre x -> f x = Ok x' -> f x' = Ok x') ->
  Forall Pre l -> map_result f l = Ok l' -> map_result f l' = Ok l'.
Proof.
  intros Hidem Hall. revert l'. induction Hall as [| x l Hx _ IH]; intros l' Hm; cbn in Hm.
  - by injection Hm as <-.
  - destruct (f x) as [x' |] eqn:Hfx; [| discriminate]. cbn in Hm.
    destruct (map_result f l) as [xs |]; [| discriminate]. cbn in Hm.
    injection Hm as <-. cbn. rewrite (Hidem x x' Hx Hfx). cbn. by rewrite (IH xs).
Qed.

Lemma get_model_type_mro {A B : Type} `{HasMro A} `{HasMro B} (a : A) (b : B) :
  mro a = mro b -> get_model_type a = get_model_type b.
Proof. intros Hm. unfold get_model_type, isinstance. by rewrite Hm. Qed.

Lemma get_transformer_layers_ok (model model2 : CausalLM R) (model_type : string)
    (ls : list (DecoderLayer R)) :
  get_transformer_layers model model_type = Ok ls ->
  get_transformer_layers model2 model_type = Ok (layers (Transformers.model model2)).
Proof.
  unfold get_transformer_layers.
  repeat (case_bool_decide; [done |]). discriminate.
Qed.

(** X2: in exact arithmetic, fusing the layer norms of a model whose
    norms are bias-free and as wide as the layers they feed is
    idempotent: a second call returns the model the first call returned. *)
Theorem fuse_layer_norms_idempotent (model model' : CausalLM R) :
  Forall layer_fusable (layers (Transformers.model model)) ->
  fusable (norm (Transformers.model model)) (lm_head model) ->
  fuse_layer_norms model = Ok model' ->
  fuse_layer_norms model' = Ok model'.
Proof using Rsr round_exact.
  intros Hlayers Hhead Hf.
  apply fuse_layer_norms_inv in Hf as (mt & ls' & head' & Hmt & Hls & Hmap & Hstep & ->).
  unfold fuse_layer_norms.
  rewrite (get_model_type_mro _ model) by done. rewrite Hmt.
  cbn [mbind Result_bind bind].
  rewrite (get_transformer_layers_ok _ _ _ _ Hls). cbn [mbind Result_bind bind].
  cbn [Transformers.model layers norm lm_head embed_tokens lm_mro tied_embeddings].
  rewrite (map_result_idem _ _ _ layer_fusable (fuse_layer_idem mt) Hlayers Hmap).
  cbn [mbind Result_bind bind]. unfold fuse_ln_linear. cbn [map_result].
  destruct (fuse_ln_linear_step_idem _ _ _ Hhead Hstep) as [_ ->].
  cbn [mbind Result_bind bind]. do 3 f_equal. by destruct (tied_embeddings model).
Qed.

Lemma fuse_layer_absorbed (model_type : string) (layer layer' : DecoderLayer R) :
  layer_fusable layer -> layer_wf layer ->
  fuse_layer model_type layer = Ok layer' -> layer_absorbed layer layer'.
Proof using Rsr round_exact.
  intros (Hup & Hgate & Hq & Hk & Hv) (Wup & Wgate & Wq & Wk & Wv & Wpost & Win) Hf.
  apply fuse_layer_fused in Hf as (Fup & Fgate & Fq & Fk & Fv & _).
  repeat split; by apply scale_folded_absorbed.
Qed.

(** X1: in exact arithmetic, fusion preserves what every fused
    projection computes: when [fuse_layer_norms] returns on a model whose
    norms are bias-free and as wide as the layers they feed, each fused
    projection maps an input [x] to what the projection it replaces maps
    the scaled input [x * scale] to. *)
Theorem fuse_layer_norms_preserves_function (model model' : CausalLM R) :
  Forall (fun layer => layer_fusable layer /\ layer_wf layer)
    (layers (Transformers.model model)) ->
  fusable (norm (Transformers.model model)) (lm_head model) ->
  wf (weight (lm_head model)) -> wf (norm_weight (norm (Transformers.model model))) ->
  fuse_layer_norms model = Ok model' ->
  Forall2 layer_absorbed (layers (Transformers.model model))
    (layers (Transformers.model model'))
  /\ scale_absorbed (norm (Transformers.model model)) (lm_head model) (lm_head model').
Proof using Rsr round_exact.
  intros Hlayers Hhead Hwfh Hwfn Hf.
  apply fuse_layer_norms_inv in Hf as (mt & ls' & head' & Hmt & Hls & Hmap & Hstep & ->).
  cbn [Transformers.model layers lm_head]. split.
  - apply map_result_Forall2 in Hmap. clear Hls.
    induction Hmap as [| l l' ls ls2 Hl _ IH]; [constructor |].
    apply Forall_cons in Hlayers as [[Hfus Hwf] Hlayers].
    constructor; [by eapply fuse_layer_absorbed | by apply IH].
  - apply scale_folded_absorbed; try done. by apply fuse_ln_linear_step_folded.
Qed.

End ExactSpec.

Lemma Z_semi_ring : semi_ring_theory (R := Z) s_zero s_one s_add s_mul eq.
Proof. constructor; cbn; intros; lia. Qed.

Lemma Z_round_exact (dt : DType) (x : Z) : s_round dt x = x.
Proof. reflexivity. Qed.

Lemma tiny_llama_fusable :
  Forall (fun layer => layer_fusable layer /\ layer_wf layer)
    (layers (Transformers.model tiny_llama))
  /\ fusable (norm (Transformers.model tiny_llama)) (lm_head tiny_llama).
Proof.
  split.
  - repeat constructor; by exists 2, 2.
  - repeat constructor. by exists 2, 2.
Qed.

Lemma fuse_layer_norms_idempotent_witness :
  fuse_layer_norms tiny_llama_fused = Ok tiny_llama_fused.
Proof.
  apply (fuse_layer_norms_idempotent Z_semi_ring Z_round_exact tiny_llama tiny_llama_fused).
  - eapply Forall_impl; [apply tiny_llama_fusable |]. by intros l [Hl _].
  - apply tiny_llama_fusable.
  - vm_compute. reflexivity.
Defined.

Lemma fuse_layer_norms_preserves_function_witness :
  Forall2 layer_absorbed (layers (Transformers.model tiny_llama))
    (layers (Transformers.model tiny_llama_fused))
  /\ scale_absorbed (norm (Transformers.model tiny_llama)) (lm_head tiny_llama)
       (lm_head tiny_llama_fused).
Proof.
  apply (fuse_layer_norms_preserves_function Z_semi_ring Z_round_exact tiny_llama
           tiny_llama_fused).
  - apply tiny_llama_fusable.
  - apply tiny_llama_fusable.
  - reflexivity.
  - reflexivity.
  - vm_compute. reflexivity.
Defined.


Lemma fuse_layer_norms_returns_witness :
  exists model', fuse_layer_norms tiny_llama = Ok model'.
Proof.
  apply (fuse_layer_norms_returns tiny_llama).
  - reflexivity.
  - eapply Forall_impl; [apply tiny_llama_fusable |]. by intros l [Hl _].
  - apply tiny_llama_fusable.
Defined.

(** ** Rotation of a model *)

Section RotSpec.
Context {R : Type} `{Scalar R} `{Misc} `{HadamardUtils R}.

Lemma supported_type_guard (model_type : string) :
  bool_decide (model_type = LLAMA_MODEL) || bool_decide (model_type = MISTRAL_MODEL)
  || bool_decide (model_type = QW_MODEL) = true
  <-> model_type ∈ [LLAMA_MODEL; MISTRAL_MODEL; QW_MODEL].
Proof.
  rewrite !orb_true_iff, !bool_decide_eq_true, !elem_of_cons, elem_of_nil. tauto.
Qed.

Lemma rotate_attention_inputs_inv (layer layer' : DecoderLayer R) (Q : Tensor R)
    (model_type : string) :
  rotate_attention_inputs layer Q model_type = Ok layer' ->
  exists q k v : Linear R,
    rotate_linear Q (q_proj (self_attn layer)) = Ok q
    /\ rotate_linear Q (k_proj (self_attn layer)) = Ok k
    /\ rotate_linear Q (v_proj (self_attn layer)) = Ok v
    /\ layer' = mkDecoderLayer (mkAttention q k v (o_proj (self_attn layer))) (mlp layer)
                  (input_layernorm layer) (post_attention_layernorm layer).
Proof.
  unfold rotate_attention_inputs. cbn [map_result]. intros Hr.
  destruct (rotate_linear Q (q_proj _)) as [q |]; [| discriminate].
  cbn [mbind Result_bind bind] in Hr.
  destruct (rotate_linear Q (k_proj _)) as [k |]; [| discriminate].
  cbn [mbind Result_bind bind] in Hr.
  destruct (rotate_linear Q (v_proj _)) as [v |]; [| discriminate].
  cbn [mbind Result_bind bind] in Hr. injection Hr as <-. by exists q, k, v.
Qed.

Lemma rotate_attention_output_inv (layer layer' : DecoderLayer R) (Q : Tensor R)
    (model_type : string) :
  rotate_attention_output layer Q model_type = Ok layer' ->
  exists (w : Tensor R) (b : option (Tensor R)),
    model_type ∈ [LLAMA_MODEL; MISTRAL_MODEL; QW_MODEL]
    /\ rotate_weight_left Q (weight (o_proj (self_attn layer))) = Ok w
    /\ rotate_bias_left Q (dtype (weight (o_proj (self_attn layer))))
         (bias (o_proj (self_attn layer))) = Ok b
    /\ layer' = mkDecoderLayer
                  (mkAttention (q_proj (self_attn layer)) (k_proj (self_attn layer))
                     (v_proj (self_attn layer))
                     (mkLinear w b (out_features (o_proj (self_attn layer)))))
                  (mlp layer) (input_layernorm layer) (post_attention_layernorm layer).
Proof.
  unfold rotate_attention_output. intros Hr.
  destruct (_ || _) eqn:Hg; [| discriminate]. apply supported_type_guard in Hg.
  cbn [mbind Result_bind bind] in Hr.
  destruct (rotate_weight_left Q _) as [w |]; [| discriminate].
  cbn [mbind Result_bind bind] in Hr.
  destruct (rotate_bias_left Q _ _) as [b |]; [| discriminate].
  cbn [mbind Result_bind bind] in Hr. injection Hr as <-. by exists w, b.
Qed.

Lemma rotate_mlp_input_inv (layer layer' : DecoderLayer R) (Q : Tensor R)
    (model_type : string) :
  rotate_mlp_input layer Q model_type = Ok layer' ->
  exists up gate : Linear R,
    rotate_linear Q (up_proj (mlp layer)) = Ok up
    /\ rotate_linear Q (gate_proj (mlp layer)) = Ok gate
    /\ layer' = mkDecoderLayer (self_attn layer) (mkMLP gate up (down_proj (mlp layer)))
                  (input_layernorm layer) (post_attention_layernorm layer).
Proof.
  unfold rotate_mlp_input. intros Hr.
  destruct (_ || _); [| discriminate].
  cbn [mbind Result_bind bind map_result] in Hr.
  destruct (rotate_linear Q (up_proj _)) as [up |]; [| discriminate].
  cbn [mbind Result_bind bind] in Hr.
  destruct (rotate_linear Q (gate_proj _)) as [gate |]; [| discriminate].
  cbn [mbind Result_bind bind] in Hr. injection Hr as <-. by exists up, gate.
Qed.

Lemma rotate_mlp_output_inv (layer layer' : DecoderLayer R) (Q : Tensor R)
    (model_type : string) :
  rotate_mlp_output layer Q model_type = Ok layer' ->
  exists down : Linear R,
    layer' = mkDecoderLayer (self_attn layer)
               (mkMLP (gate_proj (mlp layer)) (up_proj (mlp layer)) down)
               (input_layernorm layer) (post_attention_layernorm layer).
Proof.
  unfold rotate_mlp_output. intros Hr.
  destruct (_ || _); [| discriminate].
  cbn [mbind Result_bind bind] in Hr.
  destruct (rotate_weight_left Q _) as [w |]; [| discriminate].
  cbn [mbind Result_bind bind] in Hr.
  destruct (apply_exact_had_to_linear _ _ _) as [W |]; [| discriminate].
  cbn [mbind Result_bind bind] in Hr.
  destruct (rotate_bias_left Q _ _) as [b |]; [| discriminate].
  cbn [mbind Result_bind bind] in Hr. injection Hr as <-. by eexists.
Qed.

Lemma rotate_ov_proj_inv (layer layer' : DecoderLayer R) (model_type : string)
    (head_num head_dim : Z) :
  rotate_ov_proj layer model_type head_num head_dim = Ok layer' ->
  exists v o : Linear R,
    layer' = mkDecoderLayer
               (mkAttention (q_proj (self_attn layer)) (k_proj (self_attn layer)) v o)
               (mlp layer) (input_layernorm layer) (post_attention_layernorm layer).
Proof.
  unfold rotate_ov_proj. intros Hr.
  destruct (_ || _); [| discriminate].
  cbn [mbind Result_bind bind] in Hr.
  destruct (apply_exact_had_to_linear (v_proj _) _ _) as [v |]; [| discriminate].
  cbn [mbind Result_bind bind] in Hr.
  destruct (apply_exact_had_to_linear (o_proj _) _ _) as [o |]; [| discriminate].
  cbn [mbind Result_bind bind] in Hr. injection Hr as <-. by eexists _, _.
Qed.

Lemma model_type_extractor_mro {A B : Type} `{HasMro A} `{HasMro B} (a : A) (b : B) :
  mro a = mro b -> model_type_extractor a = model_type_extractor b.
Proof. intros Hm. unfold model_type_extractor, isinstance. by rewrite Hm. Qed.

Lemma rotate_layer_rotated (Q : Tensor R) (model_type : string) (num_heads head_dim : Z)
    (layer layer' : DecoderLayer R) :
  rotate_layer Q model_type num_heads head_dim layer = Ok layer' ->
  layer_rotated Q layer layer'.
Proof.
  unfold rotate_layer. intros Hr.
  destruct (rotate_attention_inputs layer Q model_type) as [l1 |] eqn:E1; [| discriminate].
  cbn [mbind Result_bind bind] in Hr.
  destruct (rotate_attention_output l1 Q model_type) as [l2 |] eqn:E2; [| discriminate].
  cbn [mbind Result_bind bind] in Hr.
  destruct (rotate_mlp_input l2 Q model_type) as [l3 |] eqn:E3; [| discriminate].
  cbn [mbind Result_bind bind] in Hr.
  destruct (rotate_mlp_output l3 Q model_type) as [l4 |] eqn:E4; [| discriminate].
  cbn [mbind Result_bind bind] in Hr.
  apply rotate_attention_inputs_inv in E1 as (q & k & v & Hq & Hk & Hv & ->).
  apply rotate_attention_output_inv in E2 as (w & b & _ & _ & _ & ->).
  apply rotate_mlp_input_inv in E3 as (up & gate & Hup & Hgate & ->).
  apply rotate_mlp_output_inv in E4 as (down & ->).
  apply rotate_ov_proj_inv in Hr as (v' & o' & ->).
  by repeat split.
Qed.

Lemma get_embeddings_supported (model : CausalLM R) (model_type : string) :
  model_type ∈ [LLAMA_MODEL; MISTRAL_MODEL; QW_MODEL] ->
  get_embeddings model model_type = Ok [embed_tokens (Transformers.model model)].
Proof.
  intros Hty. repeat (apply elem_of_cons in Hty as [-> | Hty]; [reflexivity |]).
  by apply elem_of_nil in Hty.
Qed.

Lemma get_lm_head_supported (model : CausalLM R) (model_type : string) :
  model_type ∈ [LLAMA_MODEL; MISTRAL_MODEL; QW_MODEL] ->
  get_lm_head model model_type = Ok (lm_head model).
Proof.
  intros Hty. repeat (apply elem_of_cons in Hty as [-> | Hty]; [reflexivity |]).
  by apply elem_of_nil in Hty.
Qed.

Lemma get_transformer_layers_supported (model : CausalLM R) (model_type : string) :
  model_type ∈ [LLAMA_MODEL; MISTRAL_MODEL; QW_MODEL] ->
  get_transformer_layers model model_type = Ok (layers (Transformers.model model)).
Proof.
  intros Hty. repeat (apply elem_of_cons in Hty as [-> | Hty]; [reflexivity |]).
  by apply elem_of_nil in Hty.
Qed.

(** What [rotate_model] did when it returned. *)
Lemma rotate_model_inv (config : Config) (model model' : CausalLM R) (Q : Tensor R) :
  rotate_model config model Q = Ok model' ->
  exists (model_type : string) (W : Tensor R) (head : Linear R)
         (layers' : list (DecoderLayer R)),
    num_attention_heads config ≠ 0%Z
    /\ model_type_extractor model = Ok model_type
    /\ rotate_weight Q (embed_tokens (Transformers.model model)) = Ok W
    /\ rotate_linear Q (lm_head (with_embed_tokens model W)) = Ok head
    /\ map_result (rotate_layer Q model_type (num_attention_heads config)
                     (hidden_size config / num_attention_heads config))
         (layers (Transformers.model model)) = Ok layers'
    /\ model' = mkCausalLM (lm_mro model)
                  (mkDecoder (if tied_embeddings model then weight head else W) layers'
                     (norm (Transformers.model model)))
                  head (tied_embeddings model).
Proof.
  unfold rotate_model, floordiv. intros Hr.
  case_bool_decide as Hheads; [discriminate |]. cbn [mbind Result_bind bind] in Hr.
  destruct (model_type_extractor model) as [mt |] eqn:Hmt; [| discriminate].
  cbn [mbind Result_bind bind] in Hr.
  assert (Hsup : mt ∈ [LLAMA_MODEL; MISTRAL_MODEL; QW_MODEL]).
  { unfold model_type_extractor in Hmt.
    repeat (destruct (isinstance model _); [injection Hmt as <-; set_solver |]).
    discriminate. }
  destruct (rotate_embeddings model Q) as [m1 |] eqn:E1; [| discriminate].
  cbn [mbind Result_bind bind] in Hr.
  destruct (rotate_head m1 Q) as [m2 |] eqn:E2; [| discriminate].
  cbn [mbind Result_bind bind] in Hr.
  unfold rotate_embeddings in E1. rewrite Hmt in E1. cbn [mbind Result_bind bind] in E1.
  rewrite (get_embeddings_supported _ _ Hsup) in E1. cbn [mbind Result_bind bind map_result] in E1.
  destruct (rotate_weight Q _) as [W |] eqn:HW; [| discriminate].
  cbn [mbind Result_bind bind] in E1. injection E1 as <-.
  unfold rotate_head in E2.
  rewrite (model_type_extractor_mro _ model) in E2 by done.
  rewrite Hmt in E2. cbn [mbind Result_bind bind] in E2.
  rewrite (get_lm_head_supported _ _ Hsup) in E2. cbn [mbind Result_bind bind] in E2.
  destruct (rotate_linear Q (lm_head (with_embed_tokens model W))) as [head |] eqn:Hh;
    [| discriminate].
  cbn [mbind Result_bind bind] in E2. injection E2 as <-.
  rewrite (get_transformer_layers_supported _ _ Hsup) in Hr. cbn [mbind Result_bind bind] in Hr.
  unfold with_lm_head, with_embed_tokens in Hr.
  cbn [Transformers.model layers lm_mro embed_tokens norm lm_head tied_embeddings] in Hr.
  destruct (map_result _ _) as [ls' |] eqn:Hmap; [| discriminate].
  cbn [mbind Result_bind bind] in Hr. injection Hr as <-.
  by exists mt, W, head, ls'.
Qed.

Lemma rotate_weight_tags (Q W W' : Tensor R) :
  rotate_weight Q W = Ok W' -> dtype W' = dtype W /\ device W' = DEV.
Proof.
  unfold rotate_weight. destruct (matmul _ Q); [| discriminate].
  by intros [= <-].
Qed.

Lemma rotate_linear_inv (Q : Tensor R) (W W' : Linear R) :
  rotate_linear Q W = Ok W' ->
  rotate_weight Q (weight W) = Ok (weight W')
  /\ bias W' = bias W /\ out_features W' = out_features W.
Proof.
  unfold rotate_linear. destruct (rotate_weight Q (weight W)) as [w |]; [| discriminate].
  by intros [= <-].
Qed.

(** X4: when [rotate_model] returns, the head count is not zero and the
    model is of a supported family; the classes of the model, the tying
    of its embeddings, its final norm, the bias of its head and the two
    norms of every layer are untouched and no layer is added or dropped;
    the query, key, up and gate projections of every layer have been
    multiplied by [Q] on the right exactly once, and a weight rotated
    this way keeps its dtype and ends on [misc.DEV].  On a model whose
    head is not tied to the embedding, the embedding and the head have
    each been multiplied by [Q] exactly once; with tied embeddings the one
    weight the two share has been multiplied by [Q] twice, once by
    [rotate_embeddings] and once more by [rotate_head]. *)
Theorem rotate_model_frame (config : Config) (model model' : CausalLM R) (Q : Tensor R) :
  rotate_model config model Q = Ok model' ->
  num_attention_heads config ≠ 0%Z
  /\ supported model = true
  /\ lm_mro model' = lm_mro model
  /\ tied_embeddings model' = tied_embeddings model
  /\ norm (Transformers.model model') = norm (Transformers.model model)
  /\ bias (lm_head model') = bias (lm_head model)
  /\ out_features (lm_head model') = out_features (lm_head model)
  /\ (if tied_embeddings model then
        exists W : Tensor R,
          rotate_weight Q (embed_tokens (Transformers.model model)) = Ok W
          /\ rotate_weight Q W = Ok (embed_tokens (Transformers.model model'))
          /\ weight (lm_head model') = embed_tokens (Transformers.model model')
      else
        rotate_weight Q (embed_tokens (Transformers.model model))
        = Ok (embed_tokens (Transformers.model model'))
        /\ rotate_weight Q (weight (lm_head model)) = Ok (weight (lm_head model')))
  /\ Forall2 (layer_rotated Q) (layers (Transformers.model model))
       (layers (Transformers.model model'))
  /\ (forall W W' : Tensor R,
        rotate_weight Q W = Ok W' -> dtype W' = dtype W /\ device W' = DEV).
Proof.
  intros Hr.
  apply rotate_model_inv in Hr as (mt & W & head & ls' & Hheads & Hmt & HW & Hhead & Hmap & ->).
  cbn [lm_mro Transformers.model norm embed_tokens lm_head layers tied_embeddings].
  apply rotate_linear_inv in Hhead as (Hhw & Hhb & Hho).
  unfold with_embed_tokens in Hhw, Hhb, Hho. cbn [lm_head tied_embeddings] in Hhw, Hhb, Hho.
  split; [done |]. split.
  { unfold supported. unfold model_type_extractor in Hmt.
    destruct (isinstance model LLAMA_MODEL); [done |].
    destruct (isinstance model MISTRAL_MODEL); [done |].
    by destruct (isinstance model QW_MODEL). }
  split; [done |]. split; [done |]. split; [done |].
  split; [by destruct (tied_embeddings model) |].
  split; [by destruct (tied_embeddings model) |].
  split.
  { destruct (tied_embeddings model); [| done]. cbn [weight] in Hhw. by exists W. }
  split; [| apply rotate_weight_tags].
  apply map_result_Forall2 in Hmap.
  eapply Forall2_impl; [exact Hmap |]. intros l l' Hl.
  exact (rotate_layer_rotated _ _ _ _ _ _ Hl).
Qed.

Section ExactRot.
Hypothesis Rsr : semi_ring_theory s_zero s_one s_add s_mul (@eq R).
Hypothesis round_exact : forall (dt : DType) (x : R), s_round dt x = x.

Lemma rotate_linear_absorbs (Q : Tensor R) (W W' : Linear R) :
  rows_orthonormal Q -> wf (weight W) ->
  rotate_linear Q W = Ok W' -> absorbs_rotation Q (weight W) (weight W').
Proof using Rsr round_exact.
  intros HQ Hwf Hr. apply rotate_linear_inv in Hr as (Hr & _).
  by apply (rotate_weight_absorbs Rsr round_exact).
Qed.

(** X5: in exact arithmetic and for a matrix [Q] with orthonormal rows
    ([Q @ Q.T = I]), [rotate_model] preserves what the query, key, up and
    gate projections of every layer compute, and what the head computes
    when it is not tied to the embedding: each of them maps a rotated
    hidden state [x @ Q] to what it mapped [x] to before the call. *)
Theorem rotate_model_absorbs_rotation (config : Config) (model model' : CausalLM R)
    (Q : Tensor R) :
  rows_orthonormal Q ->
  Forall inputs_wf (layers (Transformers.model model)) ->
  wf (weight (lm_head model)) ->
  rotate_model config model Q = Ok model' ->
  Forall2 (layer_absorbs_rotation Q) (layers (Transformers.model model))
    (layers (Transformers.model model'))
  /\ (tied_embeddings model = false ->
      absorbs_rotation Q (weight (lm_head model)) (weight (lm_head model'))).
Proof using Rsr round_exact.
  intros HQ Hwfl Hwfh Hr.
  apply rotate_model_inv in Hr as (mt & W & head & ls' & _ & _ & _ & Hhead & Hmap & ->).
  cbn [Transformers.model layers lm_head].
  split.
  2:{ intros Huntied. unfold with_embed_tokens in Hhead. rewrite Huntied in Hhead.
      cbn [lm_head] in Hhead. by apply rotate_linear_absorbs. }
  apply map_result_Forall2 in Hmap.
  induction Hmap as [| l l' ls ls2 Hl _ IH]; [constructor |].
  apply Forall_cons in Hwfl as [(Wq & Wk & Wup & Wgate) Hwfl].
  constructor; [| by apply IH].
  apply rotate_layer_rotated in Hl as (_ & _ & Hq & Hk & Hup & Hgate).
  repeat split; by apply rotate_linear_absorbs.
Qed.

(** X6: in exact arithmetic, [rotate_attention_output] makes the output
    projection emit rotated outputs: the new projection maps an input [x]
    to [y @ Q] where the old one maps it to [y], its bias is the old bias
    times [Q], and the rest of the layer is untouched. *)
Theorem rotate_attention_output_emits_rotation (layer layer' : DecoderLayer R)
    (Q : Tensor R) (model_type : string) :
  wf Q -> wf (weight (o_proj (self_attn layer))) ->
  (forall b, bias (o_proj (self_attn layer)) = Some b -> wf b) ->
  rotate_attention_output layer Q model_type = Ok layer' ->
  emits_rotation Q (weight (o_proj (self_attn layer))) (weight (o_proj (self_attn layer')))
  /\ bias_rotated Q (bias (o_proj (self_attn layer))) (bias (o_proj (self_attn layer')))
  /\ q_proj (self_attn layer') = q_proj (self_attn layer)
  /\ k_proj (self_attn layer') = k_proj (self_attn layer)
  /\ v_proj (self_attn layer') = v_proj (self_attn layer)
  /\ mlp layer' = mlp layer
  /\ input_layernorm layer' = input_layernorm layer
  /\ post_attention_layernorm layer' = post_attention_layernorm layer.
Proof using Rsr round_exact.
  intros HwfQ HwfW Hwfb Hr.
  apply rotate_attention_output_inv in Hr as (w & b & _ & Hw & Hb & ->).
  cbn [self_attn o_proj q_proj k_proj v_proj mlp input_layernorm post_attention_layernorm
         weight bias].
  split; [by apply (rotate_weight_left_emits Rsr round_exact) |].
  split; [by eapply (rotate_bias_left_rotated Rsr round_exact) |].
  done.
Qed.

End ExactRot.

End RotSpec.

Lemma quarter_turn_dev_orthonormal : rows_orthonormal quarter_turn_dev.
Proof.
  exists 2. split; [reflexivity |]. split; [reflexivity |].
  intros a b Ha Hb. destruct a as [| [| a]], b as [| [| b]]; try lia; reflexivity.
Qed.

Lemma rotate_model_frame_witness :
  num_attention_heads tiny_config ≠ 0%Z
  /\ supported tiny_llama = true
  /\ lm_mro tiny_llama_rotated = lm_mro tiny_llama
  /\ tied_embeddings tiny_llama_rotated = tied_embeddings tiny_llama
  /\ norm (Transformers.model tiny_llama_rotated) = norm (Transformers.model tiny_llama)
  /\ bias (lm_head tiny_llama_rotated) = bias (lm_head tiny_llama)
  /\ out_features (lm_head tiny_llama_rotated) = out_features (lm_head tiny_llama)
  /\ (rotate_weight quarter_turn_dev (embed_tokens (Transformers.model tiny_llama))
      = Ok (embed_tokens (Transformers.model tiny_llama_rotated))
      /\ rotate_weight quarter_turn_dev (weight (lm_head tiny_llama))
         = Ok (weight (lm_head tiny_llama_rotated)))
  /\ Forall2 (layer_rotated quarter_turn_dev) (layers (Transformers.model tiny_llama))
       (layers (Transformers.model tiny_llama_rotated))
  /\ (forall W W' : Tensor Z,
        rotate_weight quarter_turn_dev W = Ok W' -> dtype W' = dtype W /\ device W' = DEV).
Proof.
  apply (rotate_model_frame tiny_config tiny_llama tiny_llama_rotated quarter_turn_dev).
  vm_compute. reflexivity.
Defined.

(** On a model with tied embeddings the shared weight is rotated twice:
    for the quarter turn it ends as the negative of the weight, not as
    the weight times [Q]. *)
Lemma rotate_model_tied_embeddings :
  exists model' : CausalLM Z,
    rotate_model tiny_config tiny_llama_tied quarter_turn_dev = Ok model'
    /\ embed_tokens (Transformers.model model') = tied_weight_rotated
    /\ weight (lm_head model') = tied_weight_rotated
    /\ rotate_weight quarter_turn_dev (embed_tokens (Transformers.model tiny_llama_tied))
       = Ok (mkTensor [3; 2] float16 cuda [0; 1; -1; 0; -1; 1]%Z).
Proof. eexists. split; [vm_compute; reflexivity |]. by repeat split. Qed.

Lemma rotate_model_absorbs_rotation_witness :
  Forall2 (layer_absorbs_rotation quarter_turn_dev) (layers (Transformers.model tiny_llama))
    (layers (Transformers.model tiny_llama_rotated))
  /\ (tied_embeddings tiny_llama = false ->
      absorbs_rotation quarter_turn_dev (weight (lm_head tiny_llama))
        (weight (lm_head tiny_llama_rotated))).
Proof.
  apply (rotate_model_absorbs_rotation Z_semi_ring Z_round_exact tiny_config tiny_llama
           tiny_llama_rotated quarter_turn_dev).
  - exact quarter_turn_dev_orthonormal.
  - repeat constructor.
  - reflexivity.
  - vm_compute. reflexivity.
Defined.

Lemma rotate_attention_output_emits_rotation_witness :
  emits_rotation quarter_turn_dev (weight (o_proj (self_attn biased_layer)))
    (weight (o_proj (self_attn biased_layer_rotated)))
  /\ bias_rotated quarter_turn_dev (bias (o_proj (self_attn biased_layer)))
       (bias (o_proj (self_attn biased_layer_rotated)))
  /\ q_proj (self_attn biased_layer_rotated) = q_proj (self_attn biased_layer)
  /\ k_proj (self_attn biased_layer_rotated) = k_proj (self_attn biased_layer)
  /\ v_proj (self_attn biased_layer_rotated) = v_proj (self_attn biased_layer)
  /\ mlp biased_layer_rotated = mlp biased_layer
  /\ input_layernorm biased_layer_rotated = input_layernorm biased_layer
  /\ post_attention_layernorm biased_layer_rotated = post_attention_layernorm biased_layer.
Proof.
  apply (rotate_attention_output_emits_rotation Z_semi_ring Z_round_exact biased_layer
           biased_layer_rotated quarter_turn_dev LLAMA_MODEL).
  - reflexivity.
  - reflexivity.
  - intros b [= <-]. reflexivity.
  - vm_compute. reflexivity.
Defined.

(** ** The matrix generators *)

Section OrthSpec.
Context {R Rng : Type} `{Scalar R} `{Elementwise R} `{Random R Rng} `{Generators R Rng}.

(** X9: the modes of [get_orthogonal_matrix].  A mode that is not one of
    the five raises [ValueError] for every size and leaves the random
    state alone; so do the failures of the modes that read [indices]:
    [orthogonal_procrustes] raises [AssertionError] without [indices] and
    otherwise returns the object it was given, whatever the size and the
    device; [householder] raises [AssertionError] unless [indices] is a
    list, and for the empty list returns the identity in double precision
    on the device. *)
Theorem get_orthogonal_matrix_modes (size : nat) (mode : string) (device : Device)
    (indices : option (Indices R)) (rng : Rng) :
  (mode ∉ orthogonal_modes ->
   get_orthogonal_matrix size mode device indices rng = (Raise ValueError, rng))
  /\ get_orthogonal_matrix size "orthogonal_procrustes" device indices rng
     = (match indices with
        | Some m => Ok m
        | None => Raise AssertionError
        end, rng)
  /\ ((forall l, indices ≠ Some (IndexList l)) ->
      get_orthogonal_matrix size "householder" device indices rng
      = (Raise AssertionError, rng))
  /\ get_orthogonal_matrix size "householder" device (Some (IndexList [])) rng
     = (Ok (IndexTensor (to_ float64 device (eye size))), rng).
Proof.
  split; [| split; [| split]].
  - intros Hmode. unfold get_orthogonal_matrix.
    rewrite !bool_decide_eq_false_2; [done | | | | |];
      intros ->; apply Hmode; unfold orthogonal_modes; set_solver.
  - unfold get_orthogonal_matrix. cbn. by destruct indices.
  - intros Hl. unfold get_orthogonal_matrix, random_householder_matrix. cbn.
    destruct indices as [[l | t | n] |]; try done. by destruct (Hl l).
  - reflexivity.
Qed.

Section ExactOrth.
Hypothesis Rsr : semi_ring_theory s_zero s_one s_add s_mul (@eq R).
Hypothesis round_exact : forall (dt : DType) (x : R), s_round dt x = x.
Hypothesis sign_unit : forall x : R, x ≠ s_zero -> s_mul (s_sign x) (s_sign x) = s_one.
Hypothesis sign_zero : s_sign s_zero = s_zero.
Add Ring Rring_orth : Rsr.

#[local] Notation "a ⊕ b" := (s_add a b) (at level 50, left associativity).
#[local] Notation "a ⊗ b" := (s_mul a b) (at level 40, left associativity).

Lemma row_blocks (i o : nat) (g : nat -> nat -> R) (a : nat) :
  a < o ->
  row i (flat_map (fun r => map (g r) (seq 0 i)) (seq 0 o)) a = map (g a) (seq 0 i).
Proof.
  intros Ha.
  pose proof (rows_of_blocks i o g) as Hb. rewrite rows_of_rows in Hb.
  apply (f_equal (fun l => nth a l [])) in Hb.
  by rewrite !nth_map_seq in Hb.
Qed.

Lemma dot_rows (n : nat) (q : list R) (a b : nat) :
  length q = n * n -> a < n -> b < n ->
  dot (row n q a) (row n q b)
  = bigsum n (fun c => nth (a * n + c) q s_zero ⊗ nth (b * n + c) q s_zero).
Proof using Rsr.
  intros Hq Ha Hb.
  rewrite (dot_row Rsr n q _ n b) by (done || by apply (length_row n n)).
  apply bigsum_ext. intros c Hc. by rewrite nth_row.
Qed.

(** X8: the sign adjustment of [random_orthogonal_matrix], in exact
    arithmetic.  When the QR factorisation of the draw returns square
    factors [q] and [r] on one device, the function returns [q] with
    column [j] multiplied by the sign of the diagonal entry [r_jj], in the
    dtype and on the device of [q].  If no diagonal entry of [r] is zero
    the rows of the result are orthonormal whenever those of [q] are; a
    zero diagonal entry makes the column all zero. *)
Theorem random_orthogonal_matrix_signs (size : nat) (device : Device) (rng rng' : Rng)
    (draw : list R) (q r : Tensor R) (n : nat) :
  randn (size * size) rng = (draw, rng') ->
  linalg_qr (to_device device (mkTensor [size; size] float64 cpu draw)) = Ok (q, r) ->
  shape q = [n; n] -> shape r = [n; n] -> Torch.device q = Torch.device r ->
  exists Q : Tensor R,
    random_orthogonal_matrix size device rng = (Ok Q, rng')
    /\ shape Q = [n; n] /\ dtype Q = dtype q /\ Torch.device Q = Torch.device q
    /\ (forall a j, a < n -> j < n ->
          nth (a * n + j) (data Q) s_zero
          = nth (a * n + j) (data q) s_zero ⊗ s_sign (nth (j * n + j) (data r) s_zero))
    /\ ((forall j, j < n -> nth (j * n + j) (data r) s_zero ≠ s_zero) ->
        rows_orthonormal q -> rows_orthonormal Q)
    /\ (forall j, j < n -> nth (j * n + j) (data r) s_zero = s_zero ->
          forall a, a < n -> nth (a * n + j) (data Q) s_zero = s_zero).
Proof using Rsr round_exact sign_unit sign_zero.
  intros Hdraw Hqr Hsq Hsr Hdev.
  unfold random_orthogonal_matrix. rewrite Hdraw, Hqr. cbn [mbind Result_bind bind].
  unfold diag. rewrite Hsr, Nat.min_id. cbn [mbind Result_bind bind].
  unfold imul, unsqueeze0, sign. cbn [shape dtype Torch.device data]. rewrite Hsq.
  rewrite bool_decide_eq_true_2 by (split; [by left | done]).
  set (v := map s_sign _).
  assert (Hv : forall c, c < n ->
            nth (if bool_decide (n = 1) then 0 else c) v s_zero
            = s_sign (nth (c * n + c) (data r) s_zero)).
  { intros c Hc. replace (if bool_decide (n = 1) then 0 else c) with c
      by (case_bool_decide; lia).
    subst v. rewrite map_map. by rewrite nth_map_seq. }
  set (g := fun a c => nth (a * n + c) (data q) s_zero
                       ⊗ s_sign (nth (c * n + c) (data r) s_zero)).
  assert (Hdata : flat_map (fun r0 => map (fun c =>
                    s_round (dtype q)
                      (nth (r0 * n + c) (data q) s_zero
                       ⊗ nth (if bool_decide (n = 1) then 0 else c) v s_zero))
                    (seq 0 n)) (seq 0 n)
                  = flat_map (fun a => map (g a) (seq 0 n)) (seq 0 n)).
  { apply flat_map_ext. intros a. apply map_ext_in. intros c Hc. apply in_seq in Hc.
    rewrite round_exact, Hv by lia. done. }
  rewrite Hdata. eexists. split; [reflexivity |].
  cbn [shape dtype Torch.device data].
  split; [done |]. split; [done |]. split; [done |].
  assert (Hentry : forall a j, a < n -> j < n ->
            nth (a * n + j) (flat_map (fun a => map (g a) (seq 0 n)) (seq 0 n)) s_zero
            = g a j).
  { intros a j Ha Hj.
    rewrite <- (nth_row n _ a j Hj), row_blocks by done. by rewrite nth_map_seq. }
  split; [exact Hentry |]. split.
  - intros Hnz (n' & Hsq' & Hwfq & Horth). rewrite Hsq in Hsq'. injection Hsq' as <-.
    assert (Hlenq : length (data q) = n * n).
    { unfold wf in Hwfq. rewrite Hwfq, Hsq. cbn. lia. }
    exists n. split; [done |]. split.
    { unfold wf. cbn [shape data]. rewrite length_blocks. cbn. lia. }
    intros a b Ha Hb. cbn [data]. rewrite !row_blocks by done.
    rewrite (dot_map_seq Rsr). rewrite <- (Horth a b Ha Hb), dot_rows by done.
    apply bigsum_ext. intros c Hc. unfold g.
    transitivity (nth (a * n + c) (data q) s_zero ⊗ nth (b * n + c) (data q) s_zero
                  ⊗ (s_sign (nth (c * n + c) (data r) s_zero)
                     ⊗ s_sign (nth (c * n + c) (data r) s_zero))); [ring |].
    rewrite sign_unit by (by apply Hnz). ring.
  - intros j Hj Hz a Ha. rewrite Hentry by done. unfold g. rewrite Hz, sign_zero. ring.
Qed.

End ExactOrth.

End OrthSpec.

Lemma Z_sign_unit (x : Z) : x ≠ s_zero -> s_mul (s_sign x) (s_sign x) = s_one.
Proof. intros Hx. destruct x; [done | reflexivity | reflexivity]. Qed.

Lemma random_orthogonal_matrix_signs_witness :
  exists Q : Tensor Z,
    random_orthogonal_matrix 2 cuda 0 = (Ok Q, 4)
    /\ shape Q = [2; 2] /\ dtype Q = dtype quarter_turn_dev
    /\ device Q = device quarter_turn_dev
    /\ (forall a j, a < 2 -> j < 2 ->
          nth (a * 2 + j) (data Q) s_zero
          = s_mul (nth (a * 2 + j) (data quarter_turn_dev) s_zero)
              (s_sign (nth (j * 2 + j) (data upper_factor) s_zero)))
    /\ ((forall j, j < 2 -> nth (j * 2 + j) (data upper_factor) s_zero ≠ s_zero) ->
        rows_orthonormal quarter_turn_dev -> rows_orthonormal Q)
    /\ (forall j, j < 2 -> nth (j * 2 + j) (data upper_factor) s_zero = s_zero ->
          forall a, a < 2 -> nth (a * 2 + j) (data Q) s_zero = s_zero).
Proof.
  apply (random_orthogonal_matrix_signs Z_semi_ring Z_round_exact Z_sign_unit eq_refl
           2 cuda 0 4 [0; 2; 3; -1]%Z quarter_turn_dev upper_factor 2).
  - reflexivity.
  - reflexivity.
  - reflexivity.
  - reflexivity.
  - reflexivity.
Defined.

(** ** Calibration state of the wrapper *)

Section WrapperMore.
Context {R P A : Type} `{Scalar R} `{QuantKernels R P} `{HadamardKernel R}.

Implicit Types self : QKRotationWrapper R P A.

Lemma find_params_then_quantize_served (qz : ActQuantizer R P) (x : Tensor R) :
  exists evs, served_without_free qz (find_params_then_quantize qz x).2 evs.
Proof.
  unfold find_params_then_quantize, find_params, quantize, served_without_free.
  destruct (find_params_kernel _ x) as [p |]; cbn.
  - destruct (quantize_kernel _ _ x) as [y |]; cbn.
    + exists [EvFindParams x; EvQuantize x]. rewrite <- app_assoc. split; [done |].
      intros Hin. repeat (apply elem_of_cons in Hin as [Hin | Hin]; [discriminate |]).
      by apply elem_of_nil in Hin.
    + exists [EvFindParams x]. split; [done |].
      intros Hin. apply list_elem_of_singleton in Hin. discriminate.
  - exists []. split; [by rewrite app_nil_r | apply not_elem_of_nil].
Qed.

Lemma quantize_key_served self (q k : Tensor R) (dims : nat * nat * nat * nat) :
  exists evs, served_without_free (w_k_quantizer self) (quantize_key self q k dims).2 evs.
Proof.
  assert (Hnone : exists evs : list (QuantEvent R),
            served_without_free (w_k_quantizer self) (w_k_quantizer self) evs).
  { exists []. split; [by rewrite app_nil_r | apply not_elem_of_nil]. }
  unfold quantize_key. destruct dims as [[[b h] n] d].
  case_bool_decide; [| done]. case_bool_decide.
  - destruct (_ ≫= _) as [x |]; [| done].
    pose proof (find_params_then_quantize_served (w_k_quantizer self) x) as Hs.
    by destruct (find_params_then_quantize _ x).
  - destruct (reshape_rows d k) as [x |]; [| done].
    pose proof (find_params_then_quantize_served (w_k_quantizer self) x) as Hs.
    by destruct (find_params_then_quantize _ x).
Qed.

Lemma quantize_key_tags self (q k k' : Tensor R) (dims : nat * nat * nat * nat)
    (qz : ActQuantizer R P) :
  quantize_key self q k dims = (Ok k', qz) ->
  (w_k_bits self < 16)%Z ->
  dtype k' = dtype q /\ device k' = device q.
Proof.
  unfold quantize_key. destruct dims as [[[b h] n] d]. intros Hq Hbits.
  rewrite bool_decide_eq_true_2 in Hq by done.
  case_bool_decide.
  - destruct (_ ≫= _) as [x |]; [| discriminate].
    destruct (find_params_then_quantize _ x) as [[y |] qz']; cbn in Hq; [| discriminate].
    destruct (reshape _ y) as [k1 |]; cbn in Hq; [| discriminate].
    destruct (transpose12 k1) as [k2 |]; cbn in Hq; [| discriminate].
    by injection Hq as <- _.
  - destruct (reshape_rows d k) as [x |]; [| discriminate].
    destruct (find_params_then_quantize _ x) as [[y |] qz']; cbn in Hq; [| discriminate].
    destruct (reshape _ y) as [k1 |]; cbn in Hq; [| discriminate].
    by injection Hq as <- _.
Qed.

Lemma with_quantizer_self self : with_quantizer self (w_k_quantizer self) = self.
Proof. by destruct self. Qed.

(** X10: [forward] frees the calibration state exactly when it returns.
    When the call returns, the query is the one the code before the
    quantization block produced (it is never quantized), the quantizer
    has served requests none of which is [free] and then one [free], its
    calibration parameters are gone, and a key quantized with fewer than
    16 bits has the dtype and device of the query.  When the call raises,
    the quantizer has served no [free] at all.  Either way nothing but the
    quantizer of the wrapper has changed. *)
Theorem forward_frees_calibration self (args : A) :
  match forward self args with
  | (Ok (q', k'), self') =>
      aq_params (w_k_quantizer self') = None
      /\ (exists evs, aq_log (w_k_quantizer self')
                      = aq_log (w_k_quantizer self) ++ evs ++ [EvFree]
                      /\ EvFree ∉ evs)
      /\ (exists k dims, rotate_qk self args = Ok (q', k, dims))
      /\ ((w_k_bits self < 16)%Z -> dtype k' = dtype q' /\ device k' = device q')
      /\ self' = with_quantizer self (w_k_quantizer self')
  | (Raise e, self') =>
      (exists evs, served_without_free (w_k_quantizer self) (w_k_quantizer self') evs)
      /\ self' = with_quantizer self (w_k_quantizer self')
  end.
Proof.
  unfold forward.
  destruct (rotate_qk self args) as [[[q k] dims] |] eqn:Hr.
  - pose proof (quantize_key_served self q k dims) as [evs [Hlog Hfree]].
    pose proof (fun k' qz => quantize_key_tags self q k k' dims qz) as Htags.
    destruct (quantize_key self q k dims) as [[k' |] qz]; cbn [snd] in *.
    + split; [done |]. split.
      { exists evs. cbn. by rewrite Hlog, app_assoc. }
      split; [by exists k, dims |]. split; [by apply (Htags k' qz) |].
      by destruct self.
    + split; [by exists evs |]. by destruct self.
  - split; [| by rewrite with_quantizer_self].
    exists []. split; [by rewrite app_nil_r | apply not_elem_of_nil].
Qed.

End WrapperMore.

Lemma forward_returns_witness :
  exists (k' : Tensor Z) self',
    forward (example_wrapper true 4 (-1)) tt = (Ok (fixed_q, k'), self').
Proof.
  apply (forward_returns (example_wrapper true 4 (-1)) tt fixed_q fixed_k 1 2 1 2).
  - vm_compute. reflexivity.
  - split; reflexivity.
  - intros x Hx. exists tt. eexists. split; [reflexivity |]. split; reflexivity.
Defined.

(** ** Online rotation of a rotated layer *)

Section OnlineCompose.
Context {R P A : Type} `{Scalar R} `{QuantKernels R P} `{HadamardKernel R} `{Misc}.
Hypothesis Rsr : semi_ring_theory s_zero s_one s_add s_mul (@eq R).
Hypothesis round_exact : forall (dt : DType) (x : R), s_round dt x = x.

Implicit Types module : NNModule R P A.

Lemma matmul_retag (x x' B B' : Tensor R) (y : Tensor R) :
  shape x' = shape x -> data x' = data x ->
  shape B' = shape B -> data B' = data B ->
  dtype x' = dtype B' -> device x' = device B' ->
  matmul x B = Ok y ->
  matmul x' B' = Ok (mkTensor (shape y) (dtype x') (device x') (data y)).
Proof using round_exact.
  intros Hsx Hdx HsB HdB Hdt Hdev Hm.
  apply (matmul_inv) in Hm as (k & o & batch & HsB0 & Hsx0 & _ & _ & ->).
  unfold matmul. rewrite HsB, HsB0, Hsx, Hsx0.
  rewrite bool_decide_eq_true_2 by done.
  cbn [shape data]. by rewrite !(apply_rows_exact round_exact), Hdx, HdB.
Qed.

(** X7: an online rotation in front of a rotated layer cancels, in exact
    arithmetic.  Let the weight of a module be [W @ Q] as the input-side
    rotation computes it, for a matrix [Q] with orthonormal rows, and let
    [register_online_rotation(module, Q)] have returned.  Then the hook
    turns an input [x] into [x @ Q], and the module's weight maps it to
    what [W] maps [x] to. *)
Theorem online_rotation_cancels module module' (Q W W' : Tensor R) :
  rows_orthonormal Q -> wf W ->
  rotate_weight Q W = Ok W' ->
  getattr module "weight" = Ok (ValTensor W') ->
  register_online_rotation module Q = Ok module' ->
  forall (x y : Tensor R) (rest : list (Arg R)),
    wf x -> dtype x = dtype W' -> device x = device W' ->
    linear (to_like W x) W = Ok y ->
    exists xq y' : Tensor R,
      online_rotate module' (ArgTensor x :: rest) = Ok (ArgTensor xq :: rest)
      /\ linear xq W' = Ok y'
      /\ same_values y' y.
Proof using Rsr round_exact.
  intros HQ HwfW Hrot Hweight Hreg x y rest Hwfx Hdtx Hdevx Hlin.
  pose proof HQ as (n & HsQ & HwfQ & _).
  destruct (register_online_rotation_inv _ _ _ Hreg) as (w & Qt & Hhas & HT & Hw & ->).
  rewrite Hweight in Hw. cbn in Hw. injection Hw as <-.
  apply hasattr_false in Hhas as (Hattr & Hpar & Hbuf).
  destruct (rotate_weight_absorbs Rsr round_exact Q W W' HQ HwfW Hrot (to_like W x) y)
    as (xq0 & y' & Hxq0 & Hy' & Hsame); [by unfold wf, to_like; rewrite (to_data round_exact) | done |].
  unfold online_rotate, getattr. cbn [m_attrs m_parameters m_buffers].
  rewrite lookup_insert_ne by done. rewrite Hattr, Hpar, lookup_insert_eq.
  cbn [mbind Result_bind bind].
  rewrite (linear_T_matmul W' Q Qt x HwfQ HT).
  destruct (rotate_weight_tags _ _ _ Hrot) as [HdtW' HdevW'].
  assert (Hmm : matmul x (to_like W' Q)
                = Ok (mkTensor (shape xq0) (dtype x) (device x) (data xq0))).
  { apply (matmul_retag (to_ float64 DEV (to_like W x)) x Q (to_like W' Q)); try done.
    - unfold to_like. by rewrite !(to_data round_exact).
    - unfold to_like. by rewrite (to_data round_exact). }
  rewrite Hmm.
  cbn [mbind Result_bind bind tail]. eexists _, y'. split; [reflexivity |].
  split; [| done].
  rewrite <- Hy'. f_equal. apply tensor_eq.
  - reflexivity.
  - exact Hdtx.
  - exact Hdevx.
  - unfold to_like. by rewrite (to_data round_exact).
Qed.

End OnlineCompose.

Lemma online_rotation_cancels_witness :
  exists xq y' : Tensor Z,
    online_rotate rotated_module_registered [ArgTensor unit_row_dev] = Ok [ArgTensor xq]
    /\ linear xq rotated_weight = Ok y'
    /\ same_values y' (mkTensor [1; 2] float64 cuda [1; 3]%Z).
Proof.
  apply (online_rotation_cancels Z_semi_ring Z_round_exact rotated_module
           rotated_module_registered quarter_turn_dev plain_weight rotated_weight
           quarter_turn_dev_orthonormal).
  - reflexivity.
  - vm_compute. reflexivity.
  - vm_compute. reflexivity.
  - vm_compute. reflexivity.
  - reflexivity.
  - reflexivity.
  - reflexivity.
  - vm_compute. reflexivity.
Defined.

End RotationUtilsSpec.
